(** * OPL Manager image converter: the [ImageProcessor] core

    A shallow embedding of [ImageProcessor] from [opl_image_converter.py]
    (the dimension table, the format gate, [convert_resize_image] and
    [batch_process]) together with the parts of the Python runtime the three
    functions rely on: [os.path] (POSIX flavour), [str], binary64 floats and
    the handful of Pillow calls ([Image.open], [convert], [new], [resize],
    [paste], [save]).

    Python [float] is the primitive binary64 float of Rocq, so every
    arithmetic step of the letterbox computation is evaluated exactly as
    the interpreter evaluates it; what is proved about it for all inputs
    goes through the IEEE 754 specification [SpecFloat] of those floats. *)

From Stdlib Require Import ZArith Ascii String Floats Uint63 Lia Reals Lra.
From stdpp Require Import base decidable option list gmap strings pretty.

Open Scope string_scope.
Open Scope Z_scope.

(** ** Python strings and [os.path]

    Strings are sequences of 8-bit characters; [str.lower] acts on the
    ASCII letters, which is all the allow-list of extensions can match. *)
Module PyStr.

Definition lower_char (c : ascii) : ascii :=
  let n := N_of_ascii c in
  if ((65 <=? n) && (n <=? 90))%N then ascii_of_N (n + 32) else c.

Fixpoint lower (s : string) : string :=
  match s with
  | EmptyString => EmptyString
  | String c s' => String (lower_char c) (lower s')
  end.

(** [s.rfind(c)]: the highest index holding [c], or [-1]. *)
Fixpoint rfind_from (c : ascii) (s : string) (i acc : Z) : Z :=
  match s with
  | EmptyString => acc
  | String a s' => rfind_from c s' (i + 1) (if Ascii.eqb a c then i else acc)
  end.

Definition rfind (s : string) (c : ascii) : Z := rfind_from c s 0 (-1).

(** The position of the last [c] as an option, to reason about [rfind]. *)
Fixpoint rindex (c : ascii) (s : string) : option nat :=
  match s with
  | EmptyString => None
  | String a s' =>
      match rindex c s' with
      | Some k => Some (S k)
      | None => if Ascii.eqb a c then Some O else None
      end
  end.

(** [s[:i]] and [s[i:]] for [0 <= i]. *)
Fixpoint take (n : nat) (s : string) : string :=
  match n, s with
  | S n', String a s' => String a (take n' s')
  | _, _ => EmptyString
  end.

Fixpoint drop (n : nat) (s : string) : string :=
  match n, s with
  | S n', String _ s' => drop n' s'
  | _, _ => s
  end.

Definition slice_to (s : string) (i : Z) : string := take (Z.to_nat i) s.
Definition slice_from (s : string) (i : Z) : string := drop (Z.to_nat i) s.

(** [s[i:i+1]] *)
Definition slice1 (s : string) (i : Z) : string := take 1 (slice_from s i).

Definition startswith (s : string) (c : ascii) : bool :=
  match s with
  | String a _ => Ascii.eqb a c
  | EmptyString => false
  end.

Fixpoint endswith (s : string) (c : ascii) : bool :=
  match s with
  | EmptyString => false
  | String a EmptyString => Ascii.eqb a c
  | String _ s' => endswith s' c
  end.

(** [str(n)] for a non-negative integer. *)
Definition str_of_int (n : Z) : string := pretty n.

End PyStr.

(** [posixpath]: [sep = "/"], no [altsep], [extsep = "."]. *)
Module OsPath.
Import PyStr.

Definition sep : ascii := "/"%char.
Definition extsep : ascii := "."%char.

(** The [while filenameIndex < dotIndex] loop of [genericpath._splitext];
    [n] counts the iterations that remain, [filenameIndex = dotIndex - n]. *)
Fixpoint splitext_scan (p : string) (dotIndex : Z) (n : nat)
  : option (string * string) :=
  match n with
  | O => None
  | S n' =>
      let filenameIndex := dotIndex - Z.of_nat n in
      if negb (String.eqb (slice1 p filenameIndex) (String extsep EmptyString))
      then Some (slice_to p dotIndex, slice_from p dotIndex)
      else splitext_scan p dotIndex n'
  end.

Definition splitext (p : string) : string * string :=
  let sepIndex := rfind p sep in
  let dotIndex := rfind p extsep in
  if sepIndex <? dotIndex then
    match splitext_scan p dotIndex (Z.to_nat (dotIndex - (sepIndex + 1))) with
    | Some r => r
    | None => (p, EmptyString)
    end
  else (p, EmptyString).

Definition basename (p : string) : string :=
  let i := rfind p sep + 1 in
  slice_from p i.

(** [os.path.join(a, b)] with one trailing component. *)
Definition join (a b : string) : string :=
  if startswith b sep then b
  else if String.eqb a EmptyString || endswith a sep then a +:+ b
  else a +:+ String sep EmptyString +:+ b.

End OsPath.

(** ** Exceptions

    An exception is its class name and its message; [str(e)] is the message. *)
Record exn := Exn { exn_class : string; exn_msg : string }.

Inductive result (A : Type) : Type :=
| Ok (a : A)
| Raise (e : exn).
Arguments Ok {A} a.
Arguments Raise {A} e.

Definition result_bind {A B} (r : result A) (k : A -> result B) : result B :=
  match r with
  | Ok a => k a
  | Raise e => Raise e
  end.

(** ** Python numbers: [int] is [Z], [float] is binary64 *)
Module PyNum.

(** [float(n)].  Below [2^53] the conversion is exact, and there [a / b]
    on two ints is the binary64 quotient of the two conversions; image
    sizes, which Pillow keeps in C ints, are far below that. *)
Definition float_of_int (n : Z) : float :=
  if n <? 0 then PrimFloat.opp (PrimFloat.of_uint63 (Uint63.of_Z (- n)))
  else PrimFloat.of_uint63 (Uint63.of_Z n).

(** [a / b] on two ints. *)
Definition int_truediv (a b : Z) : result float :=
  if b =? 0 then Raise (Exn "ZeroDivisionError" "division by zero")
  else Ok (PrimFloat.div (float_of_int a) (float_of_int b)).

(** [n / x] with [n] an int and [x] a float. *)
Definition int_div_float (n : Z) (x : float) : result float :=
  if PrimFloat.eqb x PrimFloat.zero
  then Raise (Exn "ZeroDivisionError" "float division by zero")
  else Ok (PrimFloat.div (float_of_int n) x).

(** [n * x] with [n] an int and [x] a float. *)
Definition int_mul_float (n : Z) (x : float) : float :=
  PrimFloat.mul (float_of_int n) x.

(** [x > y] *)
Definition float_gt (x y : float) : bool := PrimFloat.ltb y x.

(** Integer part of a finite binary64 value [m * 2^e], towards zero. *)
Definition trunc_mag (m : positive) (e : Z) : Z :=
  if 0 <=? e then Z.pos m * 2 ^ e else Z.pos m / 2 ^ (- e).

(** [int(x)] *)
Definition int_of_float (x : float) : result Z :=
  match Prim2SF x with
  | S754_zero _ => Ok 0
  | S754_finite s m e => Ok (if s then - trunc_mag m e else trunc_mag m e)
  | S754_infinity _ =>
      Raise (Exn "OverflowError" "cannot convert float infinity to integer")
  | S754_nan => Raise (Exn "ValueError" "cannot convert float NaN to integer")
  end.

(** Nearest integer to [m * 2^e], ties to the even one. *)
Definition round_mag (m : positive) (e : Z) : Z :=
  if 0 <=? e then Z.pos m * 2 ^ e
  else
    let d := 2 ^ (- e) in
    let q := Z.pos m / d in
    let r := Z.pos m mod d in
    match 2 * r ?= d with
    | Lt => q
    | Gt => q + 1
    | Eq => if Z.even q then q else q + 1
    end.

(** [round(x)] with no [ndigits]. *)
Definition round (x : float) : result Z :=
  match Prim2SF x with
  | S754_zero _ => Ok 0
  | S754_finite s m e => Ok (if s then - round_mag m e else round_mag m e)
  | S754_infinity _ =>
      Raise (Exn "OverflowError" "cannot convert float infinity to integer")
  | S754_nan => Raise (Exn "ValueError" "cannot convert float NaN to integer")
  end.

End PyNum.


(** ** Pillow images

    An image is its mode, its size and its pixel data; a pixel is the list
    of its band values.  Pixel data is meaningful inside the image only. *)
Module PIL.

Definition color := list Z.

Record image := Image {
  mode : string;
  size : Z * Z;
  getpixel : Z -> Z -> color
}.

Definition width (im : image) : Z := fst (size im).
Definition height (im : image) : Z := snd (size im).

(** What a path holds on disk. *)
Inductive node :=
| Raster (im : image)   (* a file Pillow decodes *)
| Blob                  (* a file Pillow cannot identify *)
| Dir.

(** The part of the machine the converter touches: the files, the paths
    the operating system refuses to write, and the log of the paths
    handed to [Image.open]. *)
Record world := World {
  files : gmap string node;
  denied : gset string;
  opened : list string
}.

Definition black : color := [0; 0; 0].

Definition size_eqb (a b : Z * Z) : bool :=
  (fst a =? fst b) && (snd a =? snd b).

Section Codec.
(** Pixel data after a mode conversion and after Lanczos resampling;
    both are Pillow's C code and stay abstract. *)
Variable convert_data : image -> string -> Z -> Z -> color.
Variable lanczos : image -> Z * Z -> Z -> Z -> color.

(** [Image.open(path)] *)
Definition Image_open (path : string) (w : world) : result image * world :=
  let w' := World (files w) (denied w) (opened w ++ [path]) in
  match files w !! path with
  | Some (Raster im) => (Ok im, w')
  | Some Blob =>
      (Raise (Exn "UnidentifiedImageError"
                  ("cannot identify image file '" +:+ path +:+ "'")), w')
  | Some Dir =>
      (Raise (Exn "IsADirectoryError"
                  ("[Errno 21] Is a directory: '" +:+ path +:+ "'")), w')
  | None =>
      (Raise (Exn "FileNotFoundError"
                  ("[Errno 2] No such file or directory: '" +:+ path +:+ "'")), w')
  end.

(** [im.convert(m)] *)
Definition Image_convert (im : image) (m : string) : image :=
  Image m (size im) (convert_data im m).

(** [Image.new(m, sz, c)] *)
Definition Image_new (m : string) (sz : Z * Z) (c : color) : image :=
  Image m sz (fun _ _ => c).

(** [im.resize(sz, Image.LANCZOS)]: a copy when the size is unchanged,
    [ValueError] from the resampler when a side is below one pixel. *)
Definition Image_resize (im : image) (sz : Z * Z) : result image :=
  if size_eqb (size im) sz then Ok im
  else if (fst sz <? 1) || (snd sz <? 1)
  then Raise (Exn "ValueError" "height and width must be > 0")
  else Ok (Image (mode im) sz (lanczos im sz)).

(** The box [im] covers once pasted with its corner at [(left, top)]. *)
Definition in_box (im : image) (left_ top_ x y : Z) : bool :=
  (left_ <=? x) && (x <? left_ + width im) &&
  (top_ <=? y) && (y <? top_ + height im).

(** [canvas.paste(im, (left, top))]: opaque overwrite, clipped to the
    canvas. *)
Definition Image_paste (canvas im : image) (box : Z * Z) : image :=
  let '(left_, top_) := box in
  Image (mode canvas) (size canvas)
        (fun x y => if in_box im left_ top_ x y
                    then getpixel im (x - left_) (y - top_)
                    else getpixel canvas x y).

(** [im.save(path, 'PNG')] *)
Definition Image_save (im : image) (path : string) (w : world)
  : result unit * world :=
  match files w !! path with
  | Some Dir =>
      (Raise (Exn "IsADirectoryError"
                  ("[Errno 21] Is a directory: '" +:+ path +:+ "'")), w)
  | _ =>
      if bool_decide (path ∈ denied w)
      then (Raise (Exn "PermissionError"
                       ("[Errno 13] Permission denied: '" +:+ path +:+ "'")), w)
      else (Ok tt, World (<[path := Raster im]> (files w)) (denied w) (opened w))
  end.

(** [os.path.exists(path)] *)
Definition path_exists (path : string) (w : world) : bool :=
  bool_decide (is_Some (files w !! path)).

End Codec.
End PIL.

(** ** [class ImageProcessor] *)
Module ImageProcessor.
Import PyStr PyNum PIL.

Definition DIMENSIONS : gmap string (Z * Z) :=
  list_to_map
    [ ("caratula", (140, 200));
      ("borde", (18, 240));
      ("contracaratula", (242, 344));
      ("captura", (250, 168));
      ("fondo", (640, 480));
      ("disco", (128, 128));
      ("logo", (300, 125)) ].

Definition SUPPORTED_FORMATS : list string :=
  [".jpg"; ".jpeg"; ".png"; ".bmp"; ".webp"; ".tiff"; ".gif"].

Definition is_supported_format (file_path : string) : bool :=
  let ext := lower (snd (OsPath.splitext file_path)) in
  bool_decide (ext ∈ SUPPORTED_FORMATS).

(** Lines 52-63 of [convert_resize_image]: the size the source is scaled
    to before it is pasted on the canvas. *)
Definition scaled_size (img_size target : Z * Z) : result (Z * Z) :=
  let '(img_width, img_height) := img_size in
  let '(target_width, target_height) := target in
  result_bind (int_truediv img_width img_height) (fun aspect_ratio =>
  result_bind (int_truediv target_width target_height) (fun target_ratio =>
  if float_gt aspect_ratio target_ratio then
    let new_width := target_width in
    result_bind (int_div_float new_width aspect_ratio) (fun q =>
    result_bind (int_of_float q) (fun new_height =>
    Ok (new_width, new_height)))
  else
    let new_height := target_height in
    result_bind (int_of_float (int_mul_float new_height aspect_ratio))
      (fun new_width => Ok (new_width, new_height)))).

(** Lines 71-73: where the scaled image goes. *)
Definition paste_origin (target new_size : Z * Z) : Z * Z :=
  ((fst target - fst new_size) / 2, (snd target - snd new_size) / 2).

Section Codec.
Variable convert_data : image -> string -> Z -> Z -> color.
Variable lanczos : image -> Z * Z -> Z -> Z -> color.

(** Lines 65-77: canvas, resize, paste. *)
Definition letterbox (img : image) (target : Z * Z) : result image :=
  result_bind (scaled_size (size img) target) (fun new_size =>
  let new_img := Image_new "RGB" target black in
  result_bind (Image_resize lanczos img new_size) (fun resized_img =>
  Ok (Image_paste new_img resized_img (paste_origin target new_size)))).

(** Lines 41-42: [if img.mode != 'RGB': img = img.convert('RGB')] *)
Definition as_rgb (img : image) : image :=
  if negb (String.eqb (mode img) "RGB")
  then Image_convert convert_data img "RGB" else img.

(** The body of the [try] block. *)
Definition convert_resize_image_try
    (input_path output_path image_type : string) (maintain_aspect : bool)
    (w : world) : result string * world :=
  match Image_open input_path w with
  | (Raise e, w1) => (Raise e, w1)
  | (Ok img, w1) =>
      let img := as_rgb img in
      let '(target_width, target_height) :=
        default (0, 0) (DIMENSIONS !! image_type) in
      if (target_width =? 0) || (target_height =? 0) then
        (Raise (Exn "ValueError"
                    ("Tipo de imagen no válido: " +:+ image_type)), w1)
      else
        let resized :=
          if maintain_aspect
          then letterbox img (target_width, target_height)
          else Image_resize lanczos img (target_width, target_height) in
        match resized with
        | Raise e => (Raise e, w1)
        | Ok img =>
            match Image_save img output_path w1 with
            | (Raise e, w2) => (Raise e, w2)
            | (Ok _, w2) => (Ok output_path, w2)
            end
        end
  end.

(** [try: ... return True, output_path
     except Exception as e: return False, str(e)] *)
Definition convert_resize_image
    (input_path output_path image_type : string) (maintain_aspect : bool)
    (w : world) : (bool * string) * world :=
  match convert_resize_image_try input_path output_path image_type
          maintain_aspect w with
  | (Ok p, w') => ((true, p), w')
  | (Raise e, w') => ((false, exn_msg e), w')
  end.

Definition output_name (base_name image_type : string) : string :=
  base_name +:+ "_" +:+ image_type +:+ ".png".

Definition output_name_n (base_name image_type : string) (counter : Z)
  : string :=
  base_name +:+ "_" +:+ image_type +:+ "_" +:+ str_of_int counter +:+ ".png".

(** The paths the loop below tries, in order: number 0 is the plain
    name, number [k >= 1] carries the suffix [_k]. *)
Definition candidate (output_dir base_name image_type : string) (k : Z)
  : string :=
  OsPath.join output_dir
    (if k =? 0 then output_name base_name image_type
     else output_name_n base_name image_type k).

(** The [while os.path.exists(output_path)] loop; [None] when the
    iterations allowed by [fuel] are used up. *)
Fixpoint free_path (fuel : nat) (w : world)
    (output_dir base_name image_type output_path : string) (counter : Z)
  : option string :=
  match fuel with
  | O => None
  | S fuel' =>
      if path_exists output_path w then
        free_path fuel' w output_dir base_name image_type
          (OsPath.join output_dir (output_name_n base_name image_type counter))
          (counter + 1)
      else Some output_path
  end.

(** One more iteration than there are entries on disk. *)
Definition enough_fuel (w : world) : nat := S (base.size (files w)).

Section Batch.
(** The caller's progress callback acts on the caller's own state. *)
Variable UI : Type.
Variable callback : option (string -> bool -> string -> UI -> UI).

Definition outcome : Type := string * bool * string.

(** One turn of the [for] loop. *)
Definition batch_step (output_dir image_type : string)
    (maintain_aspect : bool) (input_file : string) (st : world * UI)
  : option (outcome * (world * UI)) :=
  let '(w, ui) := st in
  if negb (is_supported_format input_file) then
    Some ((input_file, false, "Formato no soportado"), st)
  else
    let base_name := fst (OsPath.splitext (OsPath.basename input_file)) in
    let output_path :=
      OsPath.join output_dir (output_name base_name image_type) in
    match free_path (enough_fuel w) w output_dir base_name image_type
            output_path 1 with
    | None => None
    | Some output_path =>
        let '((success, message), w') :=
          convert_resize_image input_file output_path image_type
            maintain_aspect w in
        let shown := if negb success then message else output_path in
        let ui' :=
          match callback with
          | Some f => f input_file success shown ui
          | None => ui
          end in
        Some ((input_file, success, shown), (w', ui'))
    end.

Fixpoint batch_loop (input_files : list string)
    (output_dir image_type : string) (maintain_aspect : bool)
    (results : list outcome) (st : world * UI)
  : option (list outcome * (world * UI)) :=
  match input_files with
  | [] => Some (results, st)
  | input_file :: rest =>
      match batch_step output_dir image_type maintain_aspect input_file st with
      | None => None
      | Some (r, st') =>
          batch_loop rest output_dir image_type maintain_aspect
            (results ++ [r]) st'
      end
  end.

Definition batch_process (input_files : list string)
    (output_dir image_type : string) (maintain_aspect : bool)
    (st : world * UI) : option (list outcome * (world * UI)) :=
  batch_loop input_files output_dir image_type maintain_aspect [] st.

End Batch.
End Codec.
End ImageProcessor.

(** ** The sizing rule as the specification words it

    Follows the specification, not the source: the same two branches, with
    [round()] where the source calls [int()].  It is here to be compared
    with [ImageProcessor.scaled_size]. *)
Module Spec.
Import PyNum.

Definition scaled_size_rounded (img_size target : Z * Z) : result (Z * Z) :=
  let '(sw, sh) := img_size in
  let '(tw, th) := target in
  result_bind (int_truediv sw sh) (fun source_ratio =>
  result_bind (int_truediv tw th) (fun target_ratio =>
  if float_gt source_ratio target_ratio then
    result_bind (int_div_float tw source_ratio) (fun q =>
    result_bind (round q) (fun new_height => Ok (tw, new_height)))
  else
    result_bind (round (int_mul_float th source_ratio))
      (fun new_width => Ok (new_width, th)))).
End Spec.

(** ** Real values of binary64 numbers *)
Module FloatSem.

Definition bpow (e : Z) : R := powerRZ 2 e.

(** The real number [m * 2^e]. *)
Definition F2R (m e : Z) : R := (IZR m * bpow e)%R.

(** The number of low bits [shr_fexp] drops from [m * 2^e]. *)
Definition fexp_shift (m e : Z) : Z :=
  Z.max 0 (fexp prec emax (Zdigits2 m + e) - e).

End FloatSem.

(** ** A small machine to run the converter on *)
Module Sample.
Import PIL.

(** Stand-ins for Pillow's codecs: nearest-neighbour sampling, and the
    first three bands of a pixel. *)
Definition nearest (im : image) (sz : Z * Z) (x y : Z) : color :=
  getpixel im (x * width im / fst sz) (y * height im / snd sz).

Definition first_bands (im : image) (m : string) (x y : Z) : color :=
  take 3 (getpixel im x y).

Definition photo : image :=
  Image "RGB" (1920, 1080) (fun x y => [x mod 256; y mod 256; 7]).

Definition icon : image :=
  Image "RGBA" (64, 64) (fun x y => [255; x; y; 128]).

Definition disk : world :=
  World (list_to_map [ ("in/photo.jpg", Raster photo);
                       ("in/icon.png", Raster icon);
                       ("in/notes.txt", Blob);
                       ("in/broken.png", Blob);
                       ("out", Dir);
                       ("out/photo_caratula.png", Raster icon) ])
        {[ "locked/photo.png" ]} [].

End Sample.

(** ** Reading a list of outcomes *)
Module Outcomes.
Import ImageProcessor.

(** The output paths of the outcomes whose flag is [True], in order. *)
Definition successful_outputs (results : list outcome) : list string :=
  map snd (List.filter (fun r : outcome => snd (fst r)) results).

(** [sum(1 for _, success, _ in results if success)] (line 592) *)
Definition success_count (results : list outcome) : Z :=
  Z.of_nat (length (List.filter (fun r : outcome => snd (fst r)) results)).

(** What [batch_process] does with its callback for one outcome
    (lines 119-120). *)
Definition notify {UI : Type}
    (callback : option (string -> bool -> string -> UI -> UI))
    (ui : UI) (r : outcome) : UI :=
  match callback with
  | Some f => f (fst (fst r)) (snd (fst r)) (snd r) ui
  | None => ui
  end.

End Outcomes.

(** ** More of [str]: whitespace, [split], [int()] and text files *)
Module PyText.
Import PyStr.

(** [c.isspace()]; a character is a code point below 256. *)
Definition is_space (c : ascii) : bool :=
  let n := N_of_ascii c in
  ((9 <=? n) && (n <=? 13) || (28 <=? n) && (n <=? 32)
   || (n =? 133) || (n =? 160))%N.

(** [c in s] *)
Fixpoint has_char (c : ascii) (s : string) : bool :=
  match s with
  | EmptyString => false
  | String a s' => Ascii.eqb a c || has_char c s'
  end.

(** [s.count(c)] *)
Fixpoint count_char (c : ascii) (s : string) : nat :=
  match s with
  | EmptyString => 0
  | String a s' => ((if Ascii.eqb a c then 1 else 0) + count_char c s')%nat
  end.

(** [all(p(c) for c in s)] *)
Fixpoint all_chars (p : ascii -> bool) (s : string) : bool :=
  match s with
  | EmptyString => true
  | String a s' => p a && all_chars p s'
  end.

(** No whitespace in [s]. *)
Definition no_space (s : string) : bool :=
  all_chars (fun c => negb (is_space c)) s.

(** [s.lstrip()] and [s.rstrip()], for a given notion of white space. *)
Fixpoint lstrip_by (space : ascii -> bool) (s : string) : string :=
  match s with
  | EmptyString => EmptyString
  | String c s' => if space c then lstrip_by space s' else s
  end.

Fixpoint rstrip_by (space : ascii -> bool) (s : string) : string :=
  match s with
  | EmptyString => EmptyString
  | String c s' =>
      match rstrip_by space s' with
      | EmptyString => if space c then EmptyString else String c EmptyString
      | t => String c t
      end
  end.

Definition lstrip : string -> string := lstrip_by is_space.
Definition rstrip : string -> string := rstrip_by is_space.

(** [s.strip()] *)
Definition strip (s : string) : string := rstrip (lstrip s).

(** [s.split(sep)] for a separator of one character. *)
Fixpoint split_char (sep : ascii) (s : string) : list string :=
  match s with
  | EmptyString => [EmptyString]
  | String c s' =>
      if Ascii.eqb c sep then EmptyString :: split_char sep s'
      else match split_char sep s' with
           | h :: t => String c h :: t
           | [] => [String c EmptyString]
           end
  end.

(** [s.split()]: the maximal runs of characters that are not whitespace;
    [cur] is the run being read. *)
Fixpoint split_ws_from (s cur : string) : list string :=
  match s with
  | EmptyString => if String.eqb cur EmptyString then [] else [cur]
  | String c s' =>
      if is_space c then
        if String.eqb cur EmptyString then split_ws_from s' EmptyString
        else cur :: split_ws_from s' EmptyString
      else split_ws_from s' (cur +:+ String c EmptyString)
  end.

Definition split_ws (s : string) : list string := split_ws_from s EmptyString.

Definition digit_value (c : ascii) : option Z :=
  let n := N_of_ascii c in
  if ((48 <=? n) && (n <=? 57))%N then Some (Z.of_N n - 48) else None.

(** The digits of an [int()] literal: decimal digits, with single
    underscores allowed between two digits. *)
Fixpoint int_digits (s : string) (acc : Z) (after_digit : bool) : option Z :=
  match s with
  | EmptyString => if after_digit then Some acc else None
  | String c s' =>
      match digit_value c with
      | Some d => int_digits s' (10 * acc + d) true
      | None =>
          if Ascii.eqb c "_" && after_digit then int_digits s' acc false
          else None
      end
  end.

(** The white space [int()] takes off the two ends of a literal: among
    the ASCII characters, those of C's [isspace] only. *)
Definition is_int_space (c : ascii) : bool :=
  let n := N_of_ascii c in
  ((9 <=? n) && (n <=? 13) || (n =? 32) || (n =? 133) || (n =? 160))%N.

(** [int(s)]: optional whitespace around an optional sign and the
    digits.  Two things are left out: the ceiling of 4300 digits that
    recent interpreters put on a literal, and the escapes [repr] writes
    in the message. *)
Definition int_of_str (s : string) : result Z :=
  let t := rstrip_by is_int_space (lstrip_by is_int_space s) in
  let '(negative, body) :=
    match t with
    | String "-" r => (true, r)
    | String "+" r => (false, r)
    | _ => (false, t)
    end in
  match int_digits body 0 false with
  | Some n => Ok (if negative then - n else n)
  | None =>
      Raise (Exn "ValueError"
                 ("invalid literal for int() with base 10: '" +:+ s +:+ "'"))
  end.

Definition LF : ascii := "010"%char.
Definition CR : ascii := "013"%char.

(** [f.readlines()] on a file opened in text mode: a line ends at a line
    feed, a carriage return or the two in a row, and is returned with a
    single line feed at its end; [cur] is the line being read. *)
Fixpoint readlines_from (s cur : string) : list string :=
  match s with
  | EmptyString => if String.eqb cur EmptyString then [] else [cur]
  | String c s' =>
      if Ascii.eqb c LF then
        (cur +:+ String LF EmptyString) :: readlines_from s' EmptyString
      else if Ascii.eqb c CR then
        match s' with
        | String c2 s2 =>
            if Ascii.eqb c2 LF
            then (cur +:+ String LF EmptyString) :: readlines_from s2 EmptyString
            else (cur +:+ String LF EmptyString) :: readlines_from s' EmptyString
        | EmptyString => [cur +:+ String LF EmptyString]
        end
      else readlines_from s' (cur +:+ String c EmptyString)
  end.

Definition readlines (s : string) : list string := readlines_from s EmptyString.

(** [l[i]] on a list, negative indices counting from the end. *)
Definition py_index {A} (l : list A) (i : Z) : option A :=
  let n := Z.of_nat (length l) in
  if (0 <=? i) && (i <? n) then l !! Z.to_nat i
  else if (- n <=? i) && (i <? 0) then l !! Z.to_nat (n + i)
  else None.

End PyText.

(** ** [class OPLImageConverterApp]: the data behind the window

    The Tk widgets are outside the model; what is kept of them is the text
    of the two labels that show the selection. *)
Module App.
Import PyStr PyNum PyText PIL ImageProcessor Outcomes.

(** *** The history file (lines 635-672) *)

Record history_entry := Entry {
  timestamp : string;
  date : string;
  type : string;
  total : Z;
  success : Z;
  directory : string
}.

(** The line [_save_history] writes for one entry. *)
Definition history_line (entry : history_entry) : string :=
  timestamp entry +:+ "|" +:+ date entry +:+ "|" +:+ type entry +:+ "|"
  +:+ str_of_int (total entry) +:+ "|" +:+ str_of_int (success entry)
  +:+ "|" +:+ directory entry +:+ String LF EmptyString.

Fixpoint history_text (history : list history_entry) : string :=
  match history with
  | [] => EmptyString
  | entry :: rest => history_line entry +:+ history_text rest
  end.

(** What [~/.opl_converter_history.txt] is. *)
Inductive history_file :=
| NoFile
| Unreadable            (* it exists, [open] raises *)
| Text (s : string).

(** [_save_history]: the file is rewritten whole, or left alone when it
    cannot be opened for writing. *)
Definition _save_history (history : list history_entry) (writable : bool)
    (file : history_file) : history_file :=
  if writable then Text (history_text history) else file.

(** Lines 645-655: one line of the file. *)
Definition parse_line (line : string) : result (option history_entry) :=
  let parts := split_char "|" (strip line) in
  if (6 <=? length parts)%nat then
    result_bind (int_of_str (nth 3 parts EmptyString)) (fun total_ =>
    result_bind (int_of_str (nth 4 parts EmptyString)) (fun success_ =>
    Ok (Some (Entry (nth 0 parts EmptyString) (nth 1 parts EmptyString)
                    (nth 2 parts EmptyString) total_ success_
                    (nth 5 parts EmptyString)))))
  else Ok None.

(** The [for line in lines] loop; an exception ends it and leaves
    [self.history] with what was appended so far. *)
Fixpoint load_lines (lines : list string) (history : list history_entry)
  : list history_entry * option exn :=
  match lines with
  | [] => (history, None)
  | line :: rest =>
      match parse_line line with
      | Raise e => (history, Some e)
      | Ok None => load_lines rest history
      | Ok (Some entry) => load_lines rest (history ++ [entry])
      end
  end.

(** [_load_history] *)
Definition _load_history (history : list history_entry)
    (file : history_file) : list history_entry :=
  match file with
  | Text s => fst (load_lines (readlines s) history)
  | NoFile | Unreadable => history
  end.

(** A field that a line of the file can carry: no bar and no end of
    line in it. *)
Definition plain (s : string) : bool :=
  negb (has_char "|" s) && negb (has_char LF s) && negb (has_char CR s).

(** A count as [len] gives it. *)
Definition is_count (n : Z) : bool := (0 <=? n) && (n <? 2 ^ 63).

(** An entry that the file can carry: plain fields, counts, and no
    white space where [strip] would take it off the line. *)
Definition reloadable (entry : history_entry) : bool :=
  plain (timestamp entry) && plain (date entry) && plain (type entry)
  && plain (directory entry)
  && String.eqb (lstrip (timestamp entry)) (timestamp entry)
  && String.eqb (rstrip (directory entry)) (directory entry)
  && is_count (total entry) && is_count (success entry).

(** *** The history tree (lines 674-710) *)

(** The tag [_update_history_tree] gives each row, in the order of the
    rows: the newest entry first. *)
Definition history_tags (history : list history_entry) : list string :=
  map timestamp (reverse history).

(** The [for entry in self.history] search of [_open_history_folder]. *)
Fixpoint find_directory (history : list history_entry) (timestamp_ : string)
  : option string :=
  match history with
  | [] => None
  | entry :: rest =>
      if String.eqb (timestamp entry) timestamp_ then Some (directory entry)
      else find_directory rest timestamp_
  end.

Inductive folder_action :=
| NoAction
| OpenFolder (directory_ : string)   (* handed to the file manager *)
| ShowError.

(** [_open_history_folder]; [selected] is the tag of the selected row,
    if a row is selected. *)
Definition _open_history_folder (selected : option string)
    (history : list history_entry) (w : world) : folder_action :=
  match selected with
  | None => NoAction
  | Some timestamp_ =>
      match find_directory history timestamp_ with
      | Some directory_ =>
          if negb (String.eqb directory_ EmptyString)
             && path_exists directory_ w
          then OpenFolder directory_
          else ShowError
      | None => ShowError
      end
  end.

(** *** Dropped files (lines 361-385) *)

(** The [for char in files] loop of the braces format. *)
Fixpoint brace_loop (files : string) (file_paths : list string)
    (current : string) (in_braces : bool) : list string :=
  match files with
  | EmptyString => file_paths
  | String char rest =>
      if Ascii.eqb char "{" then brace_loop rest file_paths EmptyString true
      else if Ascii.eqb char "}"
      then brace_loop rest (file_paths ++ [current]) current false
      else if in_braces
      then brace_loop rest file_paths (current +:+ String char EmptyString)
             in_braces
      else brace_loop rest file_paths current in_braces
  end.

(** [file_paths] as [_drop] obtains it from [event.data]. *)
Definition drop_paths (files : string) : list string :=
  if startswith files "{" && endswith files "}"
  then brace_loop files [] EmptyString false
  else split_ws files.

(** A drop list in the braces format: each path in braces, after some
    text. *)
Fixpoint braced (items : list (string * string)) : string :=
  match items with
  | [] => EmptyString
  | (before, path) :: rest =>
      before +:+ "{" +:+ path +:+ "}" +:+ braced rest
  end.

(** Words joined by single spaces. *)
Fixpoint spaced (words : list string) : string :=
  match words with
  | [] => EmptyString
  | [w] => w
  | w :: rest => w +:+ " " +:+ spaced rest
  end.

(** *** The selection and its two labels *)

Record selection := Selection {
  input_files : list string;
  current_preview_index : Z;
  files_label : string;
  preview_index_label : string
}.

Definition count_label (n : nat) : string :=
  str_of_int (Z.of_nat n) +:+ " archivos seleccionados".

Definition index_label (i : Z) (n : nat) : string :=
  "Imagen " +:+ str_of_int (i + 1) +:+ " de " +:+ str_of_int (Z.of_nat n).

(** The state [__init__] leaves. *)
Definition initial : selection :=
  Selection [] 0 "0 archivos seleccionados" EmptyString.

(** [_update_preview], lines 451-477: the label, then the lookup of the
    current file, which is not inside the [try]. *)
Definition _update_preview (s : selection) : result selection :=
  match input_files s with
  | [] => Ok (Selection (input_files s) (current_preview_index s)
                (files_label s) EmptyString)
  | _ =>
      match py_index (input_files s) (current_preview_index s) with
      | Some current_file =>
          Ok (Selection (input_files s) (current_preview_index s)
                (files_label s)
                (index_label (current_preview_index s)
                   (length (input_files s))))
      | None => Raise (Exn "IndexError" "list index out of range")
      end
  end.

Definition select (valid_files : list string) (s : selection)
  : result selection :=
  _update_preview
    (Selection valid_files 0 (count_label (length valid_files))
       (preview_index_label s)).

Definition _drop (data : string) (s : selection) : result selection :=
  let valid_files := List.filter is_supported_format (drop_paths data) in
  match valid_files with
  | [] => Ok s
  | _ => select valid_files s
  end.

Definition _select_files (files : list string) (s : selection)
  : result selection :=
  match files with
  | [] => Ok s
  | _ => select (List.filter is_supported_format files) s
  end.

(** [walk] is what [os.walk(folder)] yields: each directory with the
    names of its files. *)
Definition _select_folder (folder : string)
    (walk : list (string * list string)) (s : selection)
  : result selection :=
  if String.eqb folder EmptyString then Ok s
  else
    select
      (flat_map
         (fun '(root, files) =>
            List.filter is_supported_format (map (OsPath.join root) files))
         walk) s.

Definition _clear_selection (s : selection) : result selection :=
  Ok (Selection [] (current_preview_index s) "0 archivos seleccionados"
        EmptyString).

Definition _prev_preview (s : selection) : result selection :=
  match input_files s with
  | [] => Ok s
  | _ =>
      if 0 <? current_preview_index s then
        _update_preview
          (Selection (input_files s) (current_preview_index s - 1)
             (files_label s) (preview_index_label s))
      else Ok s
  end.

Definition _next_preview (s : selection) : result selection :=
  match input_files s with
  | [] => Ok s
  | _ =>
      if current_preview_index s <? Z.of_nat (length (input_files s)) - 1 then
        _update_preview
          (Selection (input_files s) (current_preview_index s + 1)
             (files_label s) (preview_index_label s))
      else Ok s
  end.

(** What the user can do to the selection. *)
Inductive event :=
| Drop (data : string)
| SelectFiles (files : list string)
| SelectFolder (folder : string) (walk : list (string * list string))
| ClearSelection
| PrevPreview
| NextPreview
| Refresh.   (* a radio button or the check box: [_update_preview] *)

Definition handle (e : event) (s : selection) : result selection :=
  match e with
  | Drop data => _drop data s
  | SelectFiles files => _select_files files s
  | SelectFolder folder walk => _select_folder folder walk s
  | ClearSelection => _clear_selection s
  | PrevPreview => _prev_preview s
  | NextPreview => _next_preview s
  | Refresh => _update_preview s
  end.

(** An exception in a handler ends the run. *)
Fixpoint run (events : list event) (s : selection) : result selection :=
  match events with
  | [] => Ok s
  | e :: rest => result_bind (handle e s) (run rest)
  end.

(** What the handlers keep true of the selection: only supported files,
    an index inside the list, and labels that say what is selected. *)
Definition consistent (s : selection) : Prop :=
  Forall (fun f => is_supported_format f = true) (input_files s) /\
  (input_files s <> [] ->
   0 <= current_preview_index s < Z.of_nat (length (input_files s))) /\
  files_label s = count_label (length (input_files s)) /\
  preview_index_label s
  = match input_files s with
    | [] => EmptyString
    | _ => index_label (current_preview_index s) (length (input_files s))
    end.

(** *** The preview thumbnail (lines 484-493 and 520-528) *)

(** [min(a, b)] on two floats. *)
Definition py_min (a b : float) : float := if PrimFloat.ltb b a then b else a.

(** The size of [img_preview]. *)
Definition preview_size (img_size : Z * Z) : result (Z * Z) :=
  let '(img_width, img_height) := img_size in
  let max_size := 300 in
  if (max_size <? img_width) || (max_size <? img_height) then
    result_bind (int_truediv max_size img_width) (fun r1 =>
    result_bind (int_truediv max_size img_height) (fun r2 =>
    let ratio := py_min r1 r2 in
    result_bind (int_of_float (int_mul_float img_width ratio))
      (fun new_width =>
    result_bind (int_of_float (int_mul_float img_height ratio))
      (fun new_height =>
    Ok (new_width, new_height)))))
  else Ok (img_width, img_height).

(** *** The worker of [_process_images] (lines 571-616) *)

(** What [update_progress] keeps: the counter and the status text. *)
Record progress := Progress {
  processed_count : Z;
  status_var : string
}.

Section Worker.
Variable convert_data : image -> string -> Z -> Z -> color.
Variable lanczos : image -> Z * Z -> Z -> Z -> color.

(** [f"{progress:.1f}"], Python's formatting of a float. *)
Variable format_1f : float -> string.

(** [update_progress]; the state is an exception once the callback has
    raised one (which would end the batch; it does not happen, see
    [progress_counts]). *)
Definition update_progress (total_count : Z)
    (input_file : string) (ok : bool) (message : string)
    (st : result progress) : result progress :=
  result_bind st (fun p =>
  let count := processed_count p + 1 in
  result_bind (int_truediv count total_count) (fun q =>
  let pct := PrimFloat.mul q (float_of_int 100) in
  Ok (Progress count
        ("Procesando... (" +:+ str_of_int count +:+ "/"
         +:+ str_of_int total_count +:+ ") - " +:+ format_1f pct +:+ "%")))).

(** [process_thread]: the batch, then the new history entry, saved,
    and the closing status text.  [files_] is [self.input_files] when
    the button is pressed and the thread starts; the window stays live
    while the thread runs, so what the thread reads again on lines 598
    and 608 is given apart, as [files_entry] and [files_status]. *)
Definition process_thread
    (files_ files_entry files_status : list string)
    (batch_dir image_type : string)
    (maintain_aspect : bool) (timestamp_ date_ : string)
    (history : list history_entry) (writable : bool)
    (file : history_file) (w : world)
  : option (list outcome * list history_entry * history_file * world
            * result progress * string) :=
  let total_count := Z.of_nat (length files_) in
  match batch_process convert_data lanczos (result progress)
          (Some (update_progress total_count))
          files_ batch_dir image_type maintain_aspect
          (w, Ok (Progress 0 EmptyString)) with
  | None => None
  | Some (results, (w', st)) =>
      let history_entry_ :=
        Entry timestamp_ date_ image_type
              (Z.of_nat (length files_entry))
              (success_count results) batch_dir in
      let history' := (history ++ [history_entry_])%list in
      Some (results, history', _save_history history' writable file, w',
            st,
            "Completado: " +:+ str_of_int (success_count results)
            +:+ " de " +:+ str_of_int (Z.of_nat (length files_status))
            +:+ " imágenes procesadas correctamente.")
  end.
End Worker.
End App.

(** ** More of the sample machine: a shelf, a history, a counter *)
Module Desk.
Import PIL App.

(** A cover that has the size of its type already. *)
Definition cover : image :=
  Image "RGB" (140, 200) (fun x y => [x; y; 0]).

Definition shelf : world :=
  World {[ "in/cover.png" := Raster cover ]} ∅ [].

(** Two batches, the second of another type in the same second. *)
Definition first_entry : history_entry :=
  Entry "20240101_120000" "01/01/2024 12:00" "caratula" 3 2
        "out/caratula_20240101_120000".

Definition second_entry : history_entry :=
  Entry "20240309_181500" "09/03/2024 18:15" "disco" 1 1 "out".

Definition same_second_entry : history_entry :=
  Entry "20240101_120000" "01/01/2024 12:00" "disco" 1 1 "out".

Definition barred_entry : history_entry :=
  Entry "20240101_120000" "01/01/2024 12:00" "logo" 4 4
        "a|b/logo_20240101_120000".

(** A callback that counts its calls. *)
Definition count_calls : option (string -> bool -> string -> nat -> nat) :=
  Some (fun _ _ _ n => S n).

End Desk.
(** * Sanity checks of the runtime model *)

Example splitext_cover : OsPath.splitext "roms/Cover.PNG" = ("roms/Cover", ".PNG").
Proof. reflexivity. Qed.

Example splitext_dotfile : OsPath.splitext "roms/.png" = ("roms/.png", "").
Proof. reflexivity. Qed.

Example splitext_dir_dot : OsPath.splitext "a.b/readme" = ("a.b/readme", "").
Proof. reflexivity. Qed.

Example basename_photo : OsPath.basename "a/b/photo.png" = "photo.png".
Proof. reflexivity. Qed.

Example join_plain : OsPath.join "out" "x.png" = "out/x.png".
Proof. reflexivity. Qed.

Example str_of_int_12 : PyStr.str_of_int 12 = "12".
Proof. reflexivity. Qed.

Example truediv_1920_1080 :
  result_bind (PyNum.int_truediv 1920 1080) (fun a =>
  result_bind (PyNum.int_div_float 140 a) (fun x =>
  result_bind (PyNum.int_of_float x) (fun t =>
  result_bind (PyNum.round x) (fun r => Ok (t, r))))) = Ok (78, 79).
Proof. vm_compute. reflexivity. Qed.

Example int_of_float_neg :
  PyNum.int_of_float (PrimFloat.div (PyNum.float_of_int (-7)) (PyNum.float_of_int 2)) = Ok (-3).
Proof. vm_compute. reflexivity. Qed.

Example round_half_even :
  (PyNum.round (PrimFloat.div (PyNum.float_of_int 5) (PyNum.float_of_int 2)),
   PyNum.round (PrimFloat.div (PyNum.float_of_int 7) (PyNum.float_of_int 2)))
  = (Ok 2, Ok 4).
Proof. vm_compute. reflexivity. Qed.

Example gate_examples :
  (ImageProcessor.is_supported_format "x.TiFf",
   ImageProcessor.is_supported_format "logo.svg",
   ImageProcessor.is_supported_format "notes.txt",
   ImageProcessor.is_supported_format ".png")
  = (true, false, false, false).
Proof. vm_compute. reflexivity. Qed.

Example thin_source_has_no_height :
  ImageProcessor.scaled_size (100000, 1) (140, 200) = Ok (140, 0).
Proof. vm_compute. reflexivity. Qed.

Example thin_source_fails :
  fst (ImageProcessor.convert_resize_image Sample.first_bands Sample.nearest
         "in/strip.png" "out/strip.png" "caratula" true
         (PIL.World {[ "in/strip.png" :=
                         PIL.Raster (PIL.Image "RGB" (100000, 1)
                                       (fun _ _ => [1; 2; 3])) ]} ∅ []))
  = (false, "height and width must be > 0").
Proof. vm_compute. reflexivity. Qed.

(** * The dimension table *)

Section Table.
Import PyStr PyNum PIL ImageProcessor.

Lemma DIMENSIONS_entries image_type d :
  DIMENSIONS !! image_type = Some d ->
  (image_type, d) ∈
    [ ("caratula", (140, 200)); ("borde", (18, 240));
      ("contracaratula", (242, 344)); ("captura", (250, 168));
      ("fondo", (640, 480)); ("disco", (128, 128)); ("logo", (300, 125)) ].
Proof.
  unfold DIMENSIONS. intros H. now apply elem_of_list_to_map_2 in H.
Qed.

Lemma DIMENSIONS_positive image_type target_width target_height :
  DIMENSIONS !! image_type = Some (target_width, target_height) ->
  0 < target_width /\ 0 < target_height.
Proof.
  intros H%DIMENSIONS_entries.
  repeat (apply elem_of_cons in H as [H | H]; [inversion H; lia |]).
  now apply elem_of_nil in H.
Qed.

Lemma zero_test_key image_type target_width target_height :
  DIMENSIONS !! image_type = Some (target_width, target_height) ->
  (target_width =? 0) || (target_height =? 0) = false.
Proof.
  intros H%DIMENSIONS_positive. apply orb_false_iff. lia.
Qed.

Variable convert_data : image -> string -> Z -> Z -> color.
Variable lanczos : image -> Z * Z -> Z -> Z -> color.

(** The exceptions of the arithmetic and of Pillow are not the one of
    line 48. *)
Lemma scaled_size_exn img_size target e msg :
  scaled_size img_size target = Raise e ->
  e <> Exn "ValueError" ("Tipo de imagen no válido: " +:+ msg).
Proof.
  destruct img_size as [iw ih], target as [tw th].
  unfold scaled_size, int_truediv, int_div_float, int_of_float, result_bind.
  intros H ->. repeat case_match; simplify_eq.
Qed.

Lemma Image_resize_exn img sz e msg :
  Image_resize lanczos img sz = Raise e ->
  e <> Exn "ValueError" ("Tipo de imagen no válido: " +:+ msg).
Proof.
  unfold Image_resize. intros H ->. repeat case_match; simplify_eq.
Qed.

Lemma letterbox_exn img target e msg :
  letterbox lanczos img target = Raise e ->
  e <> Exn "ValueError" ("Tipo de imagen no válido: " +:+ msg).
Proof.
  unfold letterbox, result_bind. intros H.
  destruct (scaled_size (size img) target) as [ns|e1] eqn:E1.
  - destruct (Image_resize lanczos img ns) as [r|e2] eqn:E2; simplify_eq.
    eapply Image_resize_exn; eauto.
  - simplify_eq. eapply scaled_size_exn; eauto.
Qed.

Lemma Image_save_exn img path w e w' msg :
  Image_save img path w = (Raise e, w') ->
  e <> Exn "ValueError" ("Tipo de imagen no válido: " +:+ msg).
Proof.
  unfold Image_save. intros H ->. repeat case_match; simplify_eq.
Qed.

(** C10: every entry of the table has two strictly positive sides, so the
    zero test applied to [DIMENSIONS.get(image_type, (0, 0))] fires exactly
    for the types that are not keys; on an input that decodes,
    [convert_resize_image] raises its invalid-type [ValueError] exactly
    for those types. *)
Theorem asset_type_accepted_iff_key image_type :
  (forall target_width target_height,
      DIMENSIONS !! image_type = Some (target_width, target_height) ->
      0 < target_width /\ 0 < target_height) /\
  ((let '(target_width, target_height) :=
      default (0, 0) (DIMENSIONS !! image_type) in
    (target_width =? 0) || (target_height =? 0)) = false
   <-> is_Some (DIMENSIONS !! image_type)) /\
  (forall input_path output_path maintain_aspect w im,
      files w !! input_path = Some (Raster im) ->
      fst (convert_resize_image_try convert_data lanczos input_path
             output_path image_type maintain_aspect w)
      = Raise (Exn "ValueError" ("Tipo de imagen no válido: " +:+ image_type))
      <-> DIMENSIONS !! image_type = None).
Proof.
  split; [apply DIMENSIONS_positive|]. split.
  - destruct (DIMENSIONS !! image_type) as [[tw th]|] eqn:E; simpl.
    + rewrite (zero_test_key _ _ _ E). split; eauto.
    + split; [discriminate | intros [? ?]; discriminate].
  - intros input_path output_path maintain_aspect w im Him.
    unfold convert_resize_image_try, Image_open. rewrite Him.
    destruct (DIMENSIONS !! image_type) as [[tw th]|] eqn:E; simpl.
    + rewrite (zero_test_key _ _ _ E). split; [|discriminate].
      intros H. exfalso.
      set (img := as_rgb convert_data im) in H.
      destruct maintain_aspect.
      * destruct (letterbox lanczos img (tw, th)) as [r|e] eqn:El.
        -- destruct (Image_save r output_path _) as [[u|e] w2] eqn:Es;
             simpl in H; [discriminate|].
           injection H as ->. eapply Image_save_exn; eauto.
        -- simpl in H. injection H as ->. eapply letterbox_exn; eauto.
      * destruct (Image_resize lanczos img (tw, th)) as [r|e] eqn:El.
        -- destruct (Image_save r output_path _) as [[u|e] w2] eqn:Es;
             simpl in H; [discriminate|].
           injection H as ->. eapply Image_save_exn; eauto.
        -- simpl in H. injection H as ->. eapply Image_resize_exn; eauto.
    + tauto.
Qed.
End Table.

(** * The format gate *)

Section StringFacts.
Import PyStr.

Lemma append_nil_l s : EmptyString +:+ s = s.
Proof. reflexivity. Qed.

Lemma append_cons a s1 s2 : String a s1 +:+ s2 = String a (s1 +:+ s2).
Proof. reflexivity. Qed.

Lemma length_append s1 s2 :
  String.length (s1 +:+ s2) = (String.length s1 + String.length s2)%nat.
Proof.
  induction s1 as [|a s1 IH]; [reflexivity|].
  rewrite append_cons. simpl. now rewrite IH.
Qed.

Lemma append_assoc s1 s2 s3 : s1 +:+ s2 +:+ s3 = (s1 +:+ s2) +:+ s3.
Proof.
  induction s1 as [|a s1 IH]; [reflexivity|].
  rewrite !append_cons. now rewrite IH.
Qed.

Lemma rfind_from_rindex c s : forall i acc,
  rfind_from c s i acc
  = from_option (fun k => i + Z.of_nat k) acc (rindex c s).
Proof.
  induction s as [|a s IH]; intros i acc; simpl; [reflexivity|].
  rewrite IH. destruct (rindex c s) as [k|]; simpl.
  - lia.
  - destruct (Ascii.eqb a c); simpl; lia.
Qed.

Lemma rfind_rindex s c :
  rfind s c = from_option Z.of_nat (-1) (rindex c s).
Proof.
  unfold rfind. rewrite rfind_from_rindex.
  now destruct (rindex c s).
Qed.

Lemma rindex_lt c s k : rindex c s = Some k -> (k < String.length s)%nat.
Proof.
  revert k. induction s as [|a s IH]; intros k; simpl; [discriminate|].
  destruct (rindex c s) as [j|].
  - intros [= <-]. specialize (IH j eq_refl). lia.
  - destruct (Ascii.eqb a c); [intros [= <-]; lia | discriminate].
Qed.

Lemma rindex_app c s1 s2 :
  rindex c (s1 +:+ s2)
  = match rindex c s2 with
    | Some k => Some (String.length s1 + k)%nat
    | None => rindex c s1
    end.
Proof.
  induction s1 as [|a s1 IH].
  - rewrite append_nil_l. now destruct (rindex c s2).
  - rewrite append_cons. simpl. rewrite IH. now destruct (rindex c s2).
Qed.

(** A string splits around its last [c]. *)
Lemma rindex_split c s k :
  rindex c s = Some k ->
  exists s1 s2, s = s1 +:+ String c s2 /\ String.length s1 = k /\
                rindex c s2 = None.
Proof.
  revert k. induction s as [|a s IH]; intros k; simpl; [discriminate|].
  destruct (rindex c s) as [j|] eqn:E.
  - intros [= <-]. destruct (IH j eq_refl) as (s1 & s2 & -> & <- & Hn).
    exists (String a s1), s2. auto.
  - destruct (Ascii.eqb_spec a c) as [->|]; [|discriminate].
    intros [= <-]. exists EmptyString, s. auto.
Qed.

Lemma drop_app_length pre s j :
  drop (String.length pre + j) (pre +:+ s) = drop j s.
Proof.
  induction pre as [|a pre IH]; [reflexivity|].
  rewrite append_cons. simpl. exact IH.
Qed.

Lemma take_app_length pre s j :
  take (String.length pre + j) (pre +:+ s) = pre +:+ take j s.
Proof.
  induction pre as [|a pre IH]; [reflexivity|].
  rewrite !append_cons. simpl. now rewrite IH.
Qed.

Lemma slice_from_app pre s j :
  0 <= j ->
  slice_from (pre +:+ s) (Z.of_nat (String.length pre) + j) = slice_from s j.
Proof.
  intros Hj. unfold slice_from.
  replace (Z.to_nat (Z.of_nat (String.length pre) + j))
    with (String.length pre + Z.to_nat j)%nat by lia.
  apply drop_app_length.
Qed.

Lemma slice_to_app pre s j :
  0 <= j ->
  slice_to (pre +:+ s) (Z.of_nat (String.length pre) + j)
  = pre +:+ slice_to s j.
Proof.
  intros Hj. unfold slice_to.
  replace (Z.to_nat (Z.of_nat (String.length pre) + j))
    with (String.length pre + Z.to_nat j)%nat by lia.
  apply take_app_length.
Qed.

Lemma splitext_scan_app pre s dotIndex n :
  Z.of_nat n <= dotIndex ->
  OsPath.splitext_scan (pre +:+ s)
    (Z.of_nat (String.length pre) + dotIndex) n
  = prod_map (String.append pre) Datatypes.id <$> OsPath.splitext_scan s dotIndex n.
Proof.
  induction n as [|n IH]; intros Hn; [reflexivity|].
  cbn [OsPath.splitext_scan]. unfold slice1.
  replace (Z.of_nat (String.length pre) + dotIndex - Z.of_nat (S n))
    with (Z.of_nat (String.length pre) + (dotIndex - Z.of_nat (S n))) by lia.
  rewrite slice_from_app by lia.
  destruct (negb _).
  - simpl. rewrite slice_from_app, slice_to_app by lia. reflexivity.
  - apply IH. lia.
Qed.

(** The extension is found in the last component alone. *)
Lemma splitext_ext_prefix d name :
  rindex OsPath.sep name = None ->
  snd (OsPath.splitext (d +:+ String OsPath.sep name))
  = snd (OsPath.splitext name).
Proof.
  intros Hsep. unfold OsPath.splitext.
  rewrite !rfind_rindex, Hsep.
  change (String OsPath.sep name)
    with (String OsPath.sep EmptyString +:+ name).
  rewrite !rindex_app, Hsep. cbn [rindex Ascii.eqb].
  change (Ascii.eqb OsPath.sep OsPath.sep) with true.
  change (Ascii.eqb OsPath.sep OsPath.extsep) with false.
  cbn [from_option String.length]. rewrite Nat.add_0_r.
  destruct (rindex OsPath.extsep name) as [k|] eqn:Edot; cbn [from_option].
  - rewrite append_assoc.
    set (pre := d +:+ String OsPath.sep EmptyString).
    assert (Hlen : String.length pre = (String.length d + 1)%nat).
    { unfold pre. rewrite length_append. reflexivity. }
    replace (Z.of_nat (String.length d) <? Z.of_nat (String.length d + (1 + k))%nat)
      with true by (symmetry; apply Z.ltb_lt; lia).
    replace (-1 <? Z.of_nat k) with true by (symmetry; apply Z.ltb_lt; lia).
    replace (Z.of_nat (String.length d + (1 + k))%nat)
      with (Z.of_nat (String.length pre) + Z.of_nat k) by lia.
    replace (Z.to_nat (Z.of_nat (String.length pre) + Z.of_nat k
                       - (Z.of_nat (String.length d) + 1))) with k by lia.
    replace (Z.to_nat (Z.of_nat k - (-1 + 1))) with k by lia.
    rewrite splitext_scan_app by lia.
    now destruct (OsPath.splitext_scan name (Z.of_nat k) k) as [[r e]|].
  - replace (-1 <? -1) with false by reflexivity.
    destruct (rindex OsPath.extsep d) as [j|] eqn:Ed; cbn [from_option].
    + apply rindex_lt in Ed.
      replace (Z.of_nat (String.length d) <? Z.of_nat j)
        with false by (symmetry; apply Z.ltb_ge; lia).
      reflexivity.
    + replace (Z.of_nat (String.length d) <? -1)
        with false by (symmetry; apply Z.ltb_ge; lia).
      reflexivity.
Qed.

Lemma basename_split p :
  p = OsPath.basename p \/
  exists d, p = d +:+ String OsPath.sep (OsPath.basename p).
Proof.
  unfold OsPath.basename. rewrite rfind_rindex.
  destruct (rindex OsPath.sep p) as [k|] eqn:E; cbn [from_option].
  - right. destruct (rindex_split _ _ _ E) as (s1 & s2 & -> & <- & _).
    exists s1. f_equal.
    change (String OsPath.sep s2)
      with (String OsPath.sep EmptyString +:+ s2).
    rewrite append_assoc.
    replace (Z.of_nat (String.length s1) + 1)
      with (Z.of_nat (String.length (s1 +:+ String OsPath.sep EmptyString)) + 0).
    + rewrite slice_from_app by lia. reflexivity.
    + rewrite length_append. simpl. lia.
  - left. reflexivity.
Qed.

Lemma basename_no_sep p : rindex OsPath.sep (OsPath.basename p) = None.
Proof.
  unfold OsPath.basename. rewrite rfind_rindex.
  destruct (rindex OsPath.sep p) as [k|] eqn:E; cbn [from_option].
  - destruct (rindex_split _ _ _ E) as (s1 & s2 & -> & <- & Hn).
    change (String OsPath.sep s2)
      with (String OsPath.sep EmptyString +:+ s2).
    rewrite append_assoc.
    replace (Z.of_nat (String.length s1) + 1)
      with (Z.of_nat (String.length (s1 +:+ String OsPath.sep EmptyString)) + 0).
    + rewrite slice_from_app by lia. exact Hn.
    + rewrite length_append. simpl. lia.
  - exact E.
Qed.
End StringFacts.

Section Gate.
Import PyStr ImageProcessor.

(** C6: [is_supported_format] holds exactly when the extension
    [os.path.splitext] finds, lower-cased, is a dot followed by one of
    jpg, jpeg, png, bmp, webp, tiff, gif; it is a total boolean function
    of the path string, and of its last component only. *)
Theorem is_supported_format_spec file_path :
  (is_supported_format file_path = true <->
   exists e, e ∈ ["jpg"; "jpeg"; "png"; "bmp"; "webp"; "tiff"; "gif"] /\
             lower (snd (OsPath.splitext file_path)) = "." +:+ e) /\
  (is_supported_format file_path = false <->
   forall e, e ∈ ["jpg"; "jpeg"; "png"; "bmp"; "webp"; "tiff"; "gif"] ->
             lower (snd (OsPath.splitext file_path)) <> "." +:+ e) /\
  is_supported_format file_path
  = is_supported_format (OsPath.basename file_path).
Proof.
  assert (Hiff : is_supported_format file_path = true <->
   exists e, e ∈ ["jpg"; "jpeg"; "png"; "bmp"; "webp"; "tiff"; "gif"] /\
             lower (snd (OsPath.splitext file_path)) = "." +:+ e).
  { unfold is_supported_format, SUPPORTED_FORMATS.
    rewrite bool_decide_eq_true. split.
    - intros H.
      repeat (apply elem_of_cons in H as [H | H];
              [rewrite H; eexists; split; [|reflexivity]; set_solver |]).
      now apply elem_of_nil in H.
    - intros (e & He & ->).
      repeat (apply elem_of_cons in He as [-> | He]; [set_solver |]).
      now apply elem_of_nil in He. }
  split; [exact Hiff|]. split.
  - rewrite <- not_true_iff_false, Hiff. split.
    + intros Hn e He Heq. apply Hn. eauto.
    + intros Hn (e & He & Heq). eapply Hn; eauto.
  - unfold is_supported_format.
    destruct (basename_split file_path) as [H | [d H]].
    + now rewrite <- H.
    + pose proof (basename_no_sep file_path) as Hsep.
      set (b := OsPath.basename file_path) in *. clearbody b. subst file_path.
      now rewrite splitext_ext_prefix.
Qed.
End Gate.

(** * [convert_resize_image] *)

Section Convert.
Import PyStr PyNum PIL ImageProcessor.

Variable convert_data : image -> string -> Z -> Z -> color.
Variable lanczos : image -> Z * Z -> Z -> Z -> color.

Local Abbreviation convert := (convert_resize_image convert_data lanczos).
Local Abbreviation convert_try := (convert_resize_image_try convert_data lanczos).

Lemma as_rgb_mode im : mode (as_rgb convert_data im) = "RGB".
Proof.
  unfold as_rgb. destruct (String.eqb_spec (mode im) "RGB") as [E|E]; simpl; auto.
Qed.

Lemma as_rgb_size im : size (as_rgb convert_data im) = size im.
Proof. unfold as_rgb. now destruct (negb _). Qed.

Lemma size_eqb_eq a b : size_eqb a b = true -> a = b.
Proof.
  destruct a, b. unfold size_eqb. simpl. intros H.
  apply andb_true_iff in H as [H1 H2]. f_equal; lia.
Qed.

Lemma Image_resize_ok im sz r :
  Image_resize lanczos im sz = Ok r -> size r = sz /\ mode r = mode im.
Proof.
  unfold Image_resize. destruct (size_eqb (size im) sz) eqn:E.
  - intros [= <-]. split; [now apply size_eqb_eq | reflexivity].
  - destruct (_ || _); [discriminate|]. now intros [= <-].
Qed.

Lemma letterbox_ok im target r :
  letterbox lanczos im target = Ok r ->
  exists new_size resized_img,
    scaled_size (size im) target = Ok new_size /\
    Image_resize lanczos im new_size = Ok resized_img /\
    r = Image_paste (Image_new "RGB" target black) resized_img
          (paste_origin target new_size).
Proof.
  unfold letterbox, result_bind.
  destruct (scaled_size (size im) target) as [ns|]; [|discriminate].
  destruct (Image_resize lanczos im ns) as [ri|] eqn:E; [|discriminate].
  intros [= <-]. exists ns, ri. repeat split; auto.
Qed.

Lemma Image_paste_size canvas im box :
  size (Image_paste canvas im box) = size canvas /\
  mode (Image_paste canvas im box) = mode canvas.
Proof. now destruct box. Qed.

(** What a [True] result tells about the run. *)
Lemma convert_success input_path output_path image_type maintain_aspect
      w w' msg :
  convert input_path output_path image_type maintain_aspect w
  = ((true, msg), w') ->
  exists im target out_img,
    files w !! input_path = Some (Raster im) /\
    DIMENSIONS !! image_type = Some target /\
    (if maintain_aspect then letterbox lanczos (as_rgb convert_data im) target
     else Image_resize lanczos (as_rgb convert_data im) target) = Ok out_img /\
    msg = output_path /\
    (output_path ∉ denied w) /\
    files w !! output_path <> Some Dir /\
    w' = World (<[output_path := Raster out_img]> (files w)) (denied w)
           (opened w ++ [input_path]).
Proof.
  unfold convert_resize_image, convert_resize_image_try, Image_open.
  destruct (files w !! input_path) as [[im| |]|] eqn:Ein;
    try (intros [=]; fail).
  destruct (DIMENSIONS !! image_type) as [[tw th]|] eqn:Ety; simpl;
    [|intros [=]].
  rewrite (zero_test_key _ _ _ Ety).
  set (resized := if maintain_aspect then _ else _).
  destruct resized as [out_img|e] eqn:Er; [|intros [=]].
  unfold Image_save. simpl.
  intros H. exists im, (tw, th), out_img.
  destruct (files w !! output_path) as [[| |]|] eqn:Eout;
    try (discriminate H);
    (destruct (bool_decide (output_path ∈ denied w)) eqn:Ed;
     [discriminate H|]);
    apply bool_decide_eq_false in Ed;
    injection H as <- <-; repeat split; auto; congruence.
Qed.

(** What a [False] result leaves behind: the disk is as it was. *)
Lemma convert_failure input_path output_path image_type maintain_aspect
      w w' msg :
  convert input_path output_path image_type maintain_aspect w
  = ((false, msg), w') ->
  w' = World (files w) (denied w) (opened w ++ [input_path]).
Proof.
  unfold convert_resize_image, convert_resize_image_try, Image_open, Image_save.
  intros H. repeat case_match; simplify_eq; reflexivity.
Qed.

Lemma convert_opened input_path output_path image_type maintain_aspect w :
  opened (snd (convert input_path output_path image_type maintain_aspect w))
  = (opened w ++ [input_path])%list /\
  denied (snd (convert input_path output_path image_type maintain_aspect w))
  = denied w.
Proof.
  destruct (convert _ _ _ _ w) as [[[|] msg] w'] eqn:E.
  - apply convert_success in E as (?&?&?&?&?&?&?&?&?&->). auto.
  - apply convert_failure in E as ->. auto.
Qed.

(** C1: a [True] result means that [output_path] now holds an RGB image
    whose size is the table's entry for [image_type], whatever
    [maintain_aspect] and the size of the source are. *)
Theorem success_output_has_table_size
    input_path output_path image_type maintain_aspect w w' msg :
  convert input_path output_path image_type maintain_aspect w
  = ((true, msg), w') ->
  exists target_width target_height out_img,
    DIMENSIONS !! image_type = Some (target_width, target_height) /\
    msg = output_path /\
    files w' !! output_path = Some (Raster out_img) /\
    size out_img = (target_width, target_height) /\
    mode out_img = "RGB".
Proof.
  intros (im & [tw th] & out_img & Hin & Hty & Hres & -> & _ & _ & ->)
    %convert_success.
  exists tw, th, out_img. repeat split; auto.
  - simpl. apply lookup_insert_eq.
  - destruct maintain_aspect.
    + apply letterbox_ok in Hres as (ns & ri & _ & _ & ->).
      now rewrite (proj1 (Image_paste_size _ _ _)).
    + now apply Image_resize_ok in Hres.
  - destruct maintain_aspect.
    + apply letterbox_ok in Hres as (ns & ri & _ & _ & ->).
      now rewrite (proj2 (Image_paste_size _ _ _)).
    + apply Image_resize_ok in Hres as [_ ->]. apply as_rgb_mode.
Qed.


(** C5: the call always returns a pair; whatever the [try] block raises
    comes back as [(False, str(e))]; an [image_type] outside the table, an
    input that is missing or does not decode, and a refused write all give
    [False]. *)
Theorem convert_never_raises
    input_path output_path image_type maintain_aspect w :
  (exists ok msg w',
      convert input_path output_path image_type maintain_aspect w
      = ((ok, msg), w')) /\
  (forall e w',
      convert_try input_path output_path image_type maintain_aspect w
      = (Raise e, w') ->
      convert input_path output_path image_type maintain_aspect w
      = ((false, exn_msg e), w')) /\
  (DIMENSIONS !! image_type = None ->
   fst (fst (convert input_path output_path image_type maintain_aspect w))
   = false) /\
  ((forall im, files w !! input_path <> Some (Raster im)) ->
   fst (fst (convert input_path output_path image_type maintain_aspect w))
   = false) /\
  (output_path ∈ denied w ->
   fst (fst (convert input_path output_path image_type maintain_aspect w))
   = false).
Proof.
  split; [|split; [|split; [|split]]].
  - destruct (convert _ _ _ _ w) as [[ok msg] w']. eauto.
  - intros e w' H. unfold convert_resize_image. now rewrite H.
  - intros Hty.
    destruct (convert _ _ _ _ w) as [[[|] msg] w'] eqn:E; [|reflexivity].
    apply convert_success in E as (?&?&?&?&?&?&?). congruence.
  - intros Hin.
    destruct (convert _ _ _ _ w) as [[[|] msg] w'] eqn:E; [|reflexivity].
    apply convert_success in E as (im&?&?&?&?). now destruct (Hin im).
  - intros Hd.
    destruct (convert _ _ _ _ w) as [[[|] msg] w'] eqn:E; [|reflexivity].
    apply convert_success in E as (?&?&?&?&?&?&?&?&?&?). tauto.
Qed.
End Convert.

(** * Output names *)

Section Names.
Import PyStr PyNum PIL ImageProcessor.

Lemma append_inv_head s a b : s +:+ a = s +:+ b -> a = b.
Proof.
  induction s as [|c s IH]; [auto|].
  rewrite !append_cons. intros [= H]. auto.
Qed.

Lemma append_inv_tail t : forall s1 s2, s1 +:+ t = s2 +:+ t -> s1 = s2.
Proof.
  induction s1 as [|c s1 IH]; intros [|d s2] H.
  - reflexivity.
  - apply (f_equal String.length) in H.
    rewrite append_cons, append_nil_l in H. simpl in H.
    rewrite length_append in H. lia.
  - apply (f_equal String.length) in H.
    rewrite append_cons, append_nil_l in H. simpl in H.
    rewrite length_append in H. lia.
  - rewrite !append_cons in H. injection H as -> H. f_equal. auto.
Qed.

Lemma startswith_append a s t c :
  startswith (String a s +:+ t) c = startswith (String a s) c.
Proof. reflexivity. Qed.

Lemma join_inj d b1 b2 :
  startswith b1 OsPath.sep = startswith b2 OsPath.sep ->
  OsPath.join d b1 = OsPath.join d b2 -> b1 = b2.
Proof.
  unfold OsPath.join. intros <-.
  destruct (startswith b1 OsPath.sep); [auto|].
  destruct (_ || _).
  - apply append_inv_head.
  - intros H. now do 2 apply append_inv_head in H.
Qed.

Lemma output_names_startswith base ty k c :
  startswith (output_name base ty) c
  = startswith (output_name_n base ty k) c.
Proof. unfold output_name, output_name_n. now destruct base. Qed.

Lemma output_name_n_inj base ty k1 k2 :
  output_name_n base ty k1 = output_name_n base ty k2 -> k1 = k2.
Proof.
  unfold output_name_n, str_of_int. intros H.
  do 4 apply append_inv_head in H.
  apply append_inv_tail in H. now apply (inj pretty) in H.
Qed.

Lemma output_name_ne base ty k :
  output_name base ty <> output_name_n base ty k.
Proof.
  unfold output_name, output_name_n. intros H.
  do 3 apply append_inv_head in H. discriminate H.
Qed.

Lemma candidate_inj d base ty k1 k2 :
  candidate d base ty k1 = candidate d base ty k2 -> k1 = k2.
Proof.
  unfold candidate. intros H.
  destruct (Z.eqb_spec k1 0) as [E1|H1], (Z.eqb_spec k2 0) as [E2|H2];
    [congruence| | |].
  - apply join_inj in H; [|apply output_names_startswith].
    now apply output_name_ne in H.
  - apply join_inj in H;
      [|symmetry; apply output_names_startswith].
    symmetry in H. now apply output_name_ne in H.
  - apply join_inj in H; [now apply output_name_n_inj in H|].
    now rewrite <- !(output_names_startswith base ty).
Qed.

Lemma free_path_candidate d base ty k :
  1 <= k ->
  OsPath.join d (output_name_n base ty k) = candidate d base ty k.
Proof.
  intros Hk. unfold candidate.
  now destruct (Z.eqb_spec k 0) as [->|_]; [lia|].
Qed.

(** The loop returns the first candidate that is not on disk. *)
Lemma free_path_some fuel w d base ty : forall counter p,
  1 <= counter ->
  free_path fuel w d base ty (candidate d base ty (counter - 1)) counter
  = Some p ->
  exists k, counter - 1 <= k /\ p = candidate d base ty k /\
            path_exists p w = false /\
            forall j, counter - 1 <= j < k ->
                      path_exists (candidate d base ty j) w = true.
Proof.
  induction fuel as [|fuel IH]; intros counter p Hc; simpl; [discriminate|].
  destruct (path_exists (candidate d base ty (counter - 1)) w) eqn:E.
  - rewrite free_path_candidate by lia.
    replace counter with (counter + 1 - 1) at 1 by lia.
    intros (k & Hk & -> & Hfree & Hlow)%IH; [|lia].
    exists k. repeat split; auto; try lia.
    intros j Hj. destruct (Z.eq_dec j (counter - 1)) as [->|]; [exact E|].
    apply Hlow. lia.
  - intros [= <-]. exists (counter - 1). repeat split; auto; lia.
Qed.

(** When the loop uses up its fuel, every candidate it looked at exists. *)
Lemma free_path_none fuel w d base ty : forall counter,
  1 <= counter ->
  free_path fuel w d base ty (candidate d base ty (counter - 1)) counter
  = None ->
  forall j, counter - 1 <= j < counter - 1 + Z.of_nat fuel ->
            path_exists (candidate d base ty j) w = true.
Proof.
  induction fuel as [|fuel IH]; intros counter Hc; simpl; [lia|].
  destruct (path_exists (candidate d base ty (counter - 1)) w) eqn:E;
    [|discriminate].
  rewrite free_path_candidate by lia.
  replace counter with (counter + 1 - 1) at 1 by lia.
  intros H j Hj. destruct (Z.eq_dec j (counter - 1)) as [->|]; [exact E|].
  apply (IH (counter + 1)); [lia|exact H|lia].
Qed.

(** No more names than entries can be on disk. *)
Lemma candidates_bounded w d base ty n :
  (forall j, 0 <= j < Z.of_nat n ->
             path_exists (candidate d base ty j) w = true) ->
  (n <= base.size (files w))%nat.
Proof.
  intros Hall.
  set (l := (fun i => candidate d base ty (Z.of_nat i)) <$> seq 0 n).
  assert (Hnd : NoDup l).
  { apply NoDup_fmap_2; [|apply NoDup_seq].
    intros i j H%candidate_inj. lia. }
  assert (Hsub : list_to_set (C := gset string) l ⊆ dom (files w)).
  { intros p Hp. apply elem_of_list_to_set in Hp.
    apply list_elem_of_fmap in Hp as (i & -> & Hi).
    apply elem_of_seq in Hi. apply elem_of_dom.
    specialize (Hall (Z.of_nat i) ltac:(lia)).
    unfold path_exists in Hall. now apply bool_decide_eq_true in Hall. }
  apply subseteq_size in Hsub.
  rewrite size_list_to_set, size_dom in Hsub by exact Hnd.
  unfold l in Hsub. now rewrite length_fmap, length_seq in Hsub.
Qed.

(** The loop of [batch_process] always ends. *)
Lemma free_path_total w d base ty :
  exists p,
    free_path (enough_fuel w) w d base ty (candidate d base ty 0) 1 = Some p.
Proof.
  destruct (free_path _ _ _ _ _ _ _) as [p|] eqn:E; [eauto|].
  exfalso.
  pose proof (free_path_none _ w d base ty 1 ltac:(lia) E) as Hall.
  pose proof (candidates_bounded w d base ty (enough_fuel w)) as Hb.
  unfold enough_fuel in *. cut (S (base.size (files w)) <= base.size (files w))%nat; [lia|].
  apply Hb. intros j Hj. apply Hall. lia.
Qed.
End Names.

(** * [batch_process] *)

Section Batch.
Import PyStr PyNum PIL ImageProcessor.

Variable convert_data : image -> string -> Z -> Z -> color.
Variable lanczos : image -> Z * Z -> Z -> Z -> color.
Variable UI : Type.
Variable callback : option (string -> bool -> string -> UI -> UI).

Local Abbreviation convert := (convert_resize_image convert_data lanczos).
Local Abbreviation step := (batch_step convert_data lanczos UI callback).
Local Abbreviation loop := (batch_loop convert_data lanczos UI callback).
Local Abbreviation batch := (batch_process convert_data lanczos UI callback).

(** The stem [batch_process] builds the output name from. *)
Local Abbreviation stem input_file :=
  (fst (OsPath.splitext (OsPath.basename input_file))).

Lemma step_unsupported d ty ma f st :
  is_supported_format f = false ->
  step d ty ma f st = Some ((f, false, "Formato no soportado"), st).
Proof. unfold batch_step. destruct st. now intros ->. Qed.

(** A supported input is converted to the first candidate name that is
    not on disk. *)
Lemma step_supported d ty ma f w ui :
  is_supported_format f = true ->
  exists k,
    0 <= k /\
    path_exists (candidate d (stem f) ty k) w = false /\
    (forall j, 0 <= j < k -> path_exists (candidate d (stem f) ty j) w = true) /\
    let p := candidate d (stem f) ty k in
    let r := convert f p ty ma w in
    let shown := if negb (fst (fst r)) then snd (fst r) else p in
    step d ty ma f (w, ui)
    = Some ((f, fst (fst r), shown),
            (snd r, match callback with
                    | Some g => g f (fst (fst r)) shown ui
                    | None => ui
                    end)).
Proof.
  intros Hs. unfold batch_step. rewrite Hs. cbn [negb].
  change (OsPath.join d (output_name (stem f) ty))
    with (candidate d (stem f) ty (1 - 1)).
  destruct (free_path_total w d (stem f) ty) as [p Hp].
  change (candidate d (stem f) ty 0)
    with (candidate d (stem f) ty (1 - 1)) in Hp.
  rewrite Hp.
  apply free_path_some in Hp as (k & Hk & -> & Hfree & Hlow); [|lia].
  exists k. split; [lia|]. split; [exact Hfree|]. split.
  - intros j Hj. apply Hlow. lia.
  - cbv zeta. now destruct (convert f _ ty ma w) as [[ok msg] w'].
Qed.

Lemma step_total d ty ma f st : exists r st', step d ty ma f st = Some (r, st').
Proof.
  destruct st as [w ui].
  destruct (is_supported_format f) eqn:E.
  - destruct (step_supported d ty ma f w ui E) as (k & _ & _ & _ & H).
    cbv zeta in H. eauto.
  - rewrite step_unsupported by exact E. eauto.
Qed.

Lemma step_input d ty ma f st r st' :
  step d ty ma f st = Some (r, st') -> fst (fst r) = f.
Proof.
  destruct st as [w ui].
  destruct (is_supported_format f) eqn:E.
  - destruct (step_supported d ty ma f w ui E) as (k & _ & _ & _ & H).
    cbv zeta in H. rewrite H. now intros [= <- <-].
  - rewrite step_unsupported by exact E. now intros [= <- <-].
Qed.

Lemma loop_acc d ty ma l : forall acc st,
  loop l d ty ma acc st
  = prod_map (app acc) Datatypes.id <$> loop l d ty ma [] st.
Proof.
  induction l as [|f l IH]; intros acc st; simpl.
  - now rewrite app_nil_r.
  - destruct (step d ty ma f st) as [[r st1]|]; [|reflexivity].
    rewrite (IH (acc ++ [r])%list), (IH ([] ++ [r])%list).
    destruct (loop l d ty ma [] st1) as [[rs st2]|]; simpl; [|reflexivity].
    now rewrite <- app_assoc.
Qed.

Lemma batch_cons d ty ma f l st :
  batch (f :: l) d ty ma st
  = match step d ty ma f st with
    | Some (r, st1) => prod_map (cons r) Datatypes.id <$> batch l d ty ma st1
    | None => None
    end.
Proof.
  unfold batch_process. simpl.
  destruct (step d ty ma f st) as [[r st1]|]; [|reflexivity].
  apply loop_acc.
Qed.

Lemma batch_app d ty ma l1 l2 : forall st,
  batch (l1 ++ l2) d ty ma st
  = match batch l1 d ty ma st with
    | Some (rs1, st1) => prod_map (app rs1) Datatypes.id <$> batch l2 d ty ma st1
    | None => None
    end.
Proof.
  induction l1 as [|f l1 IH]; intros st.
  - simpl. now destruct (batch l2 d ty ma st) as [[rs st']|].
  - rewrite <- app_comm_cons, !batch_cons.
    destruct (step d ty ma f st) as [[r st1]|]; [|reflexivity].
    rewrite IH.
    destruct (batch l1 d ty ma st1) as [[rs1 st2]|]; [|reflexivity].
    simpl. now destruct (batch l2 d ty ma st2) as [[rs2 st3]|].
Qed.

(** The batch always runs to its end. *)
Lemma batch_total d ty ma l : forall st,
  exists rs st', batch l d ty ma st = Some (rs, st').
Proof.
  induction l as [|f l IH]; intros st.
  - now exists [], st.
  - rewrite batch_cons.
    destruct (step_total d ty ma f st) as (r & st1 & ->).
    destruct (IH st1) as (rs & st2 & ->). simpl. eauto.
Qed.

Lemma batch_inputs d ty ma l : forall st rs st',
  batch l d ty ma st = Some (rs, st') ->
  map (fun r : outcome => fst (fst r)) rs = l.
Proof.
  induction l as [|f l IH]; intros st rs st'.
  - now intros [= <- <-].
  - rewrite batch_cons.
    destruct (step d ty ma f st) as [[r st1]|] eqn:Es; [|discriminate].
    destruct (batch l d ty ma st1) as [[rs1 st2]|] eqn:Eb; [|discriminate].
    intros [= <- <-]. simpl. f_equal; [now apply step_input in Es|eauto].
Qed.

Lemma free_path_frame fuel w1 w2 d base ty : forall p c,
  files w1 = files w2 ->
  free_path fuel w1 d base ty p c = free_path fuel w2 d base ty p c.
Proof.
  induction fuel as [|fuel IH]; intros p c Hf; simpl; [reflexivity|].
  unfold path_exists. rewrite Hf, (IH _ _ Hf). reflexivity.
Qed.

(** The outcome of a conversion and the disk it leaves depend on the disk
    alone, not on the log of opened paths. *)
Lemma convert_frame inp out ty ma w1 w2 :
  files w1 = files w2 -> denied w1 = denied w2 ->
  fst (convert inp out ty ma w1) = fst (convert inp out ty ma w2) /\
  files (snd (convert inp out ty ma w1))
  = files (snd (convert inp out ty ma w2)) /\
  denied (snd (convert inp out ty ma w1))
  = denied (snd (convert inp out ty ma w2)).
Proof.
  destruct w1 as [fs1 dn1 o1], w2 as [fs2 dn2 o2]. simpl.
  intros <- <-.
  unfold convert_resize_image, convert_resize_image_try, Image_open.
  simpl.
  destruct (fs1 !! inp) as [[im| |]|]; simpl; auto.
  destruct (default (0, 0) (DIMENSIONS !! ty)) as [tw th].
  destruct ((tw =? 0) || (th =? 0)); simpl; auto.
  destruct (if ma then _ else _) as [img|e]; simpl; auto.
  unfold Image_save. simpl.
  destruct (fs1 !! out) as [[| |]|]; simpl; auto;
    destruct (bool_decide _); simpl; auto.
Qed.

Lemma step_frame d ty ma f w1 ui1 w2 ui2 r1 w1' ui1' :
  files w1 = files w2 -> denied w1 = denied w2 ->
  step d ty ma f (w1, ui1) = Some (r1, (w1', ui1')) ->
  exists w2' ui2',
    step d ty ma f (w2, ui2) = Some (r1, (w2', ui2')) /\
    files w1' = files w2' /\ denied w1' = denied w2'.
Proof.
  intros Hf Hd. unfold batch_step, enough_fuel.
  destruct (negb (is_supported_format f)).
  - intros [= <- <- <-]. eauto.
  - rewrite <- Hf, (free_path_frame _ w1 w2) by exact Hf.
    destruct (free_path _ w2 _ _ _ _ _) as [p|]; [|discriminate].
    destruct (convert_frame f p ty ma w1 w2 Hf Hd) as (Hr & Hf' & Hd').
    destruct (convert f p ty ma w1) as [[ok1 m1] v1].
    destruct (convert f p ty ma w2) as [[ok2 m2] v2].
    simpl in Hr, Hf', Hd'. injection Hr as <- <-.
    intros [= <- <- <-]. eauto.
Qed.

Lemma batch_frame d ty ma l : forall w1 ui1 w2 ui2,
  files w1 = files w2 -> denied w1 = denied w2 ->
  fst <$> batch l d ty ma (w1, ui1) = fst <$> batch l d ty ma (w2, ui2).
Proof.
  induction l as [|f l IH]; intros w1 ui1 w2 ui2 Hf Hd; [reflexivity|].
  rewrite !batch_cons.
  destruct (step_total d ty ma f (w1, ui1)) as (r1 & [w1' ui1'] & E1).
  destruct (step_frame d ty ma f w1 ui1 w2 ui2 r1 w1' ui1' Hf Hd E1)
    as (w2' & ui2' & E2 & Hf' & Hd').
  rewrite E1, E2. specialize (IH w1' ui1' w2' ui2' Hf' Hd').
  destruct (batch l d ty ma (w1', ui1')) as [[rs1 s1]|],
           (batch l d ty ma (w2', ui2')) as [[rs2 s2]|];
    simpl in *; congruence.
Qed.

(** A failed turn leaves the disk as it found it. *)
Lemma step_failure d ty ma f w ui r w' ui' :
  step d ty ma f (w, ui) = Some (r, (w', ui')) ->
  snd (fst r) = false ->
  files w' = files w /\ denied w' = denied w.
Proof.
  destruct (is_supported_format f) eqn:E.
  - destruct (step_supported d ty ma f w ui E) as (k & _ & _ & _ & H).
    cbv zeta in H. rewrite H.
    destruct (convert f _ ty ma w) as [[ok msg] v] eqn:Ec. simpl.
    intros [= <- <- <-]. simpl. intros ->.
    apply convert_failure in Ec as ->. auto.
  - rewrite step_unsupported by exact E. now intros [= <- <- <-].
Qed.

Lemma step_opened d ty ma f w ui r w' ui' :
  step d ty ma f (w, ui) = Some (r, (w', ui')) ->
  opened w' = (opened w ++ if is_supported_format f then [f] else [])%list.
Proof.
  destruct (is_supported_format f) eqn:E.
  - destruct (step_supported d ty ma f w ui E) as (k & _ & _ & _ & H).
    cbv zeta in H. rewrite H. intros [= <- <- <-].
    apply convert_opened.
  - rewrite step_unsupported by exact E. intros [= <- <- <-].
    now rewrite app_nil_r.
Qed.

Lemma batch_opened d ty ma l : forall st rs st',
  batch l d ty ma st = Some (rs, st') ->
  opened (fst st')
  = (opened (fst st) ++ List.filter is_supported_format l)%list.
Proof.
  induction l as [|f l IH]; intros st rs st'.
  - intros [= <- <-]. simpl. now rewrite app_nil_r.
  - rewrite batch_cons.
    destruct (step d ty ma f st) as [[r [w1 ui1]]|] eqn:Es; [|discriminate].
    destruct (batch l d ty ma (w1, ui1)) as [[rs1 st2]|] eqn:Eb;
      [|discriminate].
    intros [= <- <-]. apply IH in Eb. rewrite Eb. simpl.
    destruct st as [w ui]. apply step_opened in Es. rewrite Es. simpl.
    rewrite <- app_assoc. now destruct (is_supported_format f).
Qed.

Lemma batch_unsupported d ty ma l : forall st rs st' i f,
  batch l d ty ma st = Some (rs, st') ->
  l !! i = Some f -> is_supported_format f = false ->
  rs !! i = Some (f, false, "Formato no soportado").
Proof.
  induction l as [|g l IH]; intros st rs st' i f; [now intros _ [=]|].
  rewrite batch_cons.
  destruct (step d ty ma g st) as [[r st1]|] eqn:Es; [|discriminate].
  destruct (batch l d ty ma st1) as [[rs1 st2]|] eqn:Eb; [|discriminate].
  intros [= <- <-]. destruct i as [|i]; simpl.
  - intros [= ->] Hf. rewrite step_unsupported in Es by exact Hf.
    now injection Es as <- _.
  - intros Hi Hf. eapply IH; eauto.
Qed.

(** C7: an input the format gate refuses gets [(input, False,
    "Formato no soportado")] and leaves the state untouched, the log of
    [Image.open] included; after a batch that log has grown by exactly
    the inputs the gate accepts. *)
Theorem unsupported_inputs_not_decoded d ty ma l st :
  (forall f, is_supported_format f = false ->
             step d ty ma f st
             = Some ((f, false, "Formato no soportado"), st)) /\
  exists rs st',
    batch l d ty ma st = Some (rs, st') /\
    opened (fst st')
    = (opened (fst st) ++ List.filter is_supported_format l)%list /\
    forall i f, l !! i = Some f -> is_supported_format f = false ->
                rs !! i = Some (f, false, "Formato no soportado").
Proof.
  split; [intros f Hf; now apply step_unsupported|].
  destruct (batch_total d ty ma l st) as (rs & st' & E).
  exists rs, st'. split; [exact E|]. split.
  - eapply batch_opened; eauto.
  - intros i f. eapply batch_unsupported; eauto.
Qed.

(** C8: the batch returns one outcome per input, in the order of the
    inputs; each input is processed from the state its predecessors left,
    whatever their outcomes; a failed input leaves the disk untouched, so
    the outcomes after it are those of a batch without it. *)
Theorem batch_one_outcome_per_input d ty ma l st :
  exists rs st',
    batch l d ty ma st = Some (rs, st') /\
    map (fun r : outcome => fst (fst r)) rs = l /\
    length rs = length l /\
    forall l1 f l2, l = (l1 ++ f :: l2)%list ->
      exists rs1 st1 r st2 rs2,
        batch l1 d ty ma st = Some (rs1, st1) /\
        step d ty ma f st1 = Some (r, st2) /\
        batch l2 d ty ma st2 = Some (rs2, st') /\
        rs = (rs1 ++ r :: rs2)%list /\
        (snd (fst r) = false ->
         files (fst st2) = files (fst st1) /\
         fst <$> batch l2 d ty ma st1 = Some rs2).
Proof.
  destruct (batch_total d ty ma l st) as (rs & st' & E).
  exists rs, st'. split; [exact E|].
  pose proof (batch_inputs _ _ _ _ _ _ _ E) as Hin.
  split; [exact Hin|]. split.
  { apply (f_equal (@length string)) in Hin.
    now rewrite length_map in Hin. }
  intros l1 f l2 ->. rewrite batch_app in E.
  destruct (batch l1 d ty ma st) as [[rs1 st1]|]; [|discriminate].
  rewrite batch_cons in E.
  destruct (step d ty ma f st1) as [[r st2]|] eqn:Es; [|discriminate].
  destruct (batch l2 d ty ma st2) as [[rs2 st3]|] eqn:E2; [|discriminate].
  injection E as <- <-.
  exists rs1, st1, r, st2, rs2. repeat split; auto.
  - destruct st1 as [w1 ui1], st2 as [w2 ui2].
    now apply (step_failure _ _ _ _ _ _ _ _ _ Es).
  - destruct st1 as [w1 ui1], st2 as [w2 ui2].
    destruct (step_failure _ _ _ _ _ _ _ _ _ Es H) as [Hf Hd].
    rewrite (batch_frame d ty ma l2 w1 ui1 w2 ui2) by auto.
    now rewrite E2.
Qed.

(** C3: a supported input is written under the first name, among
    [stem_type.png], [stem_type_1.png], [stem_type_2.png], ..., that is not
    on disk when its turn comes; the loop that looks for it always ends.
    Three inputs named [photo.png] converted into an empty directory
    come out as [photo_caratula.png], [photo_caratula_1.png] and
    [photo_caratula_2.png]. *)
Theorem output_name_lowest_unused :
  (forall d ty ma f w ui,
      is_supported_format f = true ->
      exists k r st',
        0 <= k /\
        step d ty ma f (w, ui) = Some (r, st') /\
        let p := candidate d (stem f) ty k in
        (k = 0 /\ p = OsPath.join d (stem f +:+ "_" +:+ ty +:+ ".png") \/
         1 <= k /\
         p = OsPath.join d
               (stem f +:+ "_" +:+ ty +:+ "_" +:+ str_of_int k +:+ ".png")) /\
        path_exists p w = false /\
        (forall j, 0 <= j < k ->
                   path_exists (candidate d (stem f) ty j) w = true) /\
        (snd (fst r) = true ->
         r = (f, true, p) /\
         exists img, files (fst st') !! p = Some (Raster img)) /\
        (snd (fst r) = false -> files (fst st') = files w)) /\
  (forall px1 px2 px3 ui,
      let w0 :=
        World (list_to_map
                 [ ("a/photo.png", Raster (Image "RGB" (1920, 1080) px1));
                   ("b/photo.png", Raster (Image "RGB" (800, 600) px2));
                   ("c/photo.png", Raster (Image "RGB" (300, 400) px3)) ])
              ∅ [] in
      fst <$> batch ["a/photo.png"; "b/photo.png"; "c/photo.png"]
                "out" "caratula" true (w0, ui)
      = Some [ ("a/photo.png", true, "out/photo_caratula.png");
               ("b/photo.png", true, "out/photo_caratula_1.png");
               ("c/photo.png", true, "out/photo_caratula_2.png") ]).
Proof.
  split.
  - intros d ty ma f w ui Hs.
    destruct (step_supported d ty ma f w ui Hs) as (k & Hk & Hfree & Hlow & H).
    cbv zeta in H.
    destruct (convert f (candidate d (stem f) ty k) ty ma w)
      as [[ok msg] w'] eqn:Ec.
    exists k. eexists. eexists. split; [exact Hk|]. split; [exact H|].
    cbv zeta. split; [|split; [exact Hfree|split; [exact Hlow|]]].
    + unfold candidate, output_name, output_name_n.
      destruct (Z.eqb_spec k 0); [left|right]; split; auto; lia.
    + simpl. split.
      * intros ->. simpl.
        apply convert_success in Ec as (?&?&out&_&_&_&_&_&_&->).
        split; [reflexivity|]. exists out. simpl. apply lookup_insert_eq.
      * intros ->. now apply convert_failure in Ec as ->.
  - intros px1 px2 px3 ui w0. vm_compute. reflexivity.
Qed.
End Batch.

(** * Binary64 arithmetic: how far rounding can go up *)

Section Rounding.
Import FloatSem.

Lemma digits2_pos_bounds (m : positive) :
  2 ^ (Z.pos (digits2_pos m) - 1) <= Z.pos m < 2 ^ Z.pos (digits2_pos m).
Proof.
  induction m as [m IH|m IH|]; simpl digits2_pos.
  - rewrite Pos2Z.inj_succ.
    replace (Z.succ (Z.pos (digits2_pos m)) - 1)
      with (Z.succ (Z.pos (digits2_pos m) - 1)) by lia.
    rewrite !Z.pow_succ_r by lia. lia.
  - rewrite Pos2Z.inj_succ.
    replace (Z.succ (Z.pos (digits2_pos m)) - 1)
      with (Z.succ (Z.pos (digits2_pos m) - 1)) by lia.
    rewrite !Z.pow_succ_r by lia. lia.
  - simpl. lia.
Qed.

Lemma shr_1_m mrs : 0 <= shr_m mrs -> shr_m (shr_1 mrs) = shr_m mrs / 2.
Proof.
  destruct mrs as [m r s]. simpl. intros Hm.
  destruct m as [|[p|p|]|p]; cbn [shr_m]; try lia; try reflexivity.
  - apply Z.div_unique with 1; lia.
  - apply Z.div_unique with 0; lia.
Qed.

Lemma iter_pos_shr_1 p : forall mrs,
  0 <= shr_m mrs ->
  shr_m (SpecFloat.iter_pos shr_1 p mrs) = shr_m mrs / 2 ^ Z.pos p.
Proof.
  induction p as [p IH|p IH|]; intros mrs Hm; cbn [SpecFloat.iter_pos].
  - assert (H1 : 0 <= shr_m (shr_1 mrs)).
    { rewrite shr_1_m by exact Hm. apply Z.div_pos; lia. }
    assert (H2 : 0 <= shr_m (SpecFloat.iter_pos shr_1 p (shr_1 mrs))).
    { rewrite IH by exact H1. apply Z.div_pos; [exact H1|lia]. }
    rewrite IH, IH, shr_1_m by assumption.
    rewrite !Z.div_div by lia. f_equal.
    rewrite Pos2Z.inj_xI, Z.pow_add_r, Z.pow_mul_r, Z.pow_1_r by lia.
    change (2 ^ 2) with 4.
    replace (4 ^ Z.pos p) with (2 ^ Z.pos p * 2 ^ Z.pos p); [lia|].
    rewrite <- Z.pow_add_r by lia. replace (Z.pos p + Z.pos p) with (2 * Z.pos p) by lia.
    now rewrite Z.pow_mul_r by lia.
  - assert (H2 : 0 <= shr_m (SpecFloat.iter_pos shr_1 p mrs)).
    { rewrite IH by exact Hm. apply Z.div_pos; [exact Hm|lia]. }
    rewrite IH, IH by assumption.
    rewrite !Z.div_div by lia. f_equal.
    rewrite Pos2Z.inj_xO. rewrite <- Z.pow_add_r by lia. f_equal. lia.
  - rewrite shr_1_m by exact Hm. reflexivity.
Qed.

Lemma shr_m_of_loc m l : shr_m (shr_record_of_loc m l) = m.
Proof. now destruct l as [|[ | | ]]. Qed.

Lemma shr_fexp_m m e l :
  0 <= m ->
  shr_m (fst (shr_fexp prec emax m e l)) = m / 2 ^ fexp_shift m e /\
  snd (shr_fexp prec emax m e l) = e + fexp_shift m e.
Proof.
  intros Hm. unfold shr_fexp, shr, fexp_shift.
  destruct (fexp prec emax (Zdigits2 m + e) - e) as [|n|n] eqn:E; simpl.
  - rewrite shr_m_of_loc, Z.div_1_r. lia.
  - rewrite iter_pos_shr_1 by (rewrite shr_m_of_loc; exact Hm).
    rewrite shr_m_of_loc. split; [reflexivity|lia].
  - rewrite shr_m_of_loc, Z.div_1_r. lia.
Qed.

Lemma round_nearest_even_bounds m l :
  m <= round_nearest_even m l <= m + 1.
Proof.
  unfold round_nearest_even.
  destruct l as [|[ | | ]]; try lia. destruct (Z.even m); lia.
Qed.

(** [binary_round_aux] as two shifts around one rounding step. *)
Lemma binary_round_aux_eq mx ex lx :
  0 <= mx ->
  exists mr,
    mx / 2 ^ fexp_shift mx ex <= mr <= mx / 2 ^ fexp_shift mx ex + 1 /\
    let e1 := ex + fexp_shift mx ex in
    binary_round_aux prec emax false mx ex lx
    = match mr / 2 ^ fexp_shift mr e1 with
      | 0 => S754_zero false
      | Z.pos m =>
          if e1 + fexp_shift mr e1 <=? emax - prec
          then S754_finite false m (e1 + fexp_shift mr e1)
          else S754_infinity false
      | Z.neg _ => S754_nan
      end.
Proof.
  intros Hm. unfold binary_round_aux.
  destruct (shr_fexp_m mx ex lx Hm) as [H1 H2].
  destruct (shr_fexp prec emax mx ex lx) as [mrs1 e1]. simpl in H1, H2.
  set (mr := round_nearest_even (shr_m mrs1) (loc_of_shr_record mrs1)).
  pose proof (round_nearest_even_bounds (shr_m mrs1) (loc_of_shr_record mrs1))
    as Hr. fold mr in Hr.
  assert (Hmr : 0 <= mr).
  { rewrite H1 in Hr. assert (0 <= mx / 2 ^ fexp_shift mx ex); [|lia].
    apply Z.div_pos; [exact Hm|]. apply Z.pow_pos_nonneg; [lia|].
    unfold fexp_shift; lia. }
  destruct (shr_fexp_m mr e1 loc_Exact Hmr) as [H3 H4].
  destruct (shr_fexp prec emax mr e1 loc_Exact) as [mrs2 e2].
  simpl in H3, H4. exists mr. rewrite <- H1. split; [exact Hr|].
  cbv zeta. rewrite <- H2, <- H4, <- H3. reflexivity.
Qed.

Local Open Scope R_scope.

Lemma bpow_pos e : 0 < bpow e.
Proof. unfold bpow. apply powerRZ_lt. lra. Qed.

Lemma bpow_add a b : bpow (a + b) = bpow a * bpow b.
Proof. unfold bpow. apply powerRZ_add. lra. Qed.

Lemma bpow_IZR n : (0 <= n)%Z -> bpow n = IZR (2 ^ n).
Proof.
  intros Hn. unfold bpow. rewrite <- (Z2Nat.id n Hn) at 2.
  rewrite <- (Z2Nat.id n Hn) at 1.
  rewrite <- pow_powerRZ. now rewrite pow_IZR.
Qed.

Lemma bpow_le a b : (a <= b)%Z -> bpow a <= bpow b.
Proof.
  intros H. replace b with (a + (b - a))%Z by lia.
  rewrite bpow_add, (bpow_IZR (b - a)) by lia.
  assert (1 <= IZR (2 ^ (b - a))).
  { apply IZR_le. assert (0 < 2 ^ (b - a))%Z; [|lia].
    apply Z.pow_pos_nonneg; lia. }
  pose proof (bpow_pos a). nra.
Qed.

Lemma bpow_neg_IZR n : (0 <= n)%Z -> bpow (- n) = / IZR (2 ^ n).
Proof.
  intros Hn. rewrite <- bpow_IZR by exact Hn.
  unfold bpow. apply powerRZ_neg'.
Qed.

Lemma bpow_m52 : bpow (-52) = / IZR (2 ^ 52).
Proof. exact (bpow_neg_IZR 52 ltac:(lia)). Qed.

Lemma F2R_shift m e n : (0 <= n)%Z -> F2R (m * 2 ^ n) e = F2R m (e + n).
Proof.
  intros Hn. unfold F2R. rewrite mult_IZR, bpow_add, <- bpow_IZR by exact Hn.
  ring.
Qed.

Lemma F2R_le m1 m2 e : (m1 <= m2)%Z -> F2R m1 e <= F2R m2 e.
Proof.
  intros H. unfold F2R. apply Rmult_le_compat_r.
  - left. apply bpow_pos.
  - now apply IZR_le.
Qed.

Lemma F2R_lt m1 m2 e : (m1 < m2)%Z -> F2R m1 e < F2R m2 e.
Proof.
  intros H. unfold F2R. apply Rmult_lt_compat_r.
  - apply bpow_pos.
  - now apply IZR_lt.
Qed.

Lemma F2R_succ m e : F2R (m + 1) e = F2R m e + bpow e.
Proof. unfold F2R. rewrite plus_IZR. ring. Qed.

Lemma F2R_nonneg m e : (0 <= m)%Z -> 0 <= F2R m e.
Proof.
  intros H. unfold F2R. apply Rmult_le_pos; [now apply IZR_le|].
  left. apply bpow_pos.
Qed.

(** Dropping [n] low bits does not increase the value. *)
Lemma F2R_truncate m e n :
  (0 <= n)%Z -> F2R (m / 2 ^ n) (e + n) <= F2R m e.
Proof.
  intros Hn. rewrite <- F2R_shift by exact Hn. apply F2R_le.
  rewrite Z.mul_comm. apply Z.mul_div_le. now apply Z.pow_pos_nonneg.
Qed.

Lemma fexp_shift_nonneg m e : (0 <= fexp_shift m e)%Z.
Proof. unfold fexp_shift. lia. Qed.

(** The value has as many bits as [Zdigits2] says. *)
Lemma F2R_digits_lower m e :
  (0 < m)%Z -> bpow (Zdigits2 m - 1 + e) <= F2R m e.
Proof.
  intros Hm. destruct m as [|p|p]; try lia. simpl Zdigits2.
  pose proof (digits2_pos_bounds p) as [H _].
  rewrite bpow_add, bpow_IZR by lia. unfold F2R.
  apply Rmult_le_compat_r; [left; apply bpow_pos|now apply IZR_le].
Qed.

Lemma F2R_digits_upper m e :
  (0 < m)%Z -> F2R m e < bpow (Zdigits2 m + e).
Proof.
  intros Hm. destruct m as [|p|p]; try lia. simpl Zdigits2.
  pose proof (digits2_pos_bounds p) as [_ H].
  rewrite bpow_add, bpow_IZR by lia. unfold F2R.
  apply Rmult_lt_compat_r; [apply bpow_pos|now apply IZR_lt].
Qed.

(** The exponent the rounding works at. *)
Lemma round_exponent_cases m e :
  (e + fexp_shift m e)%Z = e \/
  (e + fexp_shift m e)%Z = (Zdigits2 m + e - prec)%Z \/
  (e + fexp_shift m e)%Z = emin.
Proof. unfold fexp_shift, fexp. lia. Qed.

(** Upper bound on what [binary_round_aux] returns. *)
Lemma round_aux_upper mx ex lx :
  (0 <= mx)%Z ->
  let U := F2R mx ex + bpow (ex + fexp_shift mx ex) in
  match binary_round_aux prec emax false mx ex lx with
  | S754_zero s => s = false
  | S754_finite s m e => s = false /\ F2R (Z.pos m) e <= U
  | S754_infinity s => s = false /\ bpow 972 <= U
  | S754_nan => False
  end.
Proof.
  intros Hm U.
  destruct (binary_round_aux_eq mx ex lx Hm) as (mr & [Hlo Hhi] & ->).
  set (n1 := fexp_shift mx ex) in *. set (e1 := (ex + n1)%Z).
  set (n2 := fexp_shift mr e1).
  assert (Hn1 : (0 <= n1)%Z) by apply fexp_shift_nonneg.
  assert (Hn2 : (0 <= n2)%Z) by apply fexp_shift_nonneg.
  assert (Hm1 : (0 <= mx / 2 ^ n1)%Z).
  { apply Z.div_pos; [exact Hm|]. now apply Z.pow_pos_nonneg. }
  assert (HmrU : F2R mr e1 <= U).
  { unfold U. apply Rle_trans with (F2R (mx / 2 ^ n1 + 1) e1).
    - now apply F2R_le.
    - rewrite F2R_succ. apply Rplus_le_compat_r.
      now apply F2R_truncate. }
  assert (Hm2 : (0 <= mr / 2 ^ n2)%Z).
  { apply Z.div_pos; [lia|]. now apply Z.pow_pos_nonneg. }
  destruct (mr / 2 ^ n2)%Z as [|m2|m2] eqn:E2; [reflexivity| |lia].
  assert (Hmr : (0 < mr)%Z).
  { destruct (Z.eq_dec mr 0%Z) as [->|]; [|lia].
    rewrite Z.div_0_l in E2; [discriminate|].
    apply Z.pow_nonzero; lia. }
  assert (Hval : F2R (Z.pos m2) (e1 + n2) <= F2R mr e1).
  { rewrite <- E2. now apply F2R_truncate. }
  destruct (Z.leb_spec (e1 + n2) (emax - prec)) as [Hle|Hgt].
  - split; [reflexivity|lra].
  - split; [reflexivity|].
    apply Rle_trans with (F2R mr e1); [|exact HmrU].
    change (emax - prec)%Z with 971%Z in Hgt.
    destruct (round_exponent_cases mr e1) as [H|[H|H]]; fold n2 in H.
    + apply Rle_trans with (bpow e1); [apply bpow_le; lia|].
      apply Rle_trans with (bpow (Zdigits2 mr - 1 + e1));
        [|now apply F2R_digits_lower].
      apply bpow_le. destruct mr; simpl Zdigits2; lia.
    + apply Rle_trans with (bpow (Zdigits2 mr - 1 + e1));
        [|now apply F2R_digits_lower].
      apply bpow_le. change prec with 53%Z in H. lia.
    + change emin with (-1074)%Z in H. lia.
Qed.

Lemma shift_keeps_positive m e :
  (0 < m)%Z -> (emin <= e)%Z -> (1 <= m / 2 ^ fexp_shift m e)%Z.
Proof.
  intros Hm He. destruct m as [|p|p]; try lia.
  pose proof (digits2_pos_bounds p) as [Hd _].
  assert (Hn : (fexp_shift (Z.pos p) e <= Z.pos (digits2_pos p) - 1)%Z).
  { unfold fexp_shift, fexp. simpl Zdigits2.
    change (SpecFloat.emin prec emax) with (-1074)%Z in *.
    change prec with 53%Z. lia. }
  apply Z.div_le_lower_bound.
  - apply Z.pow_pos_nonneg; [lia|apply fexp_shift_nonneg].
  - rewrite Z.mul_1_r. etransitivity; [|exact Hd].
    apply Z.pow_le_mono_r; [lia|exact Hn].
Qed.

Lemma round_aux_nonzero mx ex lx s :
  (0 < mx)%Z -> (emin <= ex)%Z ->
  binary_round_aux prec emax false mx ex lx <> S754_zero s.
Proof.
  intros Hm He.
  destruct (binary_round_aux_eq mx ex lx) as (mr & [Hlo Hhi] & ->); [lia|].
  pose proof (shift_keeps_positive mx ex Hm He) as H1.
  pose proof (fexp_shift_nonneg mx ex) as Hn1.
  pose proof (shift_keeps_positive mr (ex + fexp_shift mx ex)
                ltac:(lia) ltac:(lia)) as H2.
  destruct (mr / 2 ^ fexp_shift mr (ex + fexp_shift mx ex))%Z; try lia.
  now destruct (_ <=? _)%Z.
Qed.

(** The last place the rounding works at is small against the value. *)
Lemma round_ulp_bound mx ex x :
  (0 <= mx)%Z -> F2R mx ex <= x ->
  bpow ex <= x * bpow (-52) + bpow emin ->
  bpow (ex + fexp_shift mx ex) <= x * bpow (-52) + bpow emin.
Proof.
  intros Hm Hx Hex.
  pose proof (F2R_nonneg mx ex Hm) as H0.
  pose proof (bpow_pos (-52)) as Hp. pose proof (bpow_pos emin) as Hq.
  destruct (round_exponent_cases mx ex) as [->|[->| ->]].
  - exact Hex.
  - destruct (Z.eq_dec mx 0%Z) as [->|Hne].
    + simpl Zdigits2. apply Rle_trans with (bpow ex); [|exact Hex].
      apply bpow_le. change prec with 53%Z. lia.
    + replace (Zdigits2 mx + ex - prec)%Z
        with ((Zdigits2 mx - 1 + ex) + -52)%Z by (change prec with 53%Z; lia).
      rewrite bpow_add.
      pose proof (F2R_digits_lower mx ex ltac:(lia)).
      pose proof (bpow_pos (Zdigits2 mx - 1 + ex)). nra.
  - nra.
Qed.

Lemma round_aux_rel mx ex lx x :
  (0 <= mx)%Z -> F2R mx ex <= x ->
  bpow ex <= x * bpow (-52) + bpow emin ->
  let U := x * (1 + bpow (-52)) + bpow emin in
  match binary_round_aux prec emax false mx ex lx with
  | S754_zero s => s = false
  | S754_finite s m e => s = false /\ F2R (Z.pos m) e <= U
  | S754_infinity s => s = false /\ bpow 972 <= U
  | S754_nan => False
  end.
Proof.
  intros Hm Hx Hex U.
  pose proof (round_aux_upper mx ex lx Hm) as H. cbv zeta in H.
  pose proof (round_ulp_bound mx ex x Hm Hx Hex) as Hu.
  destruct (binary_round_aux prec emax false mx ex lx);
    try exact H; destruct H as [-> H]; (split; [reflexivity|]);
    unfold U; lra.
Qed.

Lemma F2R_mul m1 e1 m2 e2 :
  F2R (m1 * m2) (e1 + e2) = F2R m1 e1 * F2R m2 e2.
Proof. unfold F2R. rewrite mult_IZR, bpow_add. ring. Qed.

(** Multiplication rounds up by at most one part in [2^52], when the
    first factor is a normal number. *)
Lemma SF64mul_upper m1 e1 m2 e2 :
  (2 ^ 52 <= Z.pos m1)%Z ->
  let x := F2R (Z.pos m1) e1 * F2R (Z.pos m2) e2 in
  let U := x * (1 + bpow (-52)) + bpow emin in
  match SF64mul (S754_finite false m1 e1) (S754_finite false m2 e2) with
  | S754_zero s => s = false
  | S754_finite s m e => s = false /\ F2R (Z.pos m) e <= U
  | S754_infinity s => s = false /\ bpow 972 <= U
  | S754_nan => False
  end.
Proof.
  intros H1 x U. unfold SF64mul, SFmul. cbn [xorb].
  rewrite Pos2Z.inj_mul.
  apply round_aux_rel; [lia|rewrite F2R_mul; unfold x; lra|].
  assert (Hx : bpow (e1 + e2) * IZR (2 ^ 52) <= x).
  { unfold x. rewrite <- F2R_mul. unfold F2R.
    rewrite Rmult_comm. apply Rmult_le_compat_r; [left; apply bpow_pos|].
    apply IZR_le. nia. }
  rewrite bpow_m52.
  pose proof (bpow_pos (e1 + e2)). pose proof (bpow_pos emin).
  assert (H52 : 0 < IZR (2 ^ 52)) by (apply IZR_lt; reflexivity).
  apply Rle_trans with (x * / IZR (2 ^ 52)); [|lra].
  apply Rmult_le_reg_r with (IZR (2 ^ 52)); [exact H52|].
  rewrite Rmult_assoc, Rinv_l by lra. lra.
Qed.

Lemma div_core_spec m1 e1 m2 e2 :
  let '(q, e', _) :=
    SFdiv_core_binary prec emax (Z.pos m1) e1 (Z.pos m2) e2 in
  (0 <= q)%Z /\
  F2R q e' * F2R (Z.pos m2) e2 <= F2R (Z.pos m1) e1 /\
  (e' <= fexp prec emax (Zdigits2 (Z.pos m1) + e1 - (Zdigits2 (Z.pos m2) + e2)))%Z.
Proof.
  unfold SFdiv_core_binary.
  set (e' := Z.min _ _). set (s := (e1 - e2 - e')%Z).
  assert (Hs : (0 <= s)%Z) by (unfold s, e'; lia).
  set (m' := match s with Z.pos _ => _ | _ => _ end).
  assert (Hm' : m' = (Z.pos m1 * 2 ^ s)%Z).
  { unfold m'. destruct s as [|p|p] eqn:Es; try lia.
    now rewrite Z.shiftl_mul_pow2 by lia. }
  pose proof (Z_div_mod m' (Z.pos m2) ltac:(lia)) as Hdiv.
  destruct (Z.div_eucl m' (Z.pos m2)) as [q r]. destruct Hdiv as [Hq Hr].
  assert (Hq0 : (0 <= q)%Z).
  { assert (0 <= m')%Z by (rewrite Hm'; apply Z.mul_nonneg_nonneg;
                           [lia|apply Z.pow_nonneg; lia]). nia. }
  split; [exact Hq0|]. split; [|unfold e'; lia].
  rewrite <- F2R_mul.
  replace (F2R (Z.pos m1) e1) with (F2R m' (e' + e2)).
  - apply F2R_le. nia.
  - rewrite Hm', F2R_shift by exact Hs. f_equal. unfold s. lia.
Qed.

(** Division rounds up by at most one part in [2^52]. *)
Lemma SF64div_upper m1 e1 m2 e2 :
  let x := F2R (Z.pos m1) e1 / F2R (Z.pos m2) e2 in
  let U := x * (1 + bpow (-52)) + bpow emin in
  match SF64div (S754_finite false m1 e1) (S754_finite false m2 e2) with
  | S754_zero s => s = false
  | S754_finite s m e => s = false /\ F2R (Z.pos m) e <= U
  | S754_infinity s => s = false /\ bpow 972 <= U
  | S754_nan => False
  end.
Proof.
  intros x U. unfold SF64div, SFdiv. cbn [xorb].
  pose proof (div_core_spec m1 e1 m2 e2) as H.
  destruct (SFdiv_core_binary prec emax (Z.pos m1) e1 (Z.pos m2) e2)
    as [[q e'] l]. destruct H as (Hq & Hv & He).
  assert (Hy : 0 < F2R (Z.pos m2) e2).
  { unfold F2R. apply Rmult_lt_0_compat; [now apply IZR_lt|apply bpow_pos]. }
  assert (Hxy : x * F2R (Z.pos m2) e2 = F2R (Z.pos m1) e1).
  { unfold x. field. lra. }
  assert (Hqx : F2R q e' <= x).
  { apply Rmult_le_reg_r with (F2R (Z.pos m2) e2); [exact Hy|lra]. }
  apply round_aux_rel; [exact Hq|exact Hqx|].
  set (D := (Zdigits2 (Z.pos m1) + e1 - (Zdigits2 (Z.pos m2) + e2))%Z) in *.
  assert (HD : bpow (D - 1) <= x).
  { apply Rmult_le_reg_r with (F2R (Z.pos m2) e2); [exact Hy|].
    rewrite Hxy.
    pose proof (F2R_digits_lower (Z.pos m1) e1 ltac:(lia)) as Hl.
    pose proof (F2R_digits_upper (Z.pos m2) e2 ltac:(lia)) as Hu.
    replace (Zdigits2 (Z.pos m1) - 1 + e1)%Z
      with ((D - 1) + (Zdigits2 (Z.pos m2) + e2))%Z in Hl by (unfold D; lia).
    rewrite bpow_add in Hl.
    pose proof (bpow_pos (D - 1)). nra. }
  pose proof (bpow_pos (-52)). pose proof (bpow_pos emin).
  pose proof (bpow_pos (D - 1)).
  unfold fexp in He. change (D - prec)%Z with (D - 53)%Z in He.
  destruct (Z.max_spec (D - 53) emin) as [[_ Hm]|[_ Hm]]; rewrite Hm in He.
  - apply Rle_trans with (bpow emin); [now apply bpow_le|nra].
  - apply Rle_trans with (bpow (D - 1 + -52)); [apply bpow_le; lia|].
    rewrite bpow_add. nra.
Qed.

(** [int()] keeps the integer part. *)
Lemma trunc_mag_spec m e :
  IZR (PyNum.trunc_mag m e) <= F2R (Z.pos m) e
  < IZR (PyNum.trunc_mag m e + 1).
Proof.
  unfold PyNum.trunc_mag. destruct (Z.leb_spec 0 e) as [He|He].
  - rewrite plus_IZR, mult_IZR, <- bpow_IZR by exact He.
    unfold F2R. lra.
  - set (d := (2 ^ (- e))%Z).
    assert (Hd : (0 < d)%Z) by (apply Z.pow_pos_nonneg; lia).
    assert (Hb : bpow e = / IZR d).
    { unfold d. rewrite <- bpow_neg_IZR by lia. f_equal. lia. }
    assert (HdR : 0 < IZR d) by now apply IZR_lt.
    pose proof (Z.mul_div_le (Z.pos m) d Hd) as H1.
    pose proof (Z.mul_succ_div_gt (Z.pos m) d Hd) as H2.
    apply IZR_le in H1. apply IZR_lt in H2.
    rewrite mult_IZR in H1, H2. unfold Z.succ in H2.
    unfold F2R. rewrite Hb. split.
    + apply Rmult_le_reg_r with (IZR d); [exact HdR|].
      rewrite Rmult_assoc, Rinv_l by lra. lra.
    + apply Rmult_lt_reg_r with (IZR d); [exact HdR|].
      rewrite Rmult_assoc, Rinv_l by lra. lra.
Qed.

Lemma trunc_mag_bounds m e n :
  F2R (Z.pos m) e < IZR (n + 1) -> (0 <= PyNum.trunc_mag m e <= n)%Z.
Proof.
  intros H. destruct (trunc_mag_spec m e) as [Hlo _]. split.
  - unfold PyNum.trunc_mag. destruct (Z.leb_spec 0 e).
    + apply Z.mul_nonneg_nonneg; [lia|apply Z.pow_nonneg; lia].
    + apply Z.div_pos; [lia|apply Z.pow_pos_nonneg; lia].
  - assert (IZR (PyNum.trunc_mag m e) < IZR (n + 1)) as Hlt%lt_IZR by lra.
    lia.
Qed.

(** What validity says about a finite number. *)
Lemma bounded_mantissa m e :
  SpecFloat.bounded prec emax m e = true ->
  (Z.pos m < 2 ^ 53)%Z /\ (emin <= e)%Z /\
  (emin < e -> 2 ^ 52 <= Z.pos m)%Z.
Proof.
  unfold SpecFloat.bounded, canonical_mantissa, fexp.
  intros [Hc _]%andb_true_iff. apply Z.eqb_eq in Hc.
  pose proof (digits2_pos_bounds m) as [Hlo Hhi].
  change (SpecFloat.emin prec emax) with (-1074)%Z in *.
  change prec with 53%Z in *.
  split; [|split; [lia|]].
  - eapply Z.lt_le_trans; [exact Hhi|].
    apply Z.pow_le_mono_r; lia.
  - intros He. etransitivity; [|exact Hlo].
    apply Z.pow_le_mono_r; lia.
Qed.

Lemma F2R_normal_step m1 e1 m2 e2 :
  (Z.pos m1 <= 2 ^ 53)%Z -> (2 ^ 52 <= Z.pos m2)%Z -> (e1 < e2)%Z ->
  F2R (Z.pos m1) e1 <= F2R (Z.pos m2) e2.
Proof.
  intros H1 H2 He.
  apply Rle_trans with (F2R (2 ^ 53) e1); [now apply F2R_le|].
  apply Rle_trans with (F2R (2 ^ 52) (e1 + 1)).
  - rewrite <- F2R_shift by lia. apply F2R_le. reflexivity.
  - apply Rle_trans with (F2R (2 ^ 52) e2).
    + unfold F2R. apply Rmult_le_compat_l; [apply IZR_le; lia|].
      apply bpow_le. lia.
    + now apply F2R_le.
Qed.

(** [t < a] on a normal [t] and a valid [a], read on the values. *)
Lemma SFltb_true_lower mt et a :
  (Z.pos mt + 1 <= 2 ^ 53)%Z -> (emin <= et)%Z ->
  valid_binary a = true ->
  SFltb (S754_finite false mt et) a = true ->
  a = S754_infinity false \/
  exists ma ea, a = S754_finite false ma ea /\
                F2R (Z.pos mt + 1) et <= F2R (Z.pos ma) ea.
Proof.
  intros Hmt Het Hv. unfold SFltb, SFcompare.
  destruct a as [s|s| |s ma ea]; try discriminate.
  - destruct s; [discriminate|auto].
  - destruct s; [discriminate|]. intros H. right. exists ma, ea.
    split; [reflexivity|]. simpl in Hv.
    apply bounded_mantissa in Hv as (Hma & Hea & Hnorm).
    destruct (Z.compare_spec et ea) as [->|Hlt|Hgt]; try discriminate.
    + apply F2R_le.
      destruct (Pos.compare_cont Eq mt ma) eqn:E; try discriminate.
      change (Pos.compare_cont Eq mt ma) with (Pos.compare mt ma) in E.
      change (mt < ma)%positive in E. lia.
    + change (Z.pos mt + 1)%Z with (Z.pos (mt + 1)).
      apply F2R_normal_step; [lia| |exact Hlt]. apply Hnorm. lia.
Qed.

Lemma SFltb_false_upper mt et ma ea :
  (2 ^ 52 <= Z.pos mt)%Z ->
  SpecFloat.bounded prec emax ma ea = true ->
  SFltb (S754_finite false mt et) (S754_finite false ma ea) = false ->
  F2R (Z.pos ma) ea <= F2R (Z.pos mt) et.
Proof.
  intros Hmt (Hma & Hea & Hnorm)%bounded_mantissa.
  unfold SFltb, SFcompare.
  destruct (Z.compare_spec et ea) as [->|Hlt|Hgt]; try discriminate.
  - intros H. apply F2R_le.
    destruct (Pos.compare_cont Eq mt ma) eqn:E; try discriminate.
    + change (Pos.compare_cont Eq mt ma) with (Pos.compare mt ma) in E. apply Pos.compare_eq_iff in E. lia.
    + change (Pos.compare_cont Eq mt ma) with (Pos.compare mt ma) in E. apply Pos.compare_gt_iff in E. lia.
  - intros _. apply F2R_normal_step; [lia|exact Hmt|exact Hgt].
Qed.

Lemma shl_align_spec mx ex ex' :
  let '(m, e) := shl_align mx ex ex' in
  F2R (Z.pos m) e = F2R (Z.pos mx) ex /\ (e = ex \/ e = ex')%Z /\ (e <= ex)%Z.
Proof.
  unfold shl_align. destruct (ex' - ex)%Z as [|d|d] eqn:E.
  - split; [reflexivity|lia].
  - split; [reflexivity|lia].
  - split; [|lia].
    change (Pos.iter xO mx d) with (shift_pos d mx).
    rewrite shift_pos_correct, Z.pow_pos_fold, Z.mul_comm.
    rewrite F2R_shift by lia. f_equal. lia.
Qed.

(** [float(n)] of a positive int below [2^53] is a positive finite
    number. *)
Lemma float_of_int_finite n :
  (0 < n < 2 ^ 53)%Z ->
  exists m e, Prim2SF (PyNum.float_of_int n) = S754_finite false m e.
Proof.
  intros Hn. unfold PyNum.float_of_int.
  destruct (Z.ltb_spec n 0) as [?|_]; [lia|].
  rewrite of_uint63_spec, of_Z_spec.
  rewrite Z.mod_small by (change wB with (2 ^ 63)%Z; lia).
  destruct n as [|p|p]; try lia. unfold binary_normalize, binary_round.
  pose proof (shl_align_spec p 0 (fexp prec emax (Z.pos (digits2_pos p) + 0)))
    as Hal.
  destruct (shl_align _ _ _) as [mz ez]. destruct Hal as (Hv & Hez & Hez0).
  assert (Hemin : (emin <= ez)%Z).
  { unfold fexp in Hez.
    change (SpecFloat.emin prec emax) with (-1074)%Z in *. lia. }
  pose proof (round_aux_nonzero (Z.pos mz) ez loc_Exact) as Hnz.
  pose proof (round_aux_upper (Z.pos mz) ez loc_Exact ltac:(lia)) as Hup.
  cbv zeta in Hup.
  destruct (binary_round_aux prec emax false (Z.pos mz) ez loc_Exact)
    as [s|s| |s m e].
  - exfalso. apply (Hnz s); [lia|exact Hemin|reflexivity].
  - exfalso. destruct Hup as [_ Hup].
    assert (Hw : F2R (Z.pos mz) ez < IZR (2 ^ 53)).
    { rewrite Hv. unfold F2R. change (bpow 0) with 1. rewrite Rmult_1_r.
      apply IZR_lt. lia. }
    assert (Hu : bpow (ez + fexp_shift (Z.pos mz) ez) <= IZR (2 ^ 53)).
    { destruct (round_exponent_cases (Z.pos mz) ez) as [->|[->| ->]].
      - rewrite <- (bpow_IZR 53) by lia. apply bpow_le. lia.
      - pose proof (F2R_digits_lower (Z.pos mz) ez ltac:(lia)) as Hd.
        apply Rle_trans with (bpow (Zdigits2 (Z.pos mz) - 1 + ez)); [|lra].
        apply bpow_le. change prec with 53%Z. lia.
      - rewrite <- (bpow_IZR 53) by lia. apply bpow_le.
        change emin with (-1074)%Z. lia. }
    assert (H972 : IZR (2 ^ 53) + IZR (2 ^ 53) < bpow 972).
    { rewrite <- plus_IZR. replace (2 ^ 53 + 2 ^ 53)%Z with (2 ^ 54)%Z by reflexivity.
      rewrite <- (bpow_IZR 54) by lia.
      apply Rlt_le_trans with (bpow 55); [|apply bpow_le; lia].
      rewrite !bpow_IZR by lia. apply IZR_lt. reflexivity. }
    lra.
  - contradiction.
  - destruct Hup as [-> _]. eauto.
Qed.

Lemma bpow_emin_small : bpow emin <= bpow (-60).
Proof. apply bpow_le. change emin with (-1074)%Z. lia. Qed.

Lemma Prim2SF_zero : Prim2SF PrimFloat.zero = S754_zero false.
Proof. reflexivity. Qed.

Lemma F2R_pos m e : 0 < F2R (Z.pos m) e.
Proof.
  unfold F2R. apply Rmult_lt_0_compat; [now apply IZR_lt|apply bpow_pos].
Qed.

(** The branch of line 56: the source is relatively wider. *)
Lemma wide_branch tw th mtw etw mt et :
  Prim2SF (PyNum.float_of_int tw) = S754_finite false mtw etw ->
  (Z.pos mt + 1 <= 2 ^ 53)%Z -> (emin <= et)%Z -> (0 <= th)%Z ->
  F2R (Z.pos mtw) etw / F2R (Z.pos mt + 1) et * (1 + bpow (-52))
    + bpow (-60) < IZR (th + 1) ->
  IZR (th + 1) <= bpow 972 ->
  forall t a : float,
    Prim2SF t = S754_finite false mt et ->
    PyNum.float_gt a t = true ->
    exists q nh,
      PyNum.int_div_float tw a = Ok q /\
      PyNum.int_of_float q = Ok nh /\ (0 <= nh <= th)%Z.
Proof.
  intros Htw Hmt Het Hth Hnum Hbig t a Ht Hgt.
  unfold PyNum.float_gt in Hgt. rewrite FloatAxioms.ltb_spec, Ht in Hgt.
  pose proof (Prim2SF_valid a) as Hv.
  unfold PyNum.int_div_float.
  rewrite FloatAxioms.eqb_spec, Prim2SF_zero.
  unfold PyNum.int_of_float.
  destruct (SFltb_true_lower mt et (Prim2SF a) Hmt Het Hv Hgt)
    as [Ha|(ma & ea & Ha & Hlow)]; rewrite Ha.
  - cbn [SFeqb SFcompare]. eexists. exists 0%Z.
    split; [reflexivity|]. rewrite FloatAxioms.div_spec, Htw, Ha.
    cbn. split; [reflexivity|lia].
  - cbn [SFeqb SFcompare]. eexists.
    cut (exists nh,
            match Prim2SF (PyNum.float_of_int tw / a) with
            | S754_zero _ => Ok 0%Z
            | S754_infinity _ =>
                Raise (Exn "OverflowError"
                           "cannot convert float infinity to integer")
            | S754_nan =>
                Raise (Exn "ValueError"
                           "cannot convert float NaN to integer")
            | S754_finite s m e =>
                Ok (if s then (- PyNum.trunc_mag m e)%Z
                    else PyNum.trunc_mag m e)
            end = Ok nh /\ (0 <= nh <= th)%Z).
    { intros (nh & H1 & H2). exists nh. split; [reflexivity|]. now split. }
    rewrite FloatAxioms.div_spec, Htw, Ha.
    pose proof (SF64div_upper mtw etw ma ea) as Hup. cbv zeta in Hup.
    pose proof (F2R_pos mtw etw) as Hx1.
    pose proof (F2R_pos ma ea) as Hva.
    assert (Hc : 0 < F2R (Z.pos mt + 1) et).
    { change (Z.pos mt + 1)%Z with (Z.pos (mt + 1)). apply F2R_pos. }
    assert (Hx : F2R (Z.pos mtw) etw / F2R (Z.pos ma) ea
                 <= F2R (Z.pos mtw) etw / F2R (Z.pos mt + 1) et).
    { unfold Rdiv. apply Rmult_le_compat_l; [lra|].
      apply Rinv_le_contravar; assumption. }
    pose proof bpow_emin_small as Hem. pose proof (bpow_pos (-52)) as H52.
    assert (HU : F2R (Z.pos mtw) etw / F2R (Z.pos ma) ea * (1 + bpow (-52))
                 + bpow emin < IZR (th + 1)) by nra.
    destruct (SF64div (S754_finite false mtw etw) (S754_finite false ma ea))
      as [s|s| |s m e].
    + exists 0%Z. split; [reflexivity|lia].
    + exfalso. destruct Hup as [_ Hup]. lra.
    + contradiction.
    + destruct Hup as [-> Hup]. eexists. split; [reflexivity|].
      apply trunc_mag_bounds. lra.
Qed.

(** The branch of line 60: the source is relatively taller, or equal. *)
Lemma tall_branch tw th mth eth mt et :
  Prim2SF (PyNum.float_of_int th) = S754_finite false mth eth ->
  (2 ^ 52 <= Z.pos mth)%Z -> (2 ^ 52 <= Z.pos mt)%Z -> (0 <= tw)%Z ->
  F2R (Z.pos mth) eth * F2R (Z.pos mt) et * (1 + bpow (-52))
    + bpow (-60) < IZR (tw + 1) ->
  IZR (tw + 1) <= bpow 972 ->
  forall t a : float,
    Prim2SF t = S754_finite false mt et ->
    PyNum.float_gt a t = false ->
    (Prim2SF a = S754_zero false \/
     (exists m e, Prim2SF a = S754_finite false m e) \/
     Prim2SF a = S754_infinity false) ->
    exists nw,
      PyNum.int_of_float (PyNum.int_mul_float th a) = Ok nw /\
      (0 <= nw <= tw)%Z.
Proof.
  intros Hth Hmth Hmt Htw Hnum Hbig t a Ht Hgt Ha.
  unfold PyNum.float_gt in Hgt. rewrite FloatAxioms.ltb_spec, Ht in Hgt.
  pose proof (Prim2SF_valid a) as Hv.
  unfold PyNum.int_of_float, PyNum.int_mul_float.
  rewrite FloatAxioms.mul_spec, Hth.
  destruct Ha as [Ha|[(ma & ea & Ha)|Ha]]; rewrite Ha in *.
  - cbn. exists 0%Z. split; [reflexivity|lia].
  - simpl in Hv.
    pose proof (SFltb_false_upper mt et ma ea Hmt Hv Hgt) as Hle.
    pose proof (SF64mul_upper mth eth ma ea Hmth) as Hup. cbv zeta in Hup.
    pose proof (F2R_pos mth eth) as Hx1.
    pose proof (F2R_pos ma ea) as Hva.
    pose proof bpow_emin_small as Hem. pose proof (bpow_pos (-52)) as H52.
    assert (Hx : F2R (Z.pos mth) eth * F2R (Z.pos ma) ea
                 <= F2R (Z.pos mth) eth * F2R (Z.pos mt) et).
    { apply Rmult_le_compat_l; lra. }
    assert (HU : F2R (Z.pos mth) eth * F2R (Z.pos ma) ea * (1 + bpow (-52))
                 + bpow emin < IZR (tw + 1)).
    { apply Rle_lt_trans with
        (F2R (Z.pos mth) eth * F2R (Z.pos mt) et * (1 + bpow (-52))
         + bpow (-60)); [|exact Hnum].
      apply Rplus_le_compat; [|exact Hem].
      apply Rmult_le_compat_r; lra. }
    destruct (SF64mul (S754_finite false mth eth) (S754_finite false ma ea))
      as [s|s| |s m e].
    + exists 0%Z. split; [reflexivity|lia].
    + exfalso. destruct Hup as [_ Hup]. lra.
    + contradiction.
    + destruct Hup as [-> Hup]. eexists. split; [reflexivity|].
      apply trunc_mag_bounds. lra.
  - discriminate Hgt.
Qed.

(** [w / h] on two positive ints is a non-negative number or infinity. *)
Lemma aspect_ratio_sign w h :
  (0 < w < 2 ^ 53)%Z -> (0 < h < 2 ^ 53)%Z ->
  let a := PrimFloat.div (PyNum.float_of_int w) (PyNum.float_of_int h) in
  Prim2SF a = S754_zero false \/
  (exists m e, Prim2SF a = S754_finite false m e) \/
  Prim2SF a = S754_infinity false.
Proof.
  intros Hw Hh a. unfold a. rewrite FloatAxioms.div_spec.
  destruct (float_of_int_finite w Hw) as (mw & ew & ->).
  destruct (float_of_int_finite h Hh) as (mh & eh & ->).
  pose proof (SF64div_upper mw ew mh eh) as Hup. cbv zeta in Hup.
  destruct (SF64div (S754_finite false mw ew) (S754_finite false mh eh))
    as [s|s| |s m e].
  - subst s. auto.
  - destruct Hup as [-> _]. auto.
  - contradiction.
  - destruct Hup as [-> _]. eauto.
Qed.

End Rounding.

(** * The letterbox size *)

Section Letterbox.
Import PyNum PIL ImageProcessor FloatSem.

(** The letterbox size fits the target, for a target whose binary64
    constants satisfy the numeric side conditions. *)
Lemma scaled_size_fits_target tw th mtw etw mth eth mt et :
  0 < tw -> 0 < th ->
  Prim2SF (PyNum.float_of_int tw) = S754_finite false mtw etw ->
  Prim2SF (PyNum.float_of_int th) = S754_finite false mth eth ->
  Prim2SF (PrimFloat.div (PyNum.float_of_int tw) (PyNum.float_of_int th))
  = S754_finite false mt et ->
  2 ^ 52 <= Z.pos mth -> 2 ^ 52 <= Z.pos mt -> Z.pos mt + 1 <= 2 ^ 53 ->
  emin <= et ->
  (F2R (Z.pos mtw) etw / F2R (Z.pos mt + 1) et * (1 + bpow (-52))
   + bpow (-60) < IZR (th + 1))%R ->
  (F2R (Z.pos mth) eth * F2R (Z.pos mt) et * (1 + bpow (-52))
   + bpow (-60) < IZR (tw + 1))%R ->
  (IZR (th + 1) <= bpow 972)%R -> (IZR (tw + 1) <= bpow 972)%R ->
  forall iw ih,
    0 < iw < 2 ^ 53 -> 0 < ih < 2 ^ 53 ->
    exists nw nh,
      scaled_size (iw, ih) (tw, th) = Ok (nw, nh) /\
      0 <= nw <= tw /\ 0 <= nh <= th /\ (nw = tw \/ nh = th).
Proof.
  intros Htw Hth E1 E2 E3 Hmth Hmt Hmt' Het R1 R2 B1 B2 iw ih Hiw Hih.
  unfold scaled_size, PyNum.int_truediv.
  destruct (Z.eqb_spec ih 0) as [?|_]; [lia|].
  destruct (Z.eqb_spec th 0) as [?|_]; [lia|].
  cbn [result_bind].
  set (a := PrimFloat.div (PyNum.float_of_int iw) (PyNum.float_of_int ih)).
  set (t := PrimFloat.div (PyNum.float_of_int tw) (PyNum.float_of_int th)).
  destruct (PyNum.float_gt a t) eqn:Egt.
  - destruct (wide_branch tw th mtw etw mt et E1 Hmt' Het ltac:(lia) R1 B1
                t a E3 Egt) as (q & nh & -> & Hq & Hnh).
    cbn [result_bind]. rewrite Hq. cbn [result_bind].
    exists tw, nh. repeat split; auto; lia.
  - destruct (tall_branch tw th mth eth mt et E2 Hmth Hmt ltac:(lia) R2 B2
                t a E3 Egt (aspect_ratio_sign iw ih Hiw Hih))
      as (nw & -> & Hnw).
    cbn [result_bind]. exists nw, th. repeat split; auto; lia.
Qed.

Lemma bpow_972_big n : (n <= 2 ^ 60)%Z -> (IZR n <= bpow 972)%R.
Proof.
  intros H. apply Rle_trans with (bpow 60).
  - rewrite bpow_IZR by lia. now apply IZR_le.
  - apply bpow_le. lia.
Qed.

Lemma F2R_neg_exp m k :
  (0 <= k)%Z -> F2R m (- k) = (IZR m / IZR (2 ^ k))%R.
Proof. intros H. unfold F2R. now rewrite bpow_neg_IZR. Qed.

Ltac table_numbers :=
  repeat match goal with
         | |- context [F2R ?m (Z.neg ?p)] =>
             change (F2R m (Z.neg p)) with (F2R m (- Z.pos p));
             rewrite (F2R_neg_exp m (Z.pos p)) by lia
         | |- context [bpow (Z.neg ?p)] =>
             change (bpow (Z.neg p)) with (bpow (- Z.pos p));
             rewrite (bpow_neg_IZR (Z.pos p)) by lia
         end;
  repeat match goal with
         | |- context [IZR (2 ^ ?k)] =>
             let v := eval vm_compute in (2 ^ k)%Z in
             change (2 ^ k)%Z with v
         | |- context [IZR (?a + ?b)] =>
             let v := eval vm_compute in (a + b)%Z in
             change (a + b)%Z with v
         end;
  lra.

Ltac table_entry tw th :=
  let s1 := eval vm_compute in (Prim2SF (PyNum.float_of_int tw)) in
  let s2 := eval vm_compute in (Prim2SF (PyNum.float_of_int th)) in
  let s3 := eval vm_compute in
        (Prim2SF (PrimFloat.div (PyNum.float_of_int tw)
                                (PyNum.float_of_int th))) in
  match s1 with
  | S754_finite false ?mtw ?etw =>
      match s2 with
      | S754_finite false ?mth ?eth =>
          match s3 with
          | S754_finite false ?mt ?et =>
              apply (scaled_size_fits_target tw th mtw etw mth eth mt et);
              [ lia | lia
              | vm_compute; reflexivity | vm_compute; reflexivity
              | vm_compute; reflexivity
              | vm_compute; discriminate | vm_compute; discriminate
              | vm_compute; discriminate | vm_compute; discriminate
              | table_numbers | table_numbers
              | apply bpow_972_big; vm_compute; discriminate
              | apply bpow_972_big; vm_compute; discriminate ]
          end
      end
  end.


Lemma scaled_size_fits image_type tw th :
  DIMENSIONS !! image_type = Some (tw, th) ->
  forall iw ih,
    0 < iw < 2 ^ 53 -> 0 < ih < 2 ^ 53 ->
    exists nw nh,
      scaled_size (iw, ih) (tw, th) = Ok (nw, nh) /\
      0 <= nw <= tw /\ 0 <= nh <= th /\ (nw = tw \/ nh = th).
Proof.
  intros H%DIMENSIONS_entries.
  repeat (apply elem_of_cons in H as [H | H];
          [injection H as _ -> ->;
           match goal with
           | |- forall iw ih, _ -> _ -> exists nw nh,
                 scaled_size _ (?a, ?b) = _ /\ _ => table_entry a b
           end |]).
  now apply elem_of_nil in H.
Qed.

(** C9: for a source whose sides are positive (and below [2^53], as every
    size Pillow can hold is) and a type of the table, the letterbox branch
    computes a size that fits the target on both sides, so the paste
    origin is non-negative and the pasted box lies inside the canvas. *)
Theorem letterbox_stays_inside image_type tw th iw ih :
  DIMENSIONS !! image_type = Some (tw, th) ->
  0 < iw < 2 ^ 53 -> 0 < ih < 2 ^ 53 ->
  exists nw nh,
    scaled_size (iw, ih) (tw, th) = Ok (nw, nh) /\
    0 <= nw <= tw /\ 0 <= nh <= th /\
    let '(left_, top_) := paste_origin (tw, th) (nw, nh) in
    0 <= left_ /\ 0 <= top_ /\ left_ + nw <= tw /\ top_ + nh <= th.
Proof.
  intros Hty Hiw Hih.
  destruct (scaled_size_fits image_type tw th Hty iw ih Hiw Hih)
    as (nw & nh & Hs & Hnw & Hnh & _).
  exists nw, nh. split; [exact Hs|]. split; [exact Hnw|]. split; [exact Hnh|].
  unfold paste_origin. cbn [fst snd].
  pose proof (Z.div_pos (tw - nw) 2 ltac:(lia) ltac:(lia)).
  pose proof (Z.div_pos (th - nh) 2 ltac:(lia) ltac:(lia)).
  pose proof (Z.mul_div_le (tw - nw) 2 ltac:(lia)).
  pose proof (Z.mul_div_le (th - nh) 2 ltac:(lia)).
  lia.
Qed.

Lemma scaled_size_inv iw ih tw th nw nh :
  scaled_size (iw, ih) (tw, th) = Ok (nw, nh) ->
  exists aspect_ratio target_ratio,
    int_truediv iw ih = Ok aspect_ratio /\
    int_truediv tw th = Ok target_ratio /\
    if float_gt aspect_ratio target_ratio
    then nw = tw /\
         exists q, int_div_float tw aspect_ratio = Ok q /\
                   int_of_float q = Ok nh
    else nh = th /\
         int_of_float (int_mul_float th aspect_ratio) = Ok nw.
Proof.
  unfold scaled_size, result_bind.
  destruct (int_truediv iw ih) as [a|]; [|discriminate].
  destruct (int_truediv tw th) as [t|]; [|discriminate].
  intros H. exists a, t. split; [reflexivity|]. split; [reflexivity|].
  destruct (float_gt a t).
  - destruct (int_div_float tw a) as [q|]; [|discriminate].
    destruct (int_of_float q) as [n|] eqn:E; [|discriminate].
    injection H as <- <-. eauto.
  - destruct (int_of_float _) as [n|] eqn:E; [|discriminate].
    injection H as <- <-. auto.
Qed.

Lemma int_of_float_truncates x n :
  int_of_float x = Ok n ->
  match Prim2SF x with
  | S754_zero _ => n = 0
  | S754_finite false m e =>
      (IZR n <= F2R (Z.pos m) e < IZR n + 1)%R
  | S754_finite true m e =>
      (IZR n - 1 < - F2R (Z.pos m) e <= IZR n)%R
  | _ => False
  end.
Proof.
  unfold int_of_float. destruct (Prim2SF x) as [s|s| |s m e]; try discriminate.
  - now intros [= <-].
  - intros [= <-]. pose proof (trunc_mag_spec m e) as [H1 H2].
    rewrite plus_IZR in H2.
    destruct s; [rewrite opp_IZR|]; lra.
Qed.

(** C2, amended: the scaled size is obtained with [int()], which drops the
    fraction, where the claim says [round()]: when the source ratio
    exceeds the target ratio the width is the target width and the height
    is [int(target_width / ratio)], otherwise the height is the target
    height and the width is [int(target_height * ratio)].  For a 1920x1080
    source and the 140x200 target this gives 140x78, pasted at (0, 61). *)
Theorem scaled_size_truncates :
  (forall iw ih tw th nw nh,
      scaled_size (iw, ih) (tw, th) = Ok (nw, nh) ->
      exists aspect_ratio target_ratio,
        int_truediv iw ih = Ok aspect_ratio /\
        int_truediv tw th = Ok target_ratio /\
        if float_gt aspect_ratio target_ratio
        then nw = tw /\
             exists q, int_div_float tw aspect_ratio = Ok q /\
                       int_of_float q = Ok nh
        else nh = th /\
             int_of_float (int_mul_float th aspect_ratio) = Ok nw) /\
  (forall x n m e,
      int_of_float x = Ok n -> Prim2SF x = S754_finite false m e ->
      (IZR n <= F2R (Z.pos m) e < IZR n + 1)%R) /\
  scaled_size (1920, 1080) (140, 200) = Ok (140, 78) /\
  paste_origin (140, 200) (140, 78) = (0, 61).
Proof.
  split; [exact scaled_size_inv|]. split.
  - intros x n m e Hn Hx. apply int_of_float_truncates in Hn.
    now rewrite Hx in Hn.
  - split; vm_compute; reflexivity.
Qed.

(** C2 as claimed fails: on a 1920x1080 source and the 140x200 target the
    source computes a height of 78 and a top of 61, where rounding, and
    the claim, give 79 and 60. *)
Lemma scaled_size_is_not_rounded :
  scaled_size (1920, 1080) (140, 200) = Ok (140, 78) /\
  Spec.scaled_size_rounded (1920, 1080) (140, 200) = Ok (140, 79) /\
  paste_origin (140, 200) (140, 78) = (0, 61) /\
  ~ (exists new_width new_height,
        scaled_size (1920, 1080) (140, 200) = Ok (new_width, new_height) /\
        new_width = 140 /\ new_height = 79 /\
        paste_origin (140, 200) (new_width, new_height) = (0, 60)).
Proof.
  split; [vm_compute; reflexivity|].
  split; [vm_compute; reflexivity|].
  split; [vm_compute; reflexivity|].
  intros (nw & nh & H & _ & -> & _).
  vm_compute in H. discriminate H.
Qed.
End Letterbox.

(** * What a conversion and a batch leave on disk *)

Section Safety.
Import PyStr PyNum PIL ImageProcessor Outcomes.

Variable convert_data : image -> string -> Z -> Z -> color.
Variable lanczos : image -> Z * Z -> Z -> Z -> color.
Variable UI : Type.
Variable callback : option (string -> bool -> string -> UI -> UI).

Local Abbreviation convert := (convert_resize_image convert_data lanczos).
Local Abbreviation step := (batch_step convert_data lanczos UI callback).
Local Abbreviation batch := (batch_process convert_data lanczos UI callback).
Local Abbreviation stem input_file :=
  (fst (OsPath.splitext (OsPath.basename input_file))).

(** X1: [convert_resize_image] writes at [output_path] and nowhere
    else, and writes nothing at all when it returns [False]. *)
Theorem convert_touches_only_output
    input_path output_path image_type maintain_aspect w :
  let r := convert_resize_image convert_data lanczos
             input_path output_path image_type maintain_aspect w in
  denied (snd r) = denied w /\
  (forall p, p <> output_path -> files (snd r) !! p = files w !! p) /\
  (fst (fst r) = false -> files (snd r) = files w) /\
  (fst (fst r) = true ->
   exists img, files (snd r) !! output_path = Some (Raster img)).
Proof.
  intros r. unfold r.
  destruct (convert _ _ _ _ w) as [[[|] msg] w'] eqn:E; simpl.
  - apply convert_success in E as (im & tg & out & _ & _ & _ & _ & _ & _ & ->).
    simpl. split; [reflexivity|]. split; [|split; [discriminate|]].
    + intros p Hp. now rewrite lookup_insert_ne.
    + intros _. exists out. apply lookup_insert_eq.
  - apply convert_failure in E as ->. simpl.
    repeat split; auto. discriminate.
Qed.

(** One turn of the loop either fails and leaves the disk alone, or
    creates one file that was not there. *)
Lemma step_creates d ty ma f w ui r w' ui' :
  step d ty ma f (w, ui) = Some (r, (w', ui')) ->
  ui' = (if is_supported_format f then notify callback ui r else ui) /\
  (snd (fst r) = false /\ files w' = files w \/
   exists img,
     snd (fst r) = true /\ files w !! snd r = None /\
     files w' = <[snd r := Raster img]> (files w)).
Proof.
  destruct (is_supported_format f) eqn:E.
  - destruct (step_supported convert_data lanczos UI callback d ty ma f w ui E)
      as (k & _ & Hfree & _ & H).
    cbv zeta in H. rewrite H.
    destruct (convert f _ ty ma w) as [[ok msg] v] eqn:Ec. simpl.
    intros [= <- <- <-]. split; [reflexivity|]. simpl. destruct ok; simpl.
    + right.
      apply convert_success in Ec as (?&?&out&_&_&_&_&_&_&->).
      exists out. simpl. repeat split; auto.
      unfold path_exists in Hfree. apply bool_decide_eq_false in Hfree.
      now apply eq_None_not_Some.
    + left. apply convert_failure in Ec as ->. auto.
  - rewrite step_unsupported by exact E. intros [= <- <- <-]. auto.
Qed.

Lemma batch_creates d ty ma l : forall w ui rs w' ui',
  batch l d ty ma (w, ui) = Some (rs, (w', ui')) ->
  files w ⊆ files w' /\
  base.size (files w')
  = (base.size (files w) + length (successful_outputs rs))%nat /\
  NoDup (successful_outputs rs) /\
  (forall p, p ∈ successful_outputs rs ->
             files w !! p = None /\
             exists img, files w' !! p = Some (Raster img)) /\
  ui' = fold_left (notify callback)
          (List.filter (fun r : outcome => is_supported_format (fst (fst r))) rs)
          ui.
Proof.
  induction l as [|f l IH]; intros w ui rs w' ui'.
  - intros [= <- <- <-]. unfold successful_outputs. simpl.
    split; [reflexivity|]. split; [lia|]. split; [apply NoDup_nil_2|].
    split; [|reflexivity].
    intros p Hp. now apply elem_of_nil in Hp.
  - rewrite batch_cons.
    destruct (step d ty ma f (w, ui)) as [[r [w1 ui1]]|] eqn:Es;
      [|discriminate].
    destruct (batch l d ty ma (w1, ui1)) as [[rs1 [w2 ui2]]|] eqn:Eb;
      [|discriminate].
    simpl. intros [= <- <- <-].
    destruct (IH _ _ _ _ _ Eb) as (Hsub & Hsize & Hnd & Hnew & Hui).
    pose proof (step_input _ _ _ _ _ _ _ _ _ _ _ Es) as Hin.
    apply step_creates in Es as [Hui1 Hcase].
    assert (Hcb : ui2 = fold_left (notify callback)
              (List.filter
                 (fun r0 : outcome => is_supported_format (fst (fst r0)))
                 (r :: rs1)) ui).
    { simpl. rewrite Hin. rewrite Hui, Hui1.
      now destruct (is_supported_format f). }
    unfold successful_outputs in *. simpl.
    destruct Hcase as [[Hr Hf]|(img & Hr & Hnone & Hf)]; rewrite Hr.
    + rewrite Hf in *. split; [exact Hsub|]. split; [exact Hsize|].
      split; [exact Hnd|]. split; [exact Hnew|exact Hcb].
    + simpl. rewrite Hf in *.
      assert (Hsub0 : files w ⊆ <[snd r := Raster img]> (files w))
        by now apply insert_subseteq.
      split; [now transitivity (<[snd r := Raster img]> (files w))|].
      split.
      { rewrite Hsize, map_size_insert_None by exact Hnone. lia. }
      split.
      { apply NoDup_cons. split; [|exact Hnd].
        intros Hp. apply Hnew in Hp as [Hp _].
        now rewrite lookup_insert_eq in Hp. }
      split; [|exact Hcb].
      intros p [->|Hp]%elem_of_cons.
      * split; [exact Hnone|]. exists img.
        eapply lookup_weaken; [apply lookup_insert_eq|exact Hsub].
      * destruct (Hnew p Hp) as [Hn He]. split; [|exact He].
        eapply lookup_weaken_None; eauto.
Qed.

(** X2: a batch never overwrites or removes what was on disk: every
    path that existed before it still holds what it held. *)
Theorem batch_keeps_existing_files d ty ma l w ui rs w' ui' p n :
  batch_process convert_data lanczos UI callback l d ty ma (w, ui)
  = Some (rs, (w', ui')) ->
  files w !! p = Some n ->
  files w' !! p = Some n.
Proof.
  intros Hb Hp. apply batch_creates in Hb as (Hsub & _).
  eapply lookup_weaken; eauto.
Qed.

(** X3: the successful outcomes of a batch name pairwise distinct
    files, none of which existed before and all of which exist after; the
    disk grows by exactly their number. *)
Theorem batch_outputs_fresh_and_distinct d ty ma l w ui rs w' ui' :
  batch l d ty ma (w, ui) = Some (rs, (w', ui')) ->
  NoDup (successful_outputs rs) /\
  (forall p, p ∈ successful_outputs rs ->
             files w !! p = None /\
             exists img, files w' !! p = Some (Raster img)) /\
  Z.of_nat (base.size (files w'))
  = Z.of_nat (base.size (files w)) + success_count rs.
Proof.
  intros Hb. apply batch_creates in Hb as (_ & Hsize & Hnd & Hnew & _).
  split; [exact Hnd|]. split; [exact Hnew|].
  unfold success_count. unfold successful_outputs in Hsize.
  rewrite length_map in Hsize. rewrite Hsize. apply Nat2Z.inj_add.
Qed.

(** X4: the callback is called with the outcomes of the inputs the
    format gate accepts, in order, and with no other: a refused input
    appears in the result list only. *)
Theorem callback_sees_supported_outcomes d ty ma l w ui rs w' ui' :
  batch l d ty ma (w, ui) = Some (rs, (w', ui')) ->
  ui' = fold_left (notify callback)
          (List.filter (fun r : outcome => is_supported_format (fst (fst r))) rs)
          ui.
Proof. intros Hb. now apply batch_creates in Hb as (_ & _ & _ & _ & H). Qed.
End Safety.

(** * When a conversion succeeds, and what it keeps of the source *)

Section Modes.
Import PyStr PyNum PIL ImageProcessor.

Variable convert_data : image -> string -> Z -> Z -> color.
Variable lanczos : image -> Z * Z -> Z -> Z -> color.

Local Abbreviation convert := (convert_resize_image convert_data lanczos).




Lemma scaled_size_of_target image_type tw th :
  DIMENSIONS !! image_type = Some (tw, th) ->
  scaled_size (tw, th) (tw, th) = Ok (tw, th).
Proof.
  intros H%DIMENSIONS_entries.
  repeat (apply elem_of_cons in H as [H | H];
          [injection H as _ -> ->; vm_compute; reflexivity |]).
  now apply elem_of_nil in H.
Qed.

(** X7: a source that already has the size of the target is not
    resampled and gets no bars: in both modes every pixel written is the
    pixel of the source (after its conversion to RGB, if it was not
    RGB). *)
Theorem target_sized_source_is_copied
    input_path output_path image_type maintain_aspect w w' msg im tw th :
  files w !! input_path = Some (Raster im) ->
  DIMENSIONS !! image_type = Some (tw, th) ->
  size im = (tw, th) ->
  convert input_path output_path image_type maintain_aspect w
  = ((true, msg), w') ->
  exists out_img,
    files w' !! output_path = Some (Raster out_img) /\
    size out_img = (tw, th) /\
    (forall x y, 0 <= x < tw -> 0 <= y < th ->
                 getpixel out_img x y
                 = getpixel (as_rgb convert_data im) x y) /\
    (mode im = "RGB" -> as_rgb convert_data im = im).
Proof.
  intros Hin Hty Hsz
    (im' & tg & out & Hin' & Hty' & Hres & _ & _ & _ & ->)%convert_success.
  rewrite Hin in Hin'. injection Hin' as <-.
  rewrite Hty in Hty'. injection Hty' as <-.
  exists out. split; [simpl; apply lookup_insert_eq|].
  assert (Hcopy : Image_resize lanczos (as_rgb convert_data im) (tw, th)
                  = Ok (as_rgb convert_data im)).
  { unfold Image_resize. rewrite as_rgb_size, Hsz.
    unfold size_eqb. cbn [fst snd]. now rewrite !Z.eqb_refl. }
  assert (Hrgb : mode im = "RGB" -> as_rgb convert_data im = im).
  { intros Hm. unfold as_rgb. now rewrite Hm. }
  destruct maintain_aspect.
  - unfold letterbox in Hres.
    rewrite as_rgb_size, Hsz, (scaled_size_of_target _ _ _ Hty) in Hres.
    cbn [result_bind] in Hres. rewrite Hcopy in Hres.
    cbn [result_bind] in Hres. injection Hres as <-.
    split; [reflexivity|]. split; [|exact Hrgb].
    intros x y Hx Hy. unfold paste_origin. cbn [fst snd].
    rewrite !Z.sub_diag. change (0 / 2) with 0. simpl.
    unfold in_box, width, height. rewrite as_rgb_size, Hsz. cbn [fst snd].
    destruct (Z.leb_spec 0 x), (Z.ltb_spec x (0 + tw)),
      (Z.leb_spec 0 y), (Z.ltb_spec y (0 + th)); try lia.
    simpl. now rewrite !Z.sub_0_r.
  - rewrite Hcopy in Hres. injection Hres as <-.
    split; [now rewrite as_rgb_size|]. split; [reflexivity|exact Hrgb].
Qed.

(** X8: the scaled source always spans the target on one axis, so the
    black bars lie on at most one pair of opposite sides. *)
Theorem bars_on_one_axis_only image_type tw th iw ih :
  DIMENSIONS !! image_type = Some (tw, th) ->
  0 < iw < 2 ^ 53 -> 0 < ih < 2 ^ 53 ->
  exists nw nh,
    scaled_size (iw, ih) (tw, th) = Ok (nw, nh) /\
    (nw = tw /\ fst (paste_origin (tw, th) (nw, nh)) = 0 \/
     nh = th /\ snd (paste_origin (tw, th) (nw, nh)) = 0).
Proof.
  intros Hty Hiw Hih.
  destruct (scaled_size_fits image_type tw th Hty iw ih Hiw Hih)
    as (nw & nh & Hs & _ & _ & Hside).
  exists nw, nh. split; [exact Hs|].
  unfold paste_origin. cbn [fst snd].
  destruct Hside as [-> | ->]; [left|right];
    (split; [reflexivity|]); now rewrite Z.sub_diag.
Qed.
End Modes.

(** * Dropped files and the selection *)

Section Dropped.
Import PyStr PyText App ImageProcessor.

Lemma append_nil_r s : s +:+ EmptyString = s.
Proof.
  induction s as [|c s IH]; [reflexivity|].
  rewrite append_cons. now rewrite IH.
Qed.

Lemma brace_loop_outside s : forall rest file_paths current,
  has_char "{" s = false -> has_char "}" s = false ->
  brace_loop (s +:+ rest) file_paths current false
  = brace_loop rest file_paths current false.
Proof.
  induction s as [|c s IH]; intros rest fp cur H1 H2; [reflexivity|].
  rewrite append_cons. simpl in H1, H2 |- *.
  apply orb_false_iff in H1 as [-> H1]. apply orb_false_iff in H2 as [-> H2].
  now apply IH.
Qed.

Lemma brace_loop_inside s : forall rest file_paths current,
  has_char "{" s = false -> has_char "}" s = false ->
  brace_loop (s +:+ rest) file_paths current true
  = brace_loop rest file_paths (current +:+ s) true.
Proof.
  induction s as [|c s IH]; intros rest fp cur H1 H2.
  - now rewrite append_nil_l, append_nil_r.
  - rewrite append_cons. simpl in H1, H2 |- *.
    apply orb_false_iff in H1 as [-> H1]. apply orb_false_iff in H2 as [-> H2].
    rewrite IH by assumption. f_equal.
    now rewrite <- append_assoc.
Qed.

Lemma brace_loop_braced items : forall file_paths current,
  Forall (fun it : string * string =>
            (has_char "{" (fst it) = false /\ has_char "}" (fst it) = false) /\
            (has_char "{" (snd it) = false /\ has_char "}" (snd it) = false))
         items ->
  brace_loop (braced items) file_paths current false
  = (file_paths ++ map snd items)%list.
Proof.
  induction items as [|[before path] items IH]; intros fp cur Hall.
  - simpl. now rewrite app_nil_r.
  - apply Forall_cons in Hall as [[[Hb1 Hb2] [Hp1 Hp2]] Hall].
    cbn [braced fst snd] in *.
    rewrite brace_loop_outside by assumption.
    change ("{" +:+ path +:+ "}" +:+ braced items)
      with (String "{" (path +:+ String "}" (braced items))).
    cbn [brace_loop]. change (Ascii.eqb "{" "{") with true. cbv iota.
    rewrite brace_loop_inside by assumption.
    cbn [brace_loop]. change (Ascii.eqb "}" "{") with false.
    change (Ascii.eqb "}" "}") with true. cbv iota.
    rewrite append_nil_l, IH by exact Hall.
    now rewrite <- app_assoc.
Qed.

Lemma endswith_append s t c :
  t <> EmptyString -> endswith (s +:+ t) c = endswith t c.
Proof.
  intros Ht. induction s as [|a s IH]; [reflexivity|].
  rewrite append_cons. cbn [endswith].
  destruct (s +:+ t) eqn:E; [|exact IH].
  destruct s; [rewrite append_nil_l in E; contradiction|].
  rewrite append_cons in E. discriminate.
Qed.

Lemma braced_endswith items :
  items <> [] -> endswith (braced items) "}" = true.
Proof.
  induction items as [|[before path] items IH]; [contradiction|].
  intros _. cbn [braced].
  change (before +:+ "{" +:+ path +:+ "}" +:+ braced items)
    with (before +:+ String "{" (path +:+ String "}" (braced items))).
  rewrite endswith_append by discriminate.
  change (String "{" (path +:+ String "}" (braced items)))
    with (String "{" path +:+ String "}" (braced items)).
  rewrite endswith_append by discriminate.
  destruct items as [|[b p] items]; [reflexivity|].
  specialize (IH ltac:(discriminate)).
  cbn [braced] in *. destruct b; exact IH.
Qed.

(** X9: in the braces format [_drop] takes exactly the texts between
    braces, in order; whatever stands between two groups, a path that has
    no braces of its own for instance, is ignored. *)
Theorem drop_braced_paths path0 rest :
  has_char "{" path0 = false -> has_char "}" path0 = false ->
  Forall (fun it : string * string =>
            (has_char "{" (fst it) = false /\ has_char "}" (fst it) = false) /\
            (has_char "{" (snd it) = false /\ has_char "}" (snd it) = false))
         rest ->
  drop_paths (braced ((EmptyString, path0) :: rest)) = path0 :: map snd rest.
Proof.
  intros H1 H2 Hrest. unfold drop_paths.
  rewrite braced_endswith by discriminate.
  change (startswith (braced ((EmptyString, path0) :: rest)) "{") with true.
  cbn [andb].
  rewrite (brace_loop_braced ((EmptyString, path0) :: rest)); [reflexivity|].
  apply Forall_cons. split; [|exact Hrest]. simpl. auto.
Qed.

Lemma split_ws_from_word w : forall rest cur,
  no_space w = true ->
  split_ws_from (w +:+ rest) cur = split_ws_from rest (cur +:+ w).
Proof.
  induction w as [|c w IH]; intros rest cur Hw.
  - now rewrite append_nil_l, append_nil_r.
  - rewrite append_cons. unfold no_space in Hw. simpl in Hw.
    apply andb_true_iff in Hw as [Hc Hw]. apply negb_true_iff in Hc.
    cbn [split_ws_from]. rewrite Hc, IH by exact Hw.
    now rewrite <- append_assoc.
Qed.

Lemma eqb_nonempty (w : string) :
  w <> EmptyString -> String.eqb w EmptyString = false.
Proof. now destruct w. Qed.

Lemma split_ws_spaced words :
  Forall (fun w => w <> EmptyString /\ no_space w = true) words ->
  split_ws (spaced words) = words.
Proof.
  unfold split_ws. induction words as [|w words IH]; intros Hall;
    [reflexivity|].
  apply Forall_cons in Hall as [[Hne Hw] Hall].
  destruct words as [|w2 words].
  - cbn [spaced]. rewrite <- (append_nil_r w) at 1.
    rewrite split_ws_from_word by exact Hw.
    cbn [split_ws_from]. rewrite append_nil_l.
    now rewrite eqb_nonempty.
  - change (spaced (w :: w2 :: words))
      with (w +:+ String " " (spaced (w2 :: words))).
    rewrite split_ws_from_word by exact Hw.
    cbn [split_ws_from]. change (is_space " ") with true. cbv iota.
    rewrite append_nil_l, eqb_nonempty by exact Hne.
    f_equal. now apply IH.
Qed.

Lemma no_space_snoc cur c :
  no_space cur = true -> is_space c = false ->
  no_space (cur +:+ String c EmptyString) = true.
Proof.
  unfold no_space. intros Hcur Hc. induction cur as [|a cur IH]; simpl.
  - now rewrite Hc.
  - simpl in Hcur. apply andb_true_iff in Hcur as [-> Hcur]. now apply IH.
Qed.

Lemma split_ws_from_pieces s : forall cur,
  no_space cur = true ->
  Forall (fun w => w <> EmptyString /\ no_space w = true)
         (split_ws_from s cur).
Proof.
  induction s as [|c s IH]; intros cur Hcur; cbn [split_ws_from].
  - destruct (String.eqb_spec cur EmptyString); [constructor|].
    repeat constructor; assumption.
  - destruct (is_space c) eqn:Ec.
    + destruct (String.eqb_spec cur EmptyString).
      * now apply IH.
      * constructor; [auto|now apply IH].
    + apply IH. now apply no_space_snoc.
Qed.

(** X10: outside the braces format [_drop] cuts the data at whitespace:
    names without blanks, separated by single spaces, come back as they
    are, and no piece it produces is empty or contains a blank, so a path
    with a space in it never arrives as one file. *)
Theorem drop_spaced_paths :
  (forall words,
      Forall (fun w => w <> EmptyString /\ no_space w = true) words ->
      startswith (spaced words) "{" && endswith (spaced words) "}" = false ->
      drop_paths (spaced words) = words) /\
  (forall data,
      startswith data "{" && endswith data "}" = false ->
      Forall (fun w => w <> EmptyString /\ no_space w = true)
             (drop_paths data)).
Proof.
  split.
  - intros words Hall Hfmt. unfold drop_paths. rewrite Hfmt.
    now apply split_ws_spaced.
  - intros data Hfmt. unfold drop_paths. rewrite Hfmt.
    now apply split_ws_from_pieces.
Qed.
End Dropped.

Section Selection.
Import PyStr PyText App ImageProcessor.

Lemma py_index_in_range {A} (l : list A) i :
  0 <= i < Z.of_nat (length l) -> is_Some (py_index l i).
Proof.
  intros Hi. unfold py_index.
  destruct (Z.leb_spec 0 i), (Z.ltb_spec i (Z.of_nat (length l))); try lia.
  simpl. apply lookup_lt_is_Some. lia.
Qed.

Lemma update_preview_consistent s :
  Forall (fun f => is_supported_format f = true) (input_files s) ->
  (input_files s <> [] ->
   0 <= current_preview_index s < Z.of_nat (length (input_files s))) ->
  files_label s = count_label (length (input_files s)) ->
  exists s', _update_preview s = Ok s' /\ consistent s' /\
             input_files s' = input_files s /\
             current_preview_index s' = current_preview_index s.
Proof.
  intros Hsup Hidx Hlab. unfold _update_preview.
  destruct (input_files s) as [|f l] eqn:E.
  - eexists. split; [reflexivity|]. unfold consistent. simpl.
    repeat split; auto; congruence.
  - destruct (py_index_in_range (f :: l) (current_preview_index s))
      as [cur ->]; [now apply Hidx|].
    eexists. split; [reflexivity|]. unfold consistent. simpl.
    repeat split; auto; now apply Hidx.
Qed.

Lemma select_consistent valid_files s :
  Forall (fun f => is_supported_format f = true) valid_files ->
  exists s', select valid_files s = Ok s' /\ consistent s'.
Proof.
  intros Hsup. unfold select.
  destruct (update_preview_consistent
              (Selection valid_files 0 (count_label (length valid_files))
                 (preview_index_label s))) as (s' & H & Hc & _);
    simpl; auto.
  - intros Hne. destruct valid_files; [contradiction|]. simpl. lia.
  - eauto.
Qed.

Lemma filter_supported l :
  Forall (fun f => is_supported_format f = true)
         (List.filter is_supported_format l).
Proof.
  apply List.Forall_forall. intros f Hf. now apply filter_In in Hf.
Qed.

Lemma handle_consistent e s :
  consistent s -> exists s', handle e s = Ok s' /\ consistent s'.
Proof.
  intros Hc. pose proof Hc as (Hsup & Hidx & Hlab & Hprev).
  destruct e as [data|files|folder walk| | | |]; cbn [handle].
  - unfold _drop.
    destruct (List.filter is_supported_format (drop_paths data)) eqn:E;
      [eauto|].
    rewrite <- E. apply select_consistent, filter_supported.
  - unfold _select_files. destruct files as [|f files]; [eauto|].
    apply select_consistent, filter_supported.
  - unfold _select_folder. destruct (String.eqb folder EmptyString); [eauto|].
    apply select_consistent.
    apply List.Forall_forall. intros f Hf.
    apply in_flat_map in Hf as ([root files] & _ & Hf).
    now apply filter_In in Hf.
  - unfold _clear_selection. eexists. split; [reflexivity|].
    unfold consistent. simpl. repeat split; auto; congruence.
  - unfold _prev_preview.
    destruct (input_files s) as [|f l] eqn:E; [eauto|].
    destruct (Z.ltb_spec 0 (current_preview_index s)); [|eauto].
    destruct (update_preview_consistent
                (Selection (f :: l) (current_preview_index s - 1)
                   (files_label s) (preview_index_label s)))
      as (s' & H' & Hc' & _); simpl; auto.
    + intros Hne. specialize (Hidx Hne). simpl in Hidx. lia.
    + eauto.
  - unfold _next_preview.
    destruct (input_files s) as [|f l] eqn:E; [eauto|].
    destruct (Z.ltb_spec (current_preview_index s)
                (Z.of_nat (length (f :: l)) - 1)); [|eauto].
    destruct (update_preview_consistent
                (Selection (f :: l) (current_preview_index s + 1)
                   (files_label s) (preview_index_label s)))
      as (s' & H' & Hc' & _); simpl; auto.
    + intros Hne. specialize (Hidx Hne). simpl in *. lia.
    + eauto.
  - destruct (update_preview_consistent s) as (s' & H' & Hc' & _); eauto.
Qed.

(** X11: whatever the user does, in whatever order, no handler raises: the
    selection holds supported files only, the preview index stays inside
    it (so the lookup of the current file, which no [try] guards, never
    fails), and the two labels show the number of files and the position
    of the preview. *)
Theorem selection_stays_consistent events :
  exists s, run events initial = Ok s /\ consistent s.
Proof.
  assert (Hgen : forall s0, consistent s0 ->
                            exists s, run events s0 = Ok s /\ consistent s).
  { induction events as [|e events IH]; intros s0 Hc; [simpl; eauto|].
    destruct (handle_consistent e s0 Hc) as (s1 & H1 & Hc1).
    cbn [run]. rewrite H1. cbn [result_bind]. now apply IH. }
  apply Hgen. unfold consistent, initial. simpl.
  repeat split; auto; congruence.
Qed.
End Selection.

(** * The history file: what is written is what is read *)
Section History.
Import PyStr PyText App.

Lemma has_char_append c s t :
  has_char c (s +:+ t) = has_char c s || has_char c t.
Proof.
  induction s as [|a s IH]; [reflexivity|].
  rewrite append_cons. simpl. rewrite IH. now rewrite orb_assoc.
Qed.

(** ** [split] *)

Lemma split_char_nonempty sep s : split_char sep s <> [].
Proof.
  destruct s as [|c s]; simpl; [discriminate|].
  destruct (Ascii.eqb c sep); [discriminate|].
  destruct (split_char sep s); discriminate.
Qed.

Lemma split_char_whole sep s :
  has_char sep s = false -> split_char sep s = [s].
Proof.
  induction s as [|c s IH]; simpl; [reflexivity|].
  intros H. apply orb_false_elim in H as [Hc Hs].
  rewrite Hc. now rewrite (IH Hs).
Qed.

Lemma split_char_field sep s t :
  has_char sep s = false ->
  split_char sep (s +:+ String sep t) = s :: split_char sep t.
Proof.
  induction s as [|c s IH]; intros H.
  - rewrite append_nil_l. simpl. now rewrite Ascii.eqb_refl.
  - simpl in H. apply orb_false_elim in H as [Hc Hs].
    rewrite append_cons. simpl. rewrite Hc. now rewrite (IH Hs).
Qed.

(** ** [strip] *)

Lemma lstrip_by_clean space s :
  all_chars (fun c => negb (space c)) s = true -> lstrip_by space s = s.
Proof.
  destruct s as [|c s]; [reflexivity|].
  simpl. intros H. apply andb_prop in H as [Hc _].
  now destruct (space c).
Qed.

Lemma lstrip_append_by space s t :
  s <> EmptyString -> lstrip_by space s = s -> lstrip_by space (s +:+ t) = s +:+ t.
Proof.
  destruct s as [|c s]; [congruence|]. intros _.
  rewrite append_cons. simpl. destruct (space c); [|reflexivity].
  intros H. apply (f_equal String.length) in H. simpl in H.
  assert (Hle : forall u, (String.length (lstrip_by space u) <= String.length u)%nat).
  { induction u as [|a u IHu]; simpl; [lia|].
    destruct (space a); simpl; lia. }
  specialize (Hle s). lia.
Qed.

Lemma lstrip_append s t :
  s <> EmptyString -> lstrip s = s -> lstrip (s +:+ t) = s +:+ t.
Proof. apply lstrip_append_by. Qed.

Lemma rstrip_cons_by space c s :
  space c = false -> rstrip_by space (String c s) = String c (rstrip_by space s).
Proof. intros H. simpl. rewrite H. now destruct (rstrip_by space s). Qed.

Lemma rstrip_cons c s :
  is_space c = false -> rstrip (String c s) = String c (rstrip s).
Proof. apply rstrip_cons_by. Qed.

Lemma rstrip_append_by space s t :
  rstrip_by space t <> EmptyString -> rstrip_by space (s +:+ t) = s +:+ rstrip_by space t.
Proof.
  intros Ht. induction s as [|c s IH]; [reflexivity|].
  rewrite !append_cons. simpl. rewrite IH.
  destruct (s +:+ rstrip_by space t) eqn:E; [|reflexivity].
  destruct s; [|discriminate]. now rewrite append_nil_l in E.
Qed.

Lemma rstrip_append s t :
  rstrip t <> EmptyString -> rstrip (s +:+ t) = s +:+ rstrip t.
Proof. apply rstrip_append_by. Qed.

Lemma rstrip_space_end_by space s c :
  space c = true -> rstrip_by space (s +:+ String c EmptyString) = rstrip_by space s.
Proof.
  intros Hc. induction s as [|a s IH].
  - rewrite append_nil_l. simpl. now rewrite Hc.
  - rewrite append_cons. simpl. now rewrite IH.
Qed.

Lemma rstrip_space_end s c :
  is_space c = true -> rstrip (s +:+ String c EmptyString) = rstrip s.
Proof. apply rstrip_space_end_by. Qed.

Lemma rstrip_by_clean space s :
  all_chars (fun c => negb (space c)) s = true -> rstrip_by space s = s.
Proof.
  induction s as [|c s IH]; [reflexivity|].
  simpl. intros H. apply andb_prop in H as [Hc Hs].
  rewrite (IH Hs). destruct (space c); [discriminate|]. now destruct s.
Qed.

(** ** [readlines] *)

Lemma readlines_from_line body rest :
  has_char LF body = false -> has_char CR body = false ->
  forall cur,
    readlines_from (body +:+ String LF rest) cur
    = (cur +:+ body +:+ String LF EmptyString)
        :: readlines_from rest EmptyString.
Proof.
  induction body as [|c body IH]; intros Hlf Hcr cur.
  - rewrite !append_nil_l. reflexivity.
  - simpl in Hlf, Hcr.
    apply orb_false_elim in Hlf as [Hc1 Hlf].
    apply orb_false_elim in Hcr as [Hc2 Hcr].
    rewrite append_cons. simpl. rewrite Hc1, Hc2.
    rewrite (IH Hlf Hcr). f_equal.
    rewrite <- append_assoc. reflexivity.
Qed.

(** ** [str] and [int] *)

Lemma digit_of_char d :
  (d < 10)%N -> digit_value (pretty_N_char d) = Some (Z.of_N d).
Proof.
  intros H.
  assert (d = 0 \/ d = 1 \/ d = 2 \/ d = 3 \/ d = 4 \/ d = 5 \/ d = 6
          \/ d = 7 \/ d = 8 \/ d = 9)%N
    as [->|[->|[->|[->|[->|[->|[->|[->|[->| ->]]]]]]]]] by lia;
    reflexivity.
Qed.

Lemma digit_is_plain c d :
  digit_value c = Some d ->
  is_int_space c = false /\ Ascii.eqb c "|" = false /\ Ascii.eqb c LF = false
  /\ Ascii.eqb c CR = false /\ Ascii.eqb c "-" = false
  /\ Ascii.eqb c "+" = false.
Proof.
  unfold digit_value, is_int_space.
  destruct (_ && _)%N eqn:E; [|discriminate]. intros _.
  apply andb_prop in E as [E1 E2].
  apply N.leb_le in E1. apply N.leb_le in E2.
  assert (Hne : forall k : N, (k < 48 \/ 57 < k < 256)%N ->
                 Ascii.eqb c (ascii_of_N k) = false).
  { intros k Hk. apply Ascii.eqb_neq. intros ->.
    rewrite N_ascii_embedding in E1, E2 by lia. lia. }
  split.
  { repeat match goal with
           | |- context [(?a <=? ?b)%N] =>
               destruct (N.leb_spec a b); try lia
           | |- context [(?a =? ?b)%N] =>
               destruct (N.eqb_spec a b); try lia
           end; reflexivity. }
  split; [exact (Hne 124%N ltac:(lia))|].
  split; [exact (Hne 10%N ltac:(lia))|].
  split; [exact (Hne 13%N ltac:(lia))|].
  split; [exact (Hne 45%N ltac:(lia))|].
  exact (Hne 43%N ltac:(lia)).
Qed.

(** The characters of a numeral. *)
Definition numeral (s : string) : Prop :=
  all_chars (fun c => match digit_value c with Some _ => true | None => false end) s
  = true.

Lemma pretty_go_spec (x : N) :
  forall s acc b,
    (0 < x)%N ->
    int_digits (pretty_N_go x s) acc b
    = int_digits s (acc * 10 ^ Z.of_nat (String.length (pretty_N_go x EmptyString))
                    + Z.of_N x) true
    /\ pretty_N_go x s = pretty_N_go x EmptyString +:+ s
    /\ numeral (pretty_N_go x EmptyString)
    /\ pretty_N_go x EmptyString <> EmptyString.
Proof.
  induction (N.lt_wf_0 x) as [x _ IH]. intros s acc b Hx.
  assert (Hd : (x mod 10 < 10)%N) by (apply N.mod_lt; lia).
  pose proof (digit_of_char _ Hd) as Hdig.
  assert (Hxd : Z.of_N x = 10 * Z.of_N (x / 10) + Z.of_N (x mod 10)).
  { rewrite <- (N2Z.inj_mul 10), <- N2Z.inj_add. f_equal.
    apply N.div_mod. lia. }
  rewrite !(pretty_N_go_step x) by assumption.
  destruct (N.eq_dec (x / 10) 0)%N as [E|E].
  - rewrite E in *. rewrite !pretty_N_go_0. simpl String.length.
    split; [|split; [|split]].
    + simpl. rewrite Hdig. f_equal. lia.
    + reflexivity.
    + unfold numeral. simpl. now rewrite Hdig.
    + discriminate.
  - assert (Hlt : (x / 10 < x)%N) by (apply N.div_lt; lia).
    assert (Hpos : (0 < x / 10)%N) by lia.
    set (c := pretty_N_char (x mod 10)) in *.
    destruct (IH _ Hlt (String c s) acc b Hpos) as (H1 & H2 & _ & _).
    destruct (IH _ Hlt (String c EmptyString) acc b Hpos)
      as (_ & H3 & H4 & H5).
    split; [|split; [|split]].
    + rewrite H1. simpl. rewrite Hdig. f_equal.
      rewrite H3, length_append. simpl String.length.
      rewrite Nat2Z.inj_add, Z.pow_add_r by lia.
      change (10 ^ Z.of_nat 1) with 10. lia.
    + rewrite H2, H3. rewrite <- append_assoc. reflexivity.
    + rewrite H3. unfold numeral in *.
      clear - H4 Hdig.
      induction (pretty_N_go (x / 10)%N EmptyString) as [|a u IHu].
      * rewrite append_nil_l. simpl. now rewrite Hdig.
      * rewrite append_cons. simpl in *.
        apply andb_prop in H4 as [Ha Hu]. rewrite Ha. now apply IHu.
    + rewrite H3. intros Hn. apply (f_equal String.length) in Hn.
      rewrite length_append in Hn. simpl in Hn. lia.
Qed.

Lemma numeral_no_space s :
  numeral s -> all_chars (fun c => negb (is_int_space c)) s = true.
Proof.
  unfold numeral. induction s as [|c s IH]; [reflexivity|].
  simpl. intros H. apply andb_prop in H as [Hc Hs].
  destruct (digit_value c) eqn:E; [|discriminate].
  destruct (digit_is_plain _ _ E) as (-> & _). simpl. auto.
Qed.

Lemma numeral_plain s : numeral s -> plain s = true.
Proof.
  unfold numeral, plain. induction s as [|c s IH]; [reflexivity|].
  simpl. intros H. apply andb_prop in H as [Hc Hs].
  destruct (digit_value c) eqn:E; [|discriminate].
  destruct (digit_is_plain _ _ E) as (_ & -> & -> & -> & _). simpl. auto.
Qed.

(** [int(str(n)) == n], and the numeral is a plain field. *)
Lemma int_of_str_of_int n :
  0 <= n ->
  int_of_str (str_of_int n) = Ok n /\ plain (str_of_int n) = true.
Proof.
  intros Hn. destruct n as [|p|p]; [split; reflexivity| |lia].
  unfold str_of_int, pretty, pretty_Z, pretty, pretty_positive, pretty,
    pretty_N.
  destruct (decide (N.pos p = 0%N)) as [E|_]; [discriminate|].
  destruct (pretty_go_spec (N.pos p) EmptyString 0 false ltac:(lia))
    as (H1 & _ & H3 & H4).
  split; [|now apply numeral_plain].
  unfold int_of_str.
  rewrite (lstrip_by_clean _ _ (numeral_no_space _ H3)).
  rewrite (rstrip_by_clean _ _ (numeral_no_space _ H3)).
  destruct (pretty_N_go (N.pos p) EmptyString) as [|c r] eqn:E;
    [congruence|].
  assert (Hc : exists d, digit_value c = Some d).
  { unfold numeral in H3. simpl in H3.
    destruct (digit_value c); [eauto|discriminate]. }
  destruct Hc as [d Hc]. destruct (digit_is_plain _ _ Hc)
    as (_ & _ & _ & _ & Hm & Hp).
  apply Ascii.eqb_neq in Hm, Hp.
  assert (Hsel : match String c r with
                 | String "-" r0 => (true, r0)
                 | String "+" r0 => (false, r0)
                 | _ => (false, String c r)
                 end = (false, String c r)).
  { destruct c as [[] [] [] [] [] [] [] []]; try reflexivity; congruence. }
  rewrite Hsel. rewrite H1. simpl. reflexivity.
Qed.

(** ** One line *)

Lemma rstrip_field_by space a c x :
  space c = false ->
  rstrip_by space (a +:+ String c x) = a +:+ String c (rstrip_by space x).
Proof.
  intros Hc. rewrite rstrip_append_by; rewrite (rstrip_cons_by _ _ _ Hc);
    [reflexivity|discriminate].
Qed.

Lemma rstrip_field a c x :
  is_space c = false ->
  rstrip (a +:+ String c x) = a +:+ String c (rstrip x).
Proof. apply rstrip_field_by. Qed.

Lemma lstrip_field a x :
  lstrip a = a -> lstrip (a +:+ String "|" x) = a +:+ String "|" x.
Proof.
  intros Ha. destruct a as [|c a]; [reflexivity|].
  apply lstrip_append; [discriminate|assumption].
Qed.

Lemma plain_parts s :
  plain s = true ->
  has_char "|" s = false /\ has_char LF s = false /\ has_char CR s = false.
Proof.
  unfold plain. intros H.
  apply andb_prop in H as [H H3]. apply andb_prop in H as [H1 H2].
  repeat split; now apply negb_true_iff.
Qed.

Lemma is_count_parts n : is_count n = true -> 0 <= n.
Proof. unfold is_count. intros H. apply andb_prop in H as [H _]. lia. Qed.

(** A line with its first five fields in order is read as those fields,
    and what follows up to the next bar as the directory. *)
Lemma parse_line_fields a b c n m x :
  lstrip a = a ->
  has_char "|" a = false -> has_char "|" b = false ->
  has_char "|" c = false -> 0 <= n -> 0 <= m ->
  parse_line
    (a +:+ String "|" (b +:+ String "|" (c +:+ String "|"
       (str_of_int n +:+ String "|" (str_of_int m +:+ String "|" x)))))
  = Ok (Some (Entry a b c n m (hd EmptyString (split_char "|" (rstrip x))))).
Proof.
  intros Hl Ha Hb Hc Hn Hm.
  destruct (int_of_str_of_int n Hn) as [In Pn].
  destruct (int_of_str_of_int m Hm) as [Im Pm].
  apply plain_parts in Pn as (Pn & _). apply plain_parts in Pm as (Pm & _).
  unfold parse_line, strip. rewrite (lstrip_field _ _ Hl).
  rewrite !rstrip_field by reflexivity.
  rewrite !split_char_field by assumption.
  destruct (split_char "|" (rstrip x)) as [|h t] eqn:E.
  { now apply split_char_nonempty in E. }
  cbn [length Nat.leb nth hd]. rewrite In, Im. reflexivity.
Qed.

Lemma history_line_body entry :
  history_line entry
  = timestamp entry +:+ String "|" (date entry +:+ String "|"
      (type entry +:+ String "|" (str_of_int (total entry) +:+ String "|"
         (str_of_int (success entry) +:+ String "|"
            (directory entry +:+ String LF EmptyString))))).
Proof. reflexivity. Qed.

Lemma parse_history_line entry :
  reloadable entry = true -> parse_line (history_line entry) = Ok (Some entry).
Proof.
  unfold reloadable. intros H.
  do 7 (apply andb_prop in H as [H ?]).
  repeat match goal with
         | P : plain _ = true |- _ => apply plain_parts in P as (? & ? & ?)
         | P : is_count _ = true |- _ => apply is_count_parts in P
         | P : String.eqb _ _ = true |- _ => apply String.eqb_eq in P
         end.
  rewrite history_line_body, parse_line_fields by assumption.
  rewrite rstrip_space_end by reflexivity.
  match goal with P : rstrip _ = _ |- _ => rewrite P end.
  rewrite split_char_whole by assumption. now destruct entry.
Qed.

Lemma history_line_one_line entry rest :
  has_char LF (directory entry) = false ->
  has_char CR (directory entry) = false ->
  plain (timestamp entry) = true -> plain (date entry) = true ->
  plain (type entry) = true ->
  0 <= total entry -> 0 <= success entry ->
  readlines_from (history_line entry +:+ rest) EmptyString
  = history_line entry :: readlines_from rest EmptyString.
Proof.
  intros D1 D2 Pa Pb Pc Hn Hm.
  apply plain_parts in Pa as (_ & A1 & A2).
  apply plain_parts in Pb as (_ & B1 & B2).
  apply plain_parts in Pc as (_ & C1 & C2).
  destruct (int_of_str_of_int _ Hn) as [_ Pn].
  destruct (int_of_str_of_int _ Hm) as [_ Pm].
  apply plain_parts in Pn as (_ & N1 & N2).
  apply plain_parts in Pm as (_ & M1 & M2).
  set (body := timestamp entry +:+ String "|" (date entry +:+ String "|"
      (type entry +:+ String "|" (str_of_int (total entry) +:+ String "|"
         (str_of_int (success entry) +:+ String "|" (directory entry)))))).
  assert (Hline : history_line entry = body +:+ String LF EmptyString).
  { rewrite history_line_body. unfold body.
    repeat (rewrite <- append_assoc; rewrite ?append_cons). reflexivity. }
  rewrite Hline at 1. rewrite <- append_assoc, append_cons, append_nil_l.
  rewrite readlines_from_line.
  - rewrite append_nil_l. now rewrite Hline.
  - unfold body. repeat (rewrite has_char_append; simpl).
    now rewrite A1, B1, C1, N1, M1, D1.
  - unfold body. repeat (rewrite has_char_append; simpl).
    now rewrite A2, B2, C2, N2, M2, D2.
Qed.

Lemma reloadable_one_line entry rest :
  reloadable entry = true ->
  readlines_from (history_line entry +:+ rest) EmptyString
  = history_line entry :: readlines_from rest EmptyString.
Proof.
  unfold reloadable. intros H.
  do 7 (apply andb_prop in H as [H ?]).
  repeat match goal with
         | P : is_count _ = true |- _ => apply is_count_parts in P
         end.
  match goal with
  | P : plain (directory _) = true |- _ =>
      apply plain_parts in P as (_ & ? & ?)
  end.
  now apply history_line_one_line.
Qed.

Lemma readlines_history history rest :
  Forall (fun entry => reloadable entry = true) history ->
  readlines (history_text history +:+ rest)
  = (map history_line history ++ readlines rest)%list.
Proof.
  unfold readlines. induction 1 as [|entry history He _ IH];
    [reflexivity|].
  simpl history_text. rewrite <- append_assoc.
  rewrite (reloadable_one_line _ _ He). rewrite IH. reflexivity.
Qed.

Lemma load_lines_history history :
  Forall (fun entry => reloadable entry = true) history ->
  forall rest loaded,
    load_lines (map history_line history ++ rest)%list loaded
    = load_lines rest (loaded ++ history)%list.
Proof.
  induction 1 as [|entry history He _ IH]; intros rest loaded.
  - now rewrite app_nil_r.
  - simpl. rewrite (parse_history_line _ He). rewrite IH.
    now rewrite <- app_assoc.
Qed.

(** X12: a history of entries that a line can carry (no bar or end of
    line inside a field, no white space at the two ends of the line,
    counts as [len] gives them) is read back by [_load_history] exactly
    as [_save_history] wrote it, after what was already loaded. *)
Theorem saved_history_is_loaded_back history loaded file :
  Forall (fun entry => reloadable entry = true) history ->
  _load_history loaded (_save_history history true file)
  = (loaded ++ history)%list.
Proof.
  intros H. unfold _save_history, _load_history.
  rewrite <- (append_nil_r (history_text history)).
  rewrite (readlines_history _ _ H).
  rewrite (load_lines_history _ H). reflexivity.
Qed.

(** X13: a line on which [int()] refuses one of the two counts ends
    the loading: the entries before it are kept, every entry after it is
    lost, whatever it is. *)
Theorem bad_count_ends_the_loading history bad e rest loaded :
  Forall (fun entry => reloadable entry = true) history ->
  has_char LF bad = false -> has_char CR bad = false ->
  parse_line (bad +:+ String LF EmptyString) = Raise e ->
  _load_history loaded
    (Text (history_text history +:+ bad +:+ String LF rest))
  = (loaded ++ history)%list.
Proof.
  intros H Hlf Hcr Hbad. unfold _load_history.
  rewrite (readlines_history _ _ H). unfold readlines.
  rewrite (readlines_from_line _ _ Hlf Hcr), append_nil_l.
  rewrite (load_lines_history _ H). simpl. now rewrite Hbad.
Qed.

(** X14: a bar in the output directory is not escaped: of such an
    entry the directory comes back cut at its first bar. *)
Theorem directory_is_cut_at_a_bar entry d1 d2 loaded :
  directory entry = d1 +:+ String "|" d2 ->
  plain (timestamp entry) = true -> plain (date entry) = true ->
  plain (type entry) = true ->
  lstrip (timestamp entry) = timestamp entry ->
  is_count (total entry) = true -> is_count (success entry) = true ->
  has_char "|" d1 = false ->
  has_char LF (directory entry) = false ->
  has_char CR (directory entry) = false ->
  _load_history loaded (Text (history_line entry))
  = (loaded ++ [Entry (timestamp entry) (date entry) (type entry)
                  (total entry) (success entry) d1])%list.
Proof.
  intros Hd Pa Pb Pc Hl Hn Hm Hd1 D1 D2.
  apply is_count_parts in Hn, Hm.
  unfold _load_history, readlines.
  rewrite <- (append_nil_r (history_line entry)).
  rewrite history_line_one_line by assumption.
  simpl load_lines.
  apply plain_parts in Pa as (A & _). apply plain_parts in Pb as (B & _).
  apply plain_parts in Pc as (C & _).
  rewrite history_line_body, parse_line_fields by assumption.
  rewrite Hd. rewrite <- append_assoc, append_cons.
  rewrite rstrip_field by reflexivity.
  rewrite split_char_field by assumption. reflexivity.
Qed.

(** ** Short lines *)

Lemma split_char_length sep s :
  length (split_char sep s) = S (count_char sep s).
Proof.
  induction s as [|c s IH]; [reflexivity|]. simpl.
  destruct (Ascii.eqb c sep); simpl; [now rewrite IH|].
  destruct (split_char sep s); simpl in *; lia.
Qed.

Lemma count_char_lstrip_by space c s :
  (count_char c (lstrip_by space s) <= count_char c s)%nat.
Proof.
  induction s as [|a s IH]; simpl; [lia|].
  destruct (space a); simpl; lia.
Qed.

Lemma count_char_lstrip c s :
  (count_char c (lstrip s) <= count_char c s)%nat.
Proof. apply count_char_lstrip_by. Qed.

Lemma count_char_rstrip_by space c s :
  (count_char c (rstrip_by space s) <= count_char c s)%nat.
Proof.
  induction s as [|a s IH]; simpl; [lia|].
  destruct (rstrip_by space s) eqn:E.
  - destruct (space a); simpl in *; lia.
  - simpl in *. lia.
Qed.

Lemma count_char_rstrip c s :
  (count_char c (rstrip s) <= count_char c s)%nat.
Proof. apply count_char_rstrip_by. Qed.

Lemma load_lines_app before :
  forall after loaded,
    load_lines (before ++ after)%list loaded
    = match load_lines before loaded with
      | (loaded', None) => load_lines after loaded'
      | stopped => stopped
      end.
Proof.
  induction before as [|line before IH]; intros after loaded;
    [reflexivity|].
  simpl. destruct (parse_line line) as [[entry|]|e]; auto.
Qed.

(** X15: a line with fewer than five bars, an empty line among them,
    is passed over: the file is read as if the line were not there. *)
Theorem short_lines_are_passed_over before line after loaded :
  (count_char "|" line < 5)%nat ->
  load_lines (before ++ line :: after)%list loaded
  = load_lines (before ++ after)%list loaded.
Proof.
  intros H. rewrite !load_lines_app.
  destruct (load_lines before loaded) as [loaded' [e|]]; [reflexivity|].
  simpl. unfold parse_line. rewrite split_char_length.
  pose proof (count_char_rstrip "|" (lstrip line)).
  pose proof (count_char_lstrip "|" line).
  unfold strip.
  destruct (Nat.leb_spec 6 (S (count_char "|" (rstrip (lstrip line)))));
    [lia|reflexivity].
Qed.

End History.

(** * The history tree *)
Section HistoryTree.
Import PyStr PyText PIL App.

(** The search stops at the first entry that carries the timestamp. *)
Lemma find_directory_first before entry after :
  Forall (fun e => timestamp e <> timestamp entry) before ->
  find_directory (before ++ entry :: after)%list (timestamp entry)
  = Some (directory entry).
Proof.
  induction 1 as [|e before He _ IH]; simpl.
  - now rewrite String.eqb_refl.
  - apply String.eqb_neq in He. now rewrite He.
Qed.

Lemma tag_of_row history i entry :
  reverse history !! i = Some entry ->
  history_tags history !! i = Some (timestamp entry).
Proof.
  intros H. unfold history_tags.
  change (map timestamp (reverse history))
    with (timestamp <$> reverse history).
  now rewrite list_lookup_fmap, H.
Qed.

(** X16: while no two entries of the history carry the same timestamp,
    a double click on a row of the tree opens the directory of the entry
    the row shows, if that directory is still on disk. *)
Theorem history_row_opens_its_folder history i entry w :
  NoDup (map timestamp history) ->
  reverse history !! i = Some entry ->
  directory entry <> EmptyString ->
  path_exists (directory entry) w = true ->
  _open_history_folder (history_tags history !! i) history w
  = OpenFolder (directory entry).
Proof.
  intros Hnd Hrow Hne Hex. rewrite (tag_of_row _ _ _ Hrow).
  assert (Hin : entry ∈ history).
  { apply elem_of_reverse. eapply list_elem_of_lookup_2. exact Hrow. }
  apply list_elem_of_split in Hin as (before & after & ->).
  unfold _open_history_folder. rewrite find_directory_first.
  - apply String.eqb_neq in Hne. now rewrite Hne, Hex.
  - rewrite map_app in Hnd. apply NoDup_app in Hnd as (_ & Hdis & _).
    apply Forall_forall. intros e He Heq.
    apply (Hdis (timestamp e)).
    + change (map timestamp before) with (timestamp <$> before).
      apply list_elem_of_fmap. eauto.
    + simpl. rewrite Heq. apply list_elem_of_here.
Qed.

(** X17: of two entries that carry the same timestamp, as two batches
    of different types started within one second do, the rows of both
    open the directory of the older one. *)
Theorem equal_timestamps_open_the_older_folder
    before older between newer after w :
  timestamp older = timestamp newer ->
  Forall (fun e => timestamp e <> timestamp older) before ->
  directory older <> EmptyString ->
  path_exists (directory older) w = true ->
  _open_history_folder (Some (timestamp newer))
    (before ++ older :: between ++ newer :: after)%list w
  = OpenFolder (directory older).
Proof.
  intros Heq Hb Hne Hex. rewrite <- Heq.
  unfold _open_history_folder. rewrite find_directory_first by exact Hb.
  apply String.eqb_neq in Hne. now rewrite Hne, Hex.
Qed.

End HistoryTree.

(** * The preview thumbnail *)
Section Preview.
Import PyNum FloatSem App.

Lemma digits2_pos_iter p k :
  digits2_pos (Pos.iter xO p k) = (digits2_pos p + k)%positive.
Proof.
  induction k as [|k IH] using Pos.peano_ind.
  - simpl. lia.
  - rewrite Pos.iter_succ. simpl. rewrite IH. lia.
Qed.

Lemma shl_align_digits mx ex ex' :
  ex' <= ex ->
  let '(m, e) := shl_align mx ex ex' in
  e = ex' /\ Z.pos (digits2_pos m) = Z.pos (digits2_pos mx) + (ex - ex').
Proof.
  intros H. unfold shl_align. destruct (ex' - ex) as [|d|d] eqn:E.
  - split; lia.
  - lia.
  - split; [reflexivity|]. rewrite digits2_pos_iter. lia.
Qed.

(** A number that already has 53 digits is not rounded. *)
Lemma round_aux_exact m e :
  Z.pos (digits2_pos m) = 53 -> -1074 <= e <= 971 ->
  binary_round_aux prec emax false (Z.pos m) e loc_Exact
  = S754_finite false m e.
Proof.
  intros Hd He. unfold binary_round_aux, shr_fexp.
  simpl Zdigits2.
  assert (Hs : fexp prec emax (Z.pos (digits2_pos m) + e) - e = 0).
  { unfold fexp. rewrite Hd.
    change (SpecFloat.emin prec emax) with (-1074). change prec with 53.
    lia. }
  rewrite Hs. simpl. rewrite Hs. simpl.
  destruct (Z.leb_spec e (emax - prec)) as [|Hgt]; [reflexivity|].
  change (emax - prec) with 971 in Hgt. lia.
Qed.

(** [float(n)] is [n] itself below [2^53], with a full mantissa. *)
Lemma float_of_int_exact n :
  0 < n < 2 ^ 53 ->
  exists m e,
    Prim2SF (float_of_int n) = S754_finite false m e /\
    F2R (Z.pos m) e = IZR n /\ 2 ^ 52 <= Z.pos m.
Proof.
  intros Hn. unfold float_of_int.
  destruct (Z.ltb_spec n 0) as [?|_]; [lia|].
  rewrite of_uint63_spec, of_Z_spec.
  rewrite Z.mod_small by (change wB with (2 ^ 63)%Z; lia).
  destruct n as [|p|p]; try lia. unfold binary_normalize, binary_round.
  pose proof (digits2_pos_bounds p) as [Hlo Hhi].
  assert (Hd : Z.pos (digits2_pos p) <= 53).
  { destruct (Z.le_gt_cases (Z.pos (digits2_pos p)) 53) as [|Hgt]; [easy|].
    assert (2 ^ 53 <= 2 ^ (Z.pos (digits2_pos p) - 1))
      by (apply Z.pow_le_mono_r; lia).
    lia. }
  assert (Hf : fexp prec emax (Z.pos (digits2_pos p) + 0)
               = Z.pos (digits2_pos p) - 53).
  { unfold fexp. change (SpecFloat.emin prec emax) with (-1074).
    change prec with 53. lia. }
  rewrite Hf.
  pose proof (shl_align_spec p 0 (Z.pos (digits2_pos p) - 53)) as Hv.
  pose proof (shl_align_digits p 0 (Z.pos (digits2_pos p) - 53)
                ltac:(lia)) as Hdg.
  destruct (shl_align p 0 (Z.pos (digits2_pos p) - 53)) as [mz ez].
  destruct Hv as (Hv & _). destruct Hdg as (-> & Hdg).
  exists mz, (Z.pos (digits2_pos p) - 53).
  rewrite round_aux_exact by lia.
  split; [reflexivity|]. split.
  - rewrite Hv. unfold F2R, bpow. simpl. apply Rmult_1_r.
  - pose proof (digits2_pos_bounds mz) as [Hlo' _].
    replace (Z.pos (digits2_pos mz) - 1) with 52 in Hlo' by lia.
    exact Hlo'.
Qed.

(** ** Order *)

Lemma SFltb_false_bounded m1 e1 m2 e2 :
  SpecFloat.bounded prec emax m1 e1 = true ->
  SpecFloat.bounded prec emax m2 e2 = true ->
  SFltb (S754_finite false m1 e1) (S754_finite false m2 e2) = false ->
  (F2R (Z.pos m2) e2 <= F2R (Z.pos m1) e1)%R.
Proof.
  intros (H1 & He1 & Hn1)%bounded_mantissa (H2 & He2 & Hn2)%bounded_mantissa.
  unfold SFltb, SFcompare.
  destruct (Z.compare_spec e1 e2) as [->|Hlt|Hgt]; try discriminate.
  - intros H. apply F2R_le.
    destruct (Pos.compare_cont Eq m1 m2) eqn:E; try discriminate.
    + change (Pos.compare_cont Eq m1 m2) with (Pos.compare m1 m2) in E.
      apply Pos.compare_eq_iff in E. lia.
    + change (Pos.compare_cont Eq m1 m2) with (Pos.compare m1 m2) in E.
      apply Pos.compare_gt_iff in E. lia.
  - intros _. apply F2R_normal_step; [lia|apply Hn1; lia|exact Hgt].
Qed.

Lemma SFltb_true_bounded m1 e1 m2 e2 :
  SpecFloat.bounded prec emax m1 e1 = true ->
  SpecFloat.bounded prec emax m2 e2 = true ->
  SFltb (S754_finite false m1 e1) (S754_finite false m2 e2) = true ->
  (F2R (Z.pos m1) e1 <= F2R (Z.pos m2) e2)%R.
Proof.
  intros (H1 & He1 & Hn1)%bounded_mantissa (H2 & He2 & Hn2)%bounded_mantissa.
  unfold SFltb, SFcompare.
  destruct (Z.compare_spec e1 e2) as [->|Hlt|Hgt]; try discriminate.
  - intros H. apply F2R_le.
    destruct (Pos.compare_cont Eq m1 m2) eqn:E; try discriminate.
    change (Pos.compare_cont Eq m1 m2) with (Pos.compare m1 m2) in E.
    change (m1 < m2)%positive in E. lia.
  - intros _. apply F2R_normal_step; [lia|apply Hn2; lia|exact Hlt].
Qed.

(** A binary64 number that is zero, or positive and at most [B]. *)
Definition below (x : float) (B : R) : Prop :=
  Prim2SF x = S754_zero false \/
  exists m e, Prim2SF x = S754_finite false m e /\
              (F2R (Z.pos m) e <= B)%R.

Lemma py_min_below r1 r2 B1 B2 :
  below r1 B1 -> below r2 B2 ->
  below (py_min r1 r2) B1 /\ below (py_min r1 r2) B2.
Proof.
  intros H1 H2. unfold py_min. rewrite FloatAxioms.ltb_spec.
  pose proof (Prim2SF_valid r1) as V1. pose proof (Prim2SF_valid r2) as V2.
  unfold below in *.
  destruct H1 as [E1|(m1 & e1 & E1 & L1)], H2 as [E2|(m2 & e2 & E2 & L2)];
    rewrite E1, E2 in *.
  - cbn. rewrite E1. auto.
  - cbn. rewrite E1. auto.
  - cbn. rewrite E2. auto.
  - simpl in V1, V2.
    destruct (SFltb (S754_finite false m2 e2) (S754_finite false m1 e1))
      eqn:E.
    + pose proof (SFltb_true_bounded _ _ _ _ V2 V1 E).
      rewrite E2. split; right; exists m2, e2; split; auto; lra.
    + pose proof (SFltb_false_bounded _ _ _ _ V2 V1 E).
      rewrite E1. split; right; exists m1, e1; split; auto; lra.
Qed.

Local Open Scope R_scope.

(** [300 / n] *)
Lemma ratio_below n :
  (0 < n < 2 ^ 53)%Z ->
  exists r, int_truediv 300 n = Ok r /\
            below r (300 / IZR n * (1 + bpow (-52)) + bpow emin).
Proof.
  intros Hn. unfold int_truediv.
  destruct (Z.eqb_spec n 0) as [?|_]; [lia|].
  eexists. split; [reflexivity|]. unfold below.
  rewrite FloatAxioms.div_spec.
  destruct (float_of_int_exact 300 ltac:(lia)) as (ma & ea & -> & Va & _).
  destruct (float_of_int_exact n Hn) as (mn & en & -> & Vn & _).
  pose proof (SF64div_upper ma ea mn en) as Hup. cbv zeta in Hup.
  rewrite Va, Vn in Hup.
  assert (H1 : 1 <= IZR n) by (apply IZR_le; lia).
  assert (Hq : 0 < 300 / IZR n <= 300).
  { split.
    - apply Rdiv_lt_0_compat; lra.
    - apply Rmult_le_reg_r with (IZR n); [lra|].
      unfold Rdiv. rewrite Rmult_assoc, Rinv_l by lra. nra. }
  pose proof bpow_emin_small as Hem. pose proof (bpow_pos emin) as Hep.
  assert (H52 : 0 < bpow (-52) <= 1).
  { split; [apply bpow_pos|]. change 1 with (bpow 0). apply bpow_le. lia. }
  assert (H60 : bpow (-60) <= 1).
  { change 1 with (bpow 0). apply bpow_le. lia. }
  assert (H972 : 1000 < bpow 972).
  { apply Rlt_le_trans with (bpow 10); [|apply bpow_le; lia].
    rewrite bpow_IZR by lia. apply IZR_lt. reflexivity. }
  destruct (SF64div (S754_finite false ma ea) (S754_finite false mn en))
    as [s|s| |s m e].
  - subst s. auto.
  - exfalso. destruct Hup as [_ Hup]. nra.
  - contradiction.
  - destruct Hup as [-> Hup]. right. eauto.
Qed.

(** [int(n * a)] *)
Lemma scaled_side_below n a B :
  (0 < n < 2 ^ 53)%Z -> below a B ->
  IZR n * B * (1 + bpow (-52)) + bpow emin < 301 ->
  exists k, int_of_float (int_mul_float n a) = Ok k /\ (0 <= k <= 300)%Z.
Proof.
  intros Hn Ha HB. unfold int_of_float, int_mul_float.
  rewrite FloatAxioms.mul_spec.
  destruct (float_of_int_exact n Hn) as (mn & en & -> & Vn & Hmn).
  destruct Ha as [->|(m & e & -> & Ha)].
  - cbn. exists 0%Z. split; [reflexivity|lia].
  - pose proof (SF64mul_upper mn en m e Hmn) as Hup. cbv zeta in Hup.
    rewrite Vn in Hup.
    pose proof (F2R_pos m e) as Hp.
    assert (H1 : 1 <= IZR n) by (apply IZR_le; lia).
    pose proof (bpow_pos (-52)) as H52.
    assert (Hx : IZR n * F2R (Z.pos m) e * (1 + bpow (-52)) + bpow emin
                 < 301).
    { eapply Rle_lt_trans; [|exact HB].
      apply Rplus_le_compat_r. apply Rmult_le_compat_r; [lra|].
      apply Rmult_le_compat_l; lra. }
    assert (H972 : 1000 < bpow 972).
    { apply Rlt_le_trans with (bpow 10); [|apply bpow_le; lia].
      rewrite bpow_IZR by lia. apply IZR_lt. reflexivity. }
    destruct (SF64mul (S754_finite false mn en) (S754_finite false m e))
      as [s|s| |s m' e'].
    + exists 0%Z. split; [reflexivity|lia].
    + exfalso. destruct Hup as [_ Hup]. lra.
    + contradiction.
    + destruct Hup as [-> Hup]. eexists. split; [reflexivity|].
      apply trunc_mag_bounds. change (IZR (300 + 1)) with 301. lra.
Qed.

Lemma side_budget n :
  (0 < n < 2 ^ 53)%Z ->
  IZR n * (300 / IZR n * (1 + bpow (-52)) + bpow emin) * (1 + bpow (-52))
    + bpow emin < 301.
Proof.
  intros Hn.
  assert (H1 : 1 <= IZR n) by (apply IZR_le; lia).
  assert (H2 : IZR n <= IZR (2 ^ 53)) by (apply IZR_le; lia).
  assert (Hq : IZR n * (300 / IZR n) = 300) by (field; lra).
  pose proof (bpow_pos emin) as Hep.
  assert (Hem : bpow emin <= / IZR (2 ^ 60)).
  { rewrite <- bpow_neg_IZR by lia. apply bpow_le.
    change emin with (-1074)%Z. lia. }
  assert (Hnd : IZR n * bpow emin <= IZR (2 ^ 53) * / IZR (2 ^ 60)).
  { apply Rmult_le_compat; lra. }
  rewrite bpow_m52.
  set (d := bpow emin) in *. set (x := IZR n) in *.
  set (q := 300 / x) in *.
  replace (x * (q * (1 + / IZR (2 ^ 52)) + d))
    with (300 * (1 + / IZR (2 ^ 52)) + x * d) by (rewrite <- Hq; ring).
  change (2 ^ 52)%Z with 4503599627370496%Z.
  change (2 ^ 53)%Z with 9007199254740992%Z in Hnd.
  change (2 ^ 60)%Z with 1152921504606846976%Z in Hnd, Hem.
  lra.
Qed.

(** X18: the thumbnail of an image with positive sides (below [2^53])
    is computed without an exception and fits the 300x300 pane on both
    sides, whatever the rounding of the two divisions and the two
    products; an image that already fits is shown at its own size. *)
Theorem preview_fits_the_pane w h :
  (0 < w < 2 ^ 53)%Z -> (0 < h < 2 ^ 53)%Z ->
  exists nw nh,
    preview_size (w, h) = Ok (nw, nh) /\
    (0 <= nw <= 300)%Z /\ (0 <= nh <= 300)%Z /\
    ((w <= 300)%Z -> (h <= 300)%Z -> nw = w /\ nh = h).
Proof.
  intros Hw Hh. unfold preview_size.
  destruct ((300 <? w)%Z || (300 <? h)%Z) eqn:E.
  - destruct (ratio_below w Hw) as (r1 & -> & B1).
    destruct (ratio_below h Hh) as (r2 & -> & B2).
    cbn [result_bind].
    destruct (py_min_below _ _ _ _ B1 B2) as [M1 M2].
    destruct (scaled_side_below w _ _ Hw M1 (side_budget w Hw))
      as (nw & -> & Hnw).
    destruct (scaled_side_below h _ _ Hh M2 (side_budget h Hh))
      as (nh & -> & Hnh).
    cbn [result_bind]. exists nw, nh.
    split; [reflexivity|]. split; [exact Hnw|]. split; [exact Hnh|].
    intros Hw' Hh'. apply orb_true_iff in E as [E|E];
      apply Z.ltb_lt in E; lia.
  - apply orb_false_iff in E as [E1 E2].
    apply Z.ltb_ge in E1, E2. exists w, h.
    split; [reflexivity|]. split; [lia|]. split; [lia|]. auto.
Qed.

End Preview.

(** * The worker thread of [_process_images] *)
Section WorkerBooks.
Import PyStr PyNum PyText PIL ImageProcessor Outcomes App.

Variable convert_data : image -> string -> Z -> Z -> color.
Variable lanczos : image -> Z * Z -> Z -> Z -> color.
Variable format_1f : float -> string.

Local Abbreviation tick total :=
  (Some (update_progress format_1f total)).

(** The callback never raises while the batch is not empty, and counts
    its calls. *)
Lemma progress_counts total (rs : list outcome) :
  total <> 0 -> forall p,
  exists p',
    fold_left (notify (tick total)) rs (Ok p) = Ok p' /\
    processed_count p' = processed_count p + Z.of_nat (length rs).
Proof.
  intros Ht. induction rs as [|r rs IH]; intros p.
  - exists p. split; [reflexivity|]. simpl. lia.
  - assert (Hstep : exists q, notify (tick total) (Ok p) r = Ok q /\
                              processed_count q = processed_count p + 1).
    { unfold notify, update_progress, int_truediv. simpl.
      destruct (Z.eqb_spec total 0) as [|_]; [easy|].
      simpl. eexists. split; reflexivity. }
    destruct Hstep as (q & Hq & Hc).
    cbn [fold_left]. rewrite Hq.
    destruct (IH q) as (p' & -> & Hp).
    exists p'. split; [reflexivity|]. rewrite Hp, Hc. simpl length. lia.
Qed.

(** Only an input the format gate accepts can have a [True] flag. *)
Lemma batch_flags UI callback d ty ma l : forall st rs st',
  batch_process convert_data lanczos UI callback l d ty ma st
  = Some (rs, st') ->
  Forall (fun r : outcome =>
            snd (fst r) = true -> is_supported_format (fst (fst r)) = true)
         rs.
Proof.
  induction l as [|f l IH]; intros st rs st'.
  - intros [= <- <-]. constructor.
  - rewrite batch_cons.
    destruct (batch_step _ _ _ _ d ty ma f st) as [[r st1]|] eqn:Es;
      [|discriminate].
    destruct (batch_process _ _ _ _ l d ty ma st1) as [[rs1 st2]|] eqn:Eb;
      [|discriminate].
    intros [= <- <-]. constructor; [|eauto].
    destruct (is_supported_format f) eqn:E.
    + apply step_input in Es. now rewrite Es.
    + rewrite step_unsupported in Es by exact E.
      injection Es as <- <-. discriminate.
Qed.

Lemma filter_length_le {A} (p q : A -> bool) (l : list A) :
  Forall (fun a => p a = true -> q a = true) l ->
  (length (List.filter p l) <= length (List.filter q l))%nat.
Proof.
  induction 1 as [|a l Ha _ IH]; simpl; [lia|].
  destruct (p a); [rewrite Ha by reflexivity; simpl; lia|].
  destruct (q a); simpl; lia.
Qed.

Lemma filter_map_length {A B} (f : A -> B) (q : B -> bool) (l : list A) :
  length (List.filter (fun a => q (f a)) l)
  = length (List.filter q (map f l)).
Proof.
  induction l as [|a l IH]; simpl; [reflexivity|].
  destruct (q (f a)); simpl; now rewrite IH.
Qed.

(** X19: the worker always comes to its end; it appends one entry to
    the history, whose success count is the number of files the batch
    added to the disk and is at most the number of inputs the format gate
    accepts, and whose total is the size of the selection when the entry
    is made; the progress callback has not raised, and has counted the
    accepted inputs. *)
Theorem worker_books_match_the_disk
    files_ files_entry files_status d ty ma ts date_ history writable
    file w :
  exists rs w' p msg,
    let entry :=
      Entry ts date_ ty (Z.of_nat (length files_entry))
            (success_count rs) d in
    process_thread convert_data lanczos format_1f
      files_ files_entry files_status d ty ma ts date_ history writable
      file w
    = Some (rs, (history ++ [entry])%list,
            _save_history (history ++ [entry])%list writable file,
            w', Ok p, msg) /\
    map (fun r : outcome => fst (fst r)) rs = files_ /\
    processed_count p
    = Z.of_nat (length (List.filter is_supported_format files_)) /\
    0 <= success_count rs <= processed_count p /\
    Z.of_nat (base.size (files w'))
    = Z.of_nat (base.size (files w)) + success_count rs.
Proof.
  unfold process_thread.
  set (total := Z.of_nat (length files_)).
  destruct (batch_total convert_data lanczos (result progress)
              (tick total) d ty ma files_ (w, Ok (Progress 0 EmptyString)))
    as (rs & [w' st] & Hb).
  rewrite Hb.
  pose proof (batch_inputs _ _ _ _ _ _ _ _ _ _ _ Hb) as Hin.
  pose proof (batch_flags _ _ _ _ _ _ _ _ _ Hb) as Hfl.
  apply batch_creates in Hb as (_ & Hsize & _ & _ & Hui).
  set (seen := List.filter
                 (fun r : outcome => is_supported_format (fst (fst r))) rs)
    in *.
  assert (Hseen : length seen
                  = length (List.filter is_supported_format files_)).
  { unfold seen. rewrite <- Hin.
    apply (filter_map_length (fun r : outcome => fst (fst r))). }
  assert (Hst : exists p, st = Ok p /\
                          processed_count p = Z.of_nat (length seen)).
  { destruct files_ as [|f l] eqn:Ef.
    - destruct rs; [|discriminate]. exists (Progress 0 EmptyString).
      now rewrite Hui.
    - destruct (progress_counts total seen ltac:(unfold total; simpl; lia)
                  (Progress 0 EmptyString)) as (p & Hp & Hc).
      exists p. rewrite Hui. split; [exact Hp|]. rewrite Hc. simpl. lia. }
  destruct Hst as (p & -> & Hp).
  exists rs, w', p. eexists. cbv zeta.
  split; [reflexivity|]. split; [exact Hin|].
  split; [now rewrite Hp, Hseen|].
  split.
  - unfold success_count. rewrite Hp. split; [lia|].
    apply inj_le. now apply filter_length_le.
  - unfold success_count. unfold successful_outputs in Hsize.
    rewrite length_map in Hsize. rewrite Hsize. apply Nat2Z.inj_add.
Qed.

Lemma filter_length_bound {A} (p : A -> bool) (l : list A) :
  (length (List.filter p l) <= length l)%nat.
Proof.
  induction l as [|a l IH]; simpl; [lia|]. destruct (p a); simpl; lia.
Qed.

(** X20: what the worker saves is what the next start of the program
    loads: when the history so far and the text fields of the new entry
    are ones a line can carry, [_load_history] on the file the worker
    has written gives the history the worker has left in memory. *)
Theorem worker_history_survives_restart
    files_ files_entry files_status d ty ma ts date_ history file w :
  Forall (fun entry => reloadable entry = true) history ->
  reloadable (Entry ts date_ ty 0 0 d) = true ->
  Z.of_nat (length files_) < 2 ^ 63 ->
  Z.of_nat (length files_entry) < 2 ^ 63 ->
  exists rs history' file' w' st msg,
    process_thread convert_data lanczos format_1f
      files_ files_entry files_status d ty ma ts date_ history true file w
    = Some (rs, history', file', w', st, msg) /\
    length history' = S (length history) /\
    _load_history [] file' = history'.
Proof.
  intros Hh He Hn1 Hn2. unfold process_thread.
  destruct (batch_total convert_data lanczos (result progress)
              (tick (Z.of_nat (length files_))) d ty ma files_
              (w, Ok (Progress 0 EmptyString)))
    as (rs & [w' st] & Hb).
  rewrite Hb. do 6 eexists. split; [reflexivity|].
  split; [rewrite length_app; simpl; lia|].
  apply batch_inputs in Hb.
  assert (Hlen : length rs = length files_).
  { rewrite <- Hb. now rewrite length_map. }
  pose proof (filter_length_bound (fun r : outcome => snd (fst r)) rs).
  assert (Hall : Forall (fun entry => reloadable entry = true)
                   (history ++
                    [Entry ts date_ ty (Z.of_nat (length files_entry))
                       (success_count rs) d])%list).
  { apply Forall_app. split; [exact Hh|]. constructor; [|constructor].
    unfold reloadable in He |- *.
    cbn [timestamp date type directory total success] in He |- *.
    do 7 (apply andb_prop in He as [He ?]).
    repeat match goal with
           | P : _ = true |- _ => rewrite P; clear P
           end.
    unfold is_count, success_count. cbn [andb].
    apply andb_true_intro. split; apply andb_true_intro; split; lia. }
  unfold _save_history, _load_history.
  rewrite <- (append_nil_r (history_text _)).
  rewrite (readlines_history _ _ Hall).
  rewrite (load_lines_history _ Hall). reflexivity.
Qed.

End WorkerBooks.

(** * One batch or two *)
Section TwoRuns.
Import PyStr PyNum PIL ImageProcessor.

Variable convert_data : image -> string -> Z -> Z -> color.
Variable lanczos : image -> Z * Z -> Z -> Z -> color.
Variable UI : Type.
Variable callback : option (string -> bool -> string -> UI -> UI).

(** X21: two batches run one after the other on the same output
    directory give the outcomes, the disk and the callback state of the
    one batch over the two lists joined: nothing is kept between the
    inputs of a batch but the disk. *)
Theorem two_batches_are_one l1 l2 d ty ma st rs1 st1 rs2 st2 :
  batch_process convert_data lanczos UI callback l1 d ty ma st
  = Some (rs1, st1) ->
  batch_process convert_data lanczos UI callback l2 d ty ma st1
  = Some (rs2, st2) ->
  batch_process convert_data lanczos UI callback (l1 ++ l2) d ty ma st
  = Some ((rs1 ++ rs2)%list, st2).
Proof. intros H1 H2. rewrite batch_app, H1, H2. reflexivity. Qed.

End TwoRuns.

(** * The theorems at work on the sample machine *)

Section Witnesses.
Import PyStr PyNum PIL ImageProcessor Sample.

Local Abbreviation convert := (convert_resize_image first_bands nearest).
Local Abbreviation batch := (batch_process first_bands nearest unit None).
Local Abbreviation step := (batch_step first_bands nearest unit None).

(** A stretched conversion of the sample photo to a cover. *)
Lemma success_output_has_table_size_witness :
  let r := convert "in/photo.jpg" "out/cover.png" "caratula" false disk in
  fst r = (true, "out/cover.png") /\
  exists target_width target_height out_img,
    DIMENSIONS !! "caratula" = Some (target_width, target_height) /\
    "out/cover.png" = "out/cover.png" /\
    files (snd r) !! "out/cover.png" = Some (Raster out_img) /\
    size out_img = (target_width, target_height) /\
    mode out_img = "RGB".
Proof.
  intros r.
  assert (H : fst r = (true, "out/cover.png")) by (vm_compute; reflexivity).
  split; [exact H|].
  apply (success_output_has_table_size first_bands nearest
           "in/photo.jpg" "out/cover.png" "caratula" false disk (snd r)
           "out/cover.png").
  fold r. rewrite <- H. now destruct r.
Defined.


(** An unknown type, a text file and a locked path. *)
Lemma convert_never_raises_witness :
  fst (fst (convert "in/photo.jpg" "out/p.png" "poster" true disk)) = false /\
  fst (fst (convert "in/notes.txt" "out/n.png" "logo" true disk)) = false /\
  fst (fst (convert "in/photo.jpg" "locked/photo.png" "logo" true disk))
  = false.
Proof.
  split; [|split].
  - apply (proj1 (proj2 (proj2
             (convert_never_raises first_bands nearest
                "in/photo.jpg" "out/p.png" "poster" true disk)))).
    vm_compute. reflexivity.
  - apply (proj1 (proj2 (proj2 (proj2
             (convert_never_raises first_bands nearest
                "in/notes.txt" "out/n.png" "logo" true disk))))).
    intros im. vm_compute. discriminate.
  - apply (proj2 (proj2 (proj2 (proj2
             (convert_never_raises first_bands nearest
                "in/photo.jpg" "locked/photo.png" "logo" true disk))))).
    vm_compute. reflexivity.
Defined.

(** [poster] is not a key of the table. *)
Lemma asset_type_accepted_iff_key_witness :
  fst (convert_resize_image_try first_bands nearest "in/photo.jpg"
         "out/p.png" "poster" true disk)
  = Raise (Exn "ValueError" "Tipo de imagen no válido: poster")
  <-> DIMENSIONS !! "poster" = None.
Proof.
  apply (proj2 (proj2
           (asset_type_accepted_iff_key first_bands nearest "poster")))
    with (im := photo).
  vm_compute. reflexivity.
Defined.

(** An upper-case extension is accepted, a text file is not. *)
Lemma is_supported_format_spec_witness :
  is_supported_format "roms/Cover.PNG" = true /\
  is_supported_format "roms/readme.txt" = false.
Proof.
  split.
  - apply (proj2 (proj1 (is_supported_format_spec "roms/Cover.PNG"))).
    exists "png". split; [set_solver|reflexivity].
  - apply (proj2 (proj1 (proj2
             (is_supported_format_spec "roms/readme.txt")))).
    intros e He.
    repeat (apply elem_of_cons in He as [-> | He]; [discriminate |]).
    now apply elem_of_nil in He.
Defined.

(** A text file in a batch leaves the machine as it was. *)
Lemma unsupported_inputs_not_decoded_witness :
  step "out" "caratula" true "in/notes.txt" (disk, tt)
  = Some (("in/notes.txt", false, "Formato no soportado"), (disk, tt)).
Proof.
  apply (proj1 (unsupported_inputs_not_decoded first_bands nearest unit None
                  "out" "caratula" true [] (disk, tt))).
  vm_compute. reflexivity.
Defined.

(** A broken file before the sample photo changes nothing for the photo. *)
Lemma batch_one_outcome_per_input_witness :
  exists rs st',
    batch ["in/broken.png"; "in/photo.jpg"] "out" "caratula" true (disk, tt)
    = Some (rs, st') /\
    length rs = 2%nat /\
    exists r2, fst <$> batch ["in/photo.jpg"] "out" "caratula" true (disk, tt)
               = Some [r2] /\ rs !! 1%nat = Some r2.
Proof.
  destruct (batch_one_outcome_per_input first_bands nearest unit None
              "out" "caratula" true ["in/broken.png"; "in/photo.jpg"]
              (disk, tt))
    as (rs & st' & Hb & _ & Hlen & Hsplit).
  exists rs, st'. split; [exact Hb|]. split; [exact Hlen|].
  destruct (Hsplit [] "in/broken.png" ["in/photo.jpg"] eq_refl)
    as (rs1 & st1 & r & st2 & rs2 & H1 & Hs & H2 & -> & Hfail).
  injection H1 as <- <-.
  assert (Hr : snd (fst r) = false).
  { vm_compute in Hs. injection Hs as <- _. reflexivity. }
  destruct (Hfail Hr) as [_ Hrest].
  assert (Hlen2 : length rs2 = 1%nat) by (simpl in Hlen; lia).
  destruct rs2 as [|r2 [|? ?]]; try discriminate Hlen2.
  exists r2. split; [exact Hrest|reflexivity].
Defined.

(** The plain name is taken on the sample disk, so [_1] is used. *)
Lemma output_name_lowest_unused_witness :
  exists k r st',
    0 <= k /\
    step "out" "caratula" true "in/photo.jpg" (disk, tt) = Some (r, st') /\
    let p := candidate "out" "photo" "caratula" k in
    (k = 0 /\ p = OsPath.join "out" ("photo" +:+ "_" +:+ "caratula" +:+ ".png") \/
     1 <= k /\
     p = OsPath.join "out"
           ("photo" +:+ "_" +:+ "caratula" +:+ "_" +:+ str_of_int k +:+ ".png")) /\
    path_exists p disk = false /\
    (forall j, 0 <= j < k ->
               path_exists (candidate "out" "photo" "caratula" j) disk = true) /\
    (snd (fst r) = true ->
     r = ("in/photo.jpg", true, p) /\
     exists img, files (fst st') !! p = Some (Raster img)) /\
    (snd (fst r) = false -> files (fst st') = files disk).
Proof.
  apply (proj1 (output_name_lowest_unused first_bands nearest unit None)
           "out" "caratula" true "in/photo.jpg" disk tt).
  vm_compute. reflexivity.
Defined.

(** A 1920x1080 source on a cover. *)
Lemma letterbox_stays_inside_witness :
  exists nw nh,
    scaled_size (1920, 1080) (140, 200) = Ok (nw, nh) /\
    0 <= nw <= 140 /\ 0 <= nh <= 200 /\
    let '(left_, top_) := paste_origin (140, 200) (nw, nh) in
    0 <= left_ /\ 0 <= top_ /\ left_ + nw <= 140 /\ top_ + nh <= 200.
Proof.
  apply (letterbox_stays_inside "caratula" 140 200 1920 1080).
  - vm_compute. reflexivity.
  - lia.
  - lia.
Defined.

(** A 300x400 source on a cover: [int(140 / 0.75)] is 186. *)
Lemma scaled_size_truncates_witness :
  exists aspect_ratio target_ratio,
    int_truediv 300 400 = Ok aspect_ratio /\
    int_truediv 140 200 = Ok target_ratio /\
    if float_gt aspect_ratio target_ratio
    then 140 = 140 /\
         exists q, int_div_float 140 aspect_ratio = Ok q /\
                   int_of_float q = Ok 186
    else 186 = 200 /\
         int_of_float (int_mul_float 200 aspect_ratio) = Ok 140.
Proof.
  apply (proj1 scaled_size_truncates 300 400 140 200 140 186).
  vm_compute. reflexivity.
Defined.
End Witnesses.

(** * The further theorems at work on the sample machine *)
Section MoreWitnesses.
Import PyStr PyNum PyText PIL ImageProcessor Outcomes App Sample Desk.

Local Abbreviation convert := (convert_resize_image first_bands nearest).
Local Abbreviation batch := (batch_process first_bands nearest unit None).

Lemma convert_touches_only_output_witness :
  let r := convert "in/photo.jpg" "out/cover.png" "caratula" false disk in
  denied (snd r) = denied disk /\
  (forall p, p <> "out/cover.png" -> files (snd r) !! p = files disk !! p).
Proof.
  intros r.
  pose proof (convert_touches_only_output first_bands nearest
                "in/photo.jpg" "out/cover.png" "caratula" false disk) as H.
  cbv zeta in H. split; [exact (proj1 H)|exact (proj1 (proj2 H))].
Defined.

Lemma batch_keeps_existing_files_witness :
  exists rs w' ui',
    batch ["in/photo.jpg"] "out" "caratula" true (disk, tt)
    = Some (rs, (w', ui')) /\
    files w' !! "in/notes.txt" = Some Blob.
Proof.
  destruct (batch_total first_bands nearest unit None "out" "caratula" true
              ["in/photo.jpg"] (disk, tt)) as (rs & [w' ui'] & Hb).
  exists rs, w', ui'. split; [exact Hb|].
  apply (batch_keeps_existing_files first_bands nearest unit None
           "out" "caratula" true ["in/photo.jpg"] disk tt rs w' ui'
           "in/notes.txt" Blob Hb).
  vm_compute. reflexivity.
Defined.

Lemma batch_outputs_fresh_and_distinct_witness :
  exists rs w' ui',
    batch ["in/photo.jpg"; "in/photo.jpg"] "out" "caratula" true (disk, tt)
    = Some (rs, (w', ui')) /\
    NoDup (successful_outputs rs) /\
    Z.of_nat (base.size (files w'))
    = Z.of_nat (base.size (files disk)) + success_count rs.
Proof.
  destruct (batch_total first_bands nearest unit None "out" "caratula" true
              ["in/photo.jpg"; "in/photo.jpg"] (disk, tt))
    as (rs & [w' ui'] & Hb).
  exists rs, w', ui'. split; [exact Hb|].
  pose proof (batch_outputs_fresh_and_distinct first_bands nearest unit None
                "out" "caratula" true ["in/photo.jpg"; "in/photo.jpg"]
                disk tt rs w' ui' Hb) as H.
  split; [exact (proj1 H)|exact (proj2 (proj2 H))].
Defined.

Lemma callback_sees_supported_outcomes_witness :
  exists rs w' ui',
    batch_process first_bands nearest nat count_calls
      ["in/notes.txt"; "in/photo.jpg"] "out" "caratula" true (disk, 0%nat)
    = Some (rs, (w', ui')) /\
    ui' = fold_left (notify count_calls)
            (List.filter
               (fun r : outcome => is_supported_format (fst (fst r))) rs)
            0%nat.
Proof.
  destruct (batch_total first_bands nearest nat count_calls
              "out" "caratula" true ["in/notes.txt"; "in/photo.jpg"]
              (disk, 0%nat)) as (rs & [w' ui'] & Hb).
  exists rs, w', ui'. split; [exact Hb|].
  exact (callback_sees_supported_outcomes first_bands nearest nat
           count_calls "out" "caratula" true
           ["in/notes.txt"; "in/photo.jpg"] disk 0%nat rs w' ui' Hb).
Defined.



Lemma target_sized_source_is_copied_witness :
  let r := convert "in/cover.png" "out.png" "caratula" true shelf in
  fst (fst r) = true /\
  exists out_img,
    files (snd r) !! "out.png" = Some (Raster out_img) /\
    size out_img = (140, 200) /\
    (forall x y, 0 <= x < 140 -> 0 <= y < 200 ->
                 getpixel out_img x y
                 = getpixel (as_rgb first_bands cover) x y) /\
    (mode cover = "RGB" -> as_rgb first_bands cover = cover).
Proof.
  intros r.
  assert (H : fst (fst r) = true) by (vm_compute; reflexivity).
  split; [exact H|].
  apply (target_sized_source_is_copied first_bands nearest
           "in/cover.png" "out.png" "caratula" true shelf (snd r)
           (snd (fst r)) cover 140 200).
  - vm_compute. reflexivity.
  - vm_compute. reflexivity.
  - reflexivity.
  - fold r. rewrite <- H. now destruct r as [[ok msg] w'].
Defined.

Lemma bars_on_one_axis_only_witness :
  exists nw nh,
    scaled_size (1920, 1080) (140, 200) = Ok (nw, nh) /\
    (nw = 140 /\ fst (paste_origin (140, 200) (nw, nh)) = 0 \/
     nh = 200 /\ snd (paste_origin (140, 200) (nw, nh)) = 0).
Proof.
  apply (bars_on_one_axis_only "caratula" 140 200 1920 1080).
  - vm_compute. reflexivity.
  - lia.
  - lia.
Defined.

(** A path with a blank, as Windows hands it over. *)
Lemma drop_braced_paths_witness :
  drop_paths (braced [(EmptyString, "C:/my pics/a.png"); (" ", "b.jpg")])
  = ["C:/my pics/a.png"; "b.jpg"].
Proof.
  apply (drop_braced_paths "C:/my pics/a.png" [(" ", "b.jpg")]).
  - reflexivity.
  - reflexivity.
  - repeat constructor.
Defined.

Lemma drop_spaced_paths_witness :
  drop_paths (spaced ["a.png"; "b.jpg"]) = ["a.png"; "b.jpg"].
Proof.
  apply (proj1 drop_spaced_paths ["a.png"; "b.jpg"]).
  - repeat constructor; discriminate.
  - reflexivity.
Defined.

Lemma selection_stays_consistent_witness :
  exists s,
    run [Drop "a.png notes.txt c.jpg"; NextPreview; NextPreview;
         PrevPreview; Refresh; ClearSelection; PrevPreview] initial = Ok s /\
    consistent s.
Proof.
  exact (selection_stays_consistent
           [Drop "a.png notes.txt c.jpg"; NextPreview; NextPreview;
            PrevPreview; Refresh; ClearSelection; PrevPreview]).
Defined.

Lemma saved_history_is_loaded_back_witness :
  _load_history []
    (_save_history [first_entry; second_entry] true NoFile)
  = [first_entry; second_entry].
Proof.
  apply (saved_history_is_loaded_back [first_entry; second_entry] [] NoFile).
  repeat constructor.
Defined.

Lemma bad_count_ends_the_loading_witness :
  _load_history []
    (Text (history_text [first_entry]
           +:+ "t|d|caratula|three|2|out"
           +:+ String LF (history_line second_entry)))
  = [first_entry].
Proof.
  apply (bad_count_ends_the_loading [first_entry]
           "t|d|caratula|three|2|out"
           (Exn "ValueError"
                "invalid literal for int() with base 10: 'three'")
           (history_line second_entry) []).
  - repeat constructor.
  - reflexivity.
  - reflexivity.
  - vm_compute. reflexivity.
Defined.

Lemma directory_is_cut_at_a_bar_witness :
  _load_history [] (Text (history_line barred_entry))
  = [Entry "20240101_120000" "01/01/2024 12:00" "logo" 4 4 "a"].
Proof.
  apply (directory_is_cut_at_a_bar barred_entry "a"
           "b/logo_20240101_120000" []); reflexivity.
Defined.

Lemma short_lines_are_passed_over_witness :
  load_lines [history_line first_entry; String LF EmptyString;
              history_line second_entry] []
  = load_lines [history_line first_entry; history_line second_entry] [].
Proof.
  apply (short_lines_are_passed_over [history_line first_entry]
           (String LF EmptyString) [history_line second_entry] []).
  simpl. lia.
Defined.

Lemma worker_books_match_the_disk_witness :
  exists rs w' p,
    map (fun r : outcome => fst (fst r)) rs
    = ["in/photo.jpg"; "in/notes.txt"; "in/broken.png"] /\
    processed_count p = 2 /\
    0 <= success_count rs <= 2 /\
    Z.of_nat (base.size (files w'))
    = Z.of_nat (base.size (files disk)) + success_count rs.
Proof.
  destruct (worker_books_match_the_disk first_bands nearest
              (fun _ => EmptyString)
              ["in/photo.jpg"; "in/notes.txt"; "in/broken.png"]
              [] [] "out" "caratula" true
              "20240101_120000" "01/01/2024 12:00" [] true NoFile disk)
    as (rs & w' & p & msg & _ & Hin & Hp & Hs & Hd).
  exists rs, w', p. split; [exact Hin|]. split; [exact Hp|].
  split; [|exact Hd]. rewrite Hp in Hs. exact Hs.
Defined.

Lemma preview_fits_the_pane_witness :
  exists nw nh,
    preview_size (1920, 1080) = Ok (nw, nh) /\
    0 <= nw <= 300 /\ 0 <= nh <= 300 /\
    (1920 <= 300 -> 1080 <= 300 -> nw = 1920 /\ nh = 1080).
Proof. apply (preview_fits_the_pane 1920 1080); lia. Defined.

Lemma history_row_opens_its_folder_witness :
  _open_history_folder
    (history_tags [first_entry; second_entry] !! 0%nat)
    [first_entry; second_entry] disk
  = OpenFolder "out".
Proof.
  apply (history_row_opens_its_folder [first_entry; second_entry] 0
           second_entry disk).
  - simpl. apply NoDup_cons. split; [|apply NoDup_singleton].
    intros H. apply list_elem_of_singleton in H. discriminate H.
  - reflexivity.
  - discriminate.
  - vm_compute. reflexivity.
Defined.

Lemma equal_timestamps_open_the_older_folder_witness :
  _open_history_folder (Some (timestamp first_entry))
    [same_second_entry; first_entry] disk
  = OpenFolder "out".
Proof.
  apply (equal_timestamps_open_the_older_folder
           [] same_second_entry [] first_entry [] disk).
  - reflexivity.
  - constructor.
  - discriminate.
  - vm_compute. reflexivity.
Defined.

Lemma worker_history_survives_restart_witness :
  exists rs history' file' w' st msg,
    process_thread first_bands nearest (fun _ => EmptyString)
      ["in/photo.jpg"; "in/notes.txt"] ["in/photo.jpg"; "in/notes.txt"]
      ["in/photo.jpg"; "in/notes.txt"] "out" "caratula" true
      "20240309_181500" "09/03/2024 18:15" [first_entry] true NoFile disk
    = Some (rs, history', file', w', st, msg) /\
    length history' = 2%nat /\
    _load_history [] file' = history'.
Proof.
  apply (worker_history_survives_restart first_bands nearest
           (fun _ => EmptyString)).
  - repeat constructor.
  - vm_compute. reflexivity.
  - simpl. lia.
  - simpl. lia.
Defined.

Lemma two_batches_are_one_witness :
  exists rs1 st1 rs2 st2,
    batch ["in/photo.jpg"] "out" "caratula" true (disk, tt)
    = Some (rs1, st1) /\
    batch ["in/icon.png"] "out" "caratula" true st1 = Some (rs2, st2) /\
    batch ["in/photo.jpg"; "in/icon.png"] "out" "caratula" true (disk, tt)
    = Some ((rs1 ++ rs2)%list, st2).
Proof.
  destruct (batch_total first_bands nearest unit None "out" "caratula" true
              ["in/photo.jpg"] (disk, tt)) as (rs1 & st1 & H1).
  destruct (batch_total first_bands nearest unit None "out" "caratula" true
              ["in/icon.png"] st1) as (rs2 & st2 & H2).
  exists rs1, st1, rs2, st2. split; [exact H1|]. split; [exact H2|].
  exact (two_batches_are_one first_bands nearest unit None
           ["in/photo.jpg"] ["in/icon.png"] "out" "caratula" true
           (disk, tt) rs1 st1 rs2 st2 H1 H2).
Defined.

End MoreWitnesses.
